(** * node-rtsp-image-to-video: the capture / batch / encode loop of [index.js]

    A shallow embedding of [src/index.js].  The program is a single-threaded
    event loop: timer ticks and the completion callbacks of the two kinds of
    ffmpeg child processes run to completion one at a time.  The module-level
    variables and the part of the world the program acts on (active
    intervals, the screenshots directory, the child processes in flight) form
    the state; each callback is a function on that state; an uncaught
    JavaScript exception is the result [Throw]. *)

From Stdlib Require Import ZArith Ascii DecimalString.
From stdpp Require Import gmap strings list sorting.

Local Open Scope Z_scope.

(** ** JavaScript strings

    A string is modelled by [string]; one [ascii] stands for one code unit
    below 256, so the order [String.le] is the code-unit order used by
    [Array.prototype.sort] without a comparator. *)

Module JSString.

(** [s.endsWith(t)] *)
Definition endsWith (s t : string) : bool :=
  (String.length t <=? String.length s)%nat &&
  String.eqb (String.substring (String.length s - String.length t)
                               (String.length t) s) t.

(** [s.startsWith(t)] *)
Definition startsWith (s t : string) : bool := String.prefix t s.

(** The rest of [s] from index [n] on: [s.slice(n)]. *)
Definition slice_from (n : nat) (s : string) : string :=
  String.substring n (String.length s - n) s.

(** [String(z)] for an integral number [z]. *)
Definition of_Z (z : Z) : string := NilZero.string_of_int (Z.to_int z).

Definition of_nat (n : nat) : string := of_Z (Z.of_nat n).

Fixpoint repeat (c : ascii) (n : nat) : string :=
  match n with
  | O => ""
  | S n' => String c (repeat c n')
  end.

(** [s.padStart(n, c)] for a one-character filler [c]. *)
Definition padStart (n : nat) (c : ascii) (s : string) : string :=
  repeat c (n - String.length s) +:+ s.

(** [l.join(sep)] *)
Fixpoint join (sep : string) (l : list string) : string :=
  match l with
  | [] => ""
  | [x] => x
  | x :: l' => x +:+ sep +:+ join sep l'
  end.

Fixpoint map (f : ascii → ascii) (s : string) : string :=
  match s with
  | EmptyString => EmptyString
  | String c s' => String (f c) (map f s')
  end.

Fixpoint forallb (p : ascii → bool) (s : string) : bool :=
  match s with
  | EmptyString => true
  | String c s' => p c && forallb p s'
  end.

(** The regular expression class [\d]. *)
Definition is_digit (c : ascii) : bool :=
  (48 <=? nat_of_ascii c)%nat && (nat_of_ascii c <=? 57)%nat.

(** The characters that [.] does not match (among the code units below
    256: line feed and carriage return). *)
Definition is_line_terminator (c : ascii) : bool :=
  (nat_of_ascii c =? 10)%nat || (nat_of_ascii c =? 13)%nat.

(** [s.split(sep)] for a one-character separator [sep]. *)
Fixpoint split (sep : ascii) (s : string) : list string :=
  match s with
  | EmptyString => [EmptyString]
  | String c s' =>
      if Ascii.eqb c sep then EmptyString :: split sep s'
      else match split sep s' with
           | first :: rest => String c first :: rest
           | [] => [String c EmptyString]
           end
  end.

End JSString.

(** ** Configuration constants (lines 5-13) *)

(** [10 * 1000]: ten seconds in milliseconds. *)
Definition SCREENSHOT_INTERVAL_MS : Z := 10 * 1000.

(** [3600 * 1000]: one hour in milliseconds. *)
Definition VIDEO_CREATION_INTERVAL_MS : Z := 3600 * 1000.

(** [Math.floor(VIDEO_CREATION_INTERVAL_MS / SCREENSHOT_INTERVAL_MS)]: the
    number of screenshots per video. *)
Definition TOTAL_CAPTURED_SS_COUNT : nat :=
  Z.to_nat (VIDEO_CREATION_INTERVAL_MS / SCREENSHOT_INTERVAL_MS).

Global Opaque TOTAL_CAPTURED_SS_COUNT.

(** ** The JavaScript runtime

    [Date] and [__dirname] belong to the engine and the installation, not to
    the program.  A time value is a number of milliseconds since the epoch;
    [Date_parse s] is the time value of [new Date(s)], [None] when it is
    [NaN].  The getters are the local-time ones of [Date.prototype]. *)

Class Runtime := {
  dirname : string;
  Date_toISOString : Z → string;
  Date_parse : string → option Z;
  getFullYear : Z → Z;
  getMonth : Z → Z;
  getDate : Z → Z;
  getHours : Z → Z;
  getMinutes : Z → Z
}.

(** [path.join(a, b)] and [path.resolve(a, b)] for an absolute directory [a]
    and a plain file name [b]. *)
Definition path_join (a b : string) : string := a +:+ "/" +:+ b.

Section Program.

Context `{RT : Runtime}.

(** [path.join(__dirname, 'screenshots')] *)
Definition IMAGE_OUTPUT_DIR : string := path_join dirname "screenshots".

(** The manifest of a batch, as a name inside [IMAGE_OUTPUT_DIR]. *)
Definition listFileName : string := "filelist.txt".

(** [path.join(IMAGE_OUTPUT_DIR, 'filelist.txt')] (line 74) *)
Definition listFilePath : string := path_join IMAGE_OUTPUT_DIR listFileName.

(** [getTimestamp] (lines 26-30), with [date.toTimeString()] given by the
    engine; [a[0]] of an array [a] that [split] returned is its first
    element.  Nothing in [index.js] calls this function. *)
Definition getTimestamp (Date_toTimeString : Z → string) (date : Z) : string :=
  let datePart := hd "" (JSString.split "T" (Date_toISOString date)) in
  let timePart :=
    JSString.join "_"
      (take 2 (JSString.split ":"
                 (hd "" (JSString.split " " (Date_toTimeString date))))) in
  datePart +:+ "_" +:+ timePart.

(** [formatDate] (lines 129-131) *)
Definition formatDate (date : Z) : string :=
  JSString.of_Z (getFullYear date) +:+ "-" +:+
  JSString.padStart 2 "0" (JSString.of_Z (getMonth date + 1)) +:+ "-" +:+
  JSString.padStart 2 "0" (JSString.of_Z (getDate date)) +:+ "-" +:+
  JSString.padStart 2 "0" (JSString.of_Z (getHours date)) +:+ "-" +:+
  JSString.padStart 2 "0" (JSString.of_Z (getMinutes date)).

(** [iso.replace(/[:.]/g, '-')] (line 39) *)
Definition replace_colon_dot (iso : string) : string :=
  JSString.map (λ c, if (Ascii.eqb c ":" || Ascii.eqb c ".")%bool
                     then "-"%char else c) iso.

(** The name of the frame captured at time [now] (lines 39-40):
    [`screenshot-${timestamp}.jpg`]. *)
Definition screenshotFileName (now : Z) : string :=
  "screenshot-" +:+ replace_colon_dot (Date_toISOString now) +:+ ".jpg".

(** One attempt of [/screenshot-(.+)\.jpg$/] at the start of [s]: the
    literal, then at least one character none of which is a line
    terminator, then [.jpg] at the end of the input.  The result is the
    capture group. *)
Definition match_screenshot_here (s : string) : option string :=
  if JSString.startsWith s "screenshot-" then
    let rest := JSString.slice_from 11 s in
    if JSString.endsWith rest ".jpg" && (4 <? String.length rest)%nat then
      let group := String.substring 0 (String.length rest - 4) rest in
      if JSString.forallb (λ c, negb (JSString.is_line_terminator c)) group
      then Some group else None
    else None
  else None.

(** [name.match(/screenshot-(.+)\.jpg$/)], reduced to its capture group:
    the leftmost position at which the expression matches; [None] is the
    result [null] (line 82). *)
Fixpoint match_screenshot (s : string) : option string :=
  match match_screenshot_here s with
  | Some group => Some group
  | None =>
      match s with
      | EmptyString => None
      | String _ s' => match_screenshot s'
      end
  end.

(** [timestampPart.replace(/-(\d{2})-(\d{2})-(\d{3})Z$/, ':$1:$2.$3Z')]
    (lines 85-86).  The expression has a fixed width of eleven characters
    and is anchored at the end, so it can match at one place only. *)
Definition restore_time_separators (timestampPart : string) : string :=
  let n := String.length timestampPart in
  if (11 <=? n)%nat then
    match String.list_ascii_of_string (String.substring (n - 11) 11 timestampPart) with
    | [h1; a; b; h2; c; d; h3; e; f; g; z] =>
        if Ascii.eqb h1 "-" && Ascii.eqb h2 "-" && Ascii.eqb h3 "-" &&
           Ascii.eqb z "Z" &&
           forallb JSString.is_digit [a; b; c; d; e; f; g]
        then String.substring 0 (n - 11) timestampPart +:+
             String.string_of_list_ascii
               [":"; a; b; ":"; c; d; "."; e; f; g; "Z"]%char
        else timestampPart
    | _ => timestampPart
    end
  else timestampPart.

(** ** State *)

(** A frame grab in flight (lines 42-58): the name of its output file
    inside [IMAGE_OUTPUT_DIR] and the value of [now] it was issued at. *)
Record CaptureJob := {
  cj_file : string;
  cj_now : Z
}.

(** An encode in flight (lines 105-126): what its callbacks close over. *)
Record EncodeJob := {
  ej_batchFiles : list string;
  ej_videoFilePath : string
}.

(** What the program asks of the world, in the order it asks. *)
Inductive Effect :=
| SetInterval (id : nat)
| ClearInterval (handle : option nat)
| Readdir
| WriteFile (path content : string)
| Unlink (path : string)
| RunCapture (job : nat) (output : string)
| RunEncode (job : nat) (input output : string)
| ConsoleLog (msg : string)
| ConsoleError (msg : string).

Record State := {
  (* the module-level variables, lines 15-18 *)
  screenshotCount : nat;
  isCreatingVideo : bool;
  captureInterval : option nat;
  lastCaptureTime : Z;
  (* the world *)
  timers : gset nat;            (* the intervals that are active *)
  nextTimer : nat;              (* the next handle setInterval returns *)
  dir : gset string;            (* the file names in IMAGE_OUTPUT_DIR *)
  captures : gmap nat CaptureJob;
  encodes : gmap nat EncodeJob;
  nextJob : nat;
  trace : list Effect           (* oldest first *)
}.

Definition set_screenshotCount (n : nat) (s : State) : State :=
  {| screenshotCount := n; isCreatingVideo := isCreatingVideo s;
     captureInterval := captureInterval s; lastCaptureTime := lastCaptureTime s;
     timers := timers s; nextTimer := nextTimer s; dir := dir s;
     captures := captures s; encodes := encodes s; nextJob := nextJob s;
     trace := trace s |}.

Definition set_isCreatingVideo (b : bool) (s : State) : State :=
  {| screenshotCount := screenshotCount s; isCreatingVideo := b;
     captureInterval := captureInterval s; lastCaptureTime := lastCaptureTime s;
     timers := timers s; nextTimer := nextTimer s; dir := dir s;
     captures := captures s; encodes := encodes s; nextJob := nextJob s;
     trace := trace s |}.

Definition set_lastCaptureTime (t : Z) (s : State) : State :=
  {| screenshotCount := screenshotCount s; isCreatingVideo := isCreatingVideo s;
     captureInterval := captureInterval s; lastCaptureTime := t;
     timers := timers s; nextTimer := nextTimer s; dir := dir s;
     captures := captures s; encodes := encodes s; nextJob := nextJob s;
     trace := trace s |}.

Definition set_dir (d : gset string) (s : State) : State :=
  {| screenshotCount := screenshotCount s; isCreatingVideo := isCreatingVideo s;
     captureInterval := captureInterval s; lastCaptureTime := lastCaptureTime s;
     timers := timers s; nextTimer := nextTimer s; dir := d;
     captures := captures s; encodes := encodes s; nextJob := nextJob s;
     trace := trace s |}.

Definition set_captures (c : gmap nat CaptureJob) (s : State) : State :=
  {| screenshotCount := screenshotCount s; isCreatingVideo := isCreatingVideo s;
     captureInterval := captureInterval s; lastCaptureTime := lastCaptureTime s;
     timers := timers s; nextTimer := nextTimer s; dir := dir s;
     captures := c; encodes := encodes s; nextJob := nextJob s;
     trace := trace s |}.

Definition set_encodes (e : gmap nat EncodeJob) (s : State) : State :=
  {| screenshotCount := screenshotCount s; isCreatingVideo := isCreatingVideo s;
     captureInterval := captureInterval s; lastCaptureTime := lastCaptureTime s;
     timers := timers s; nextTimer := nextTimer s; dir := dir s;
     captures := captures s; encodes := e; nextJob := nextJob s;
     trace := trace s |}.

(** Record one request to the world. *)
Definition emit (e : Effect) (s : State) : State :=
  {| screenshotCount := screenshotCount s; isCreatingVideo := isCreatingVideo s;
     captureInterval := captureInterval s; lastCaptureTime := lastCaptureTime s;
     timers := timers s; nextTimer := nextTimer s; dir := dir s;
     captures := captures s; encodes := encodes s; nextJob := nextJob s;
     trace := trace s ++ [e] |}.

(** The result of running a piece of code: it returns, or an exception
    leaves it; nothing in [index.js] catches one, so [Throw] ends the
    process. *)
Inductive Result :=
| Ok (s : State)
| Throw (s : State).

Definition and_then (r : Result) (k : State → Result) : Result :=
  match r with
  | Ok s => k s
  | Throw s => Throw s
  end.

Definition state_of (r : Result) : State :=
  match r with Ok s | Throw s => s end.

(** ** The world's primitives

    The screenshots directory is a set of names of regular files that only
    the program and its frame grabs change.  Of the failures of the file
    system one is modelled: [fs.unlinkSync] of a name that is not there.
    [fs.readdirSync] and [fs.writeFileSync] always succeed, and so does
    [fs.unlinkSync] of a name that is there; what is proved below of
    results that are [Ok] does not depend on this, what is proved of the
    absence of exceptions would. *)

(** [setInterval(captureScreenshot, SCREENSHOT_INTERVAL_MS)]: a fresh
    active interval; the result is the new state and the handle. *)
Definition setInterval (s : State) : State * nat :=
  let id := nextTimer s in
  (emit (SetInterval id)
     {| screenshotCount := screenshotCount s; isCreatingVideo := isCreatingVideo s;
        captureInterval := captureInterval s; lastCaptureTime := lastCaptureTime s;
        timers := {[id]} ∪ timers s; nextTimer := S id; dir := dir s;
        captures := captures s; encodes := encodes s; nextJob := nextJob s;
        trace := trace s |}, id).

(** [clearInterval(h)]; a handle that is [undefined] or no longer active
    is ignored. *)
Definition clearInterval (h : option nat) (s : State) : State :=
  emit (ClearInterval h)
    {| screenshotCount := screenshotCount s; isCreatingVideo := isCreatingVideo s;
       captureInterval := captureInterval s; lastCaptureTime := lastCaptureTime s;
       timers := match h with Some id => timers s ∖ {[id]} | None => timers s end;
       nextTimer := nextTimer s; dir := dir s;
       captures := captures s; encodes := encodes s; nextJob := nextJob s;
       trace := trace s |}.

(** [fs.readdirSync(IMAGE_OUTPUT_DIR)]: the names, in the order the file
    system gives them. *)
Definition readdirSync (s : State) : State * list string :=
  (emit Readdir s, elements (dir s)).

(** [fs.writeFileSync(path.join(IMAGE_OUTPUT_DIR, name), content)] *)
Definition writeFileSync (name content : string) (s : State) : State :=
  emit (WriteFile (path_join IMAGE_OUTPUT_DIR name) content)
       (set_dir ({[name]} ∪ dir s) s).

(** [fs.unlinkSync(path.join(IMAGE_OUTPUT_DIR, name))]: throws when there
    is no such file. *)
Definition unlinkSync (name : string) (s : State) : Result :=
  if decide (name ∈ dir s)
  then Ok (emit (Unlink (path_join IMAGE_OUTPUT_DIR name))
                (set_dir (dir s ∖ {[name]}) s))
  else Throw s.

(** Start an ffmpeg frame grab writing to [file] (lines 42-58). *)
Definition run_capture (file : string) (now : Z) (s : State) : State :=
  let job := nextJob s in
  emit (RunCapture job (path_join IMAGE_OUTPUT_DIR file))
    {| screenshotCount := screenshotCount s; isCreatingVideo := isCreatingVideo s;
       captureInterval := captureInterval s; lastCaptureTime := lastCaptureTime s;
       timers := timers s; nextTimer := nextTimer s; dir := dir s;
       captures := <[job := {| cj_file := file; cj_now := now |}]> (captures s);
       encodes := encodes s; nextJob := S job; trace := trace s |}.

(** Start an ffmpeg concat encode of the manifest (lines 105-126). *)
Definition run_encode (batchFiles : list string) (videoFilePath : string)
    (s : State) : State :=
  let job := nextJob s in
  emit (RunEncode job listFilePath videoFilePath)
    {| screenshotCount := screenshotCount s; isCreatingVideo := isCreatingVideo s;
       captureInterval := captureInterval s; lastCaptureTime := lastCaptureTime s;
       timers := timers s; nextTimer := nextTimer s; dir := dir s;
       captures := captures s;
       encodes := <[job := {| ej_batchFiles := batchFiles;
                              ej_videoFilePath := videoFilePath |}]> (encodes s);
       nextJob := S job; trace := trace s |}.

(** ** The functions of [index.js] *)

Definition newline : string := String "010"%char "".

(** [startCapturing] (lines 152-154) *)
Definition startCapturing (s : State) : State :=
  let '(s', id) := setInterval s in
  {| screenshotCount := screenshotCount s'; isCreatingVideo := isCreatingVideo s';
     captureInterval := Some id; lastCaptureTime := lastCaptureTime s';
     timers := timers s'; nextTimer := nextTimer s'; dir := dir s';
     captures := captures s'; encodes := encodes s'; nextJob := nextJob s';
     trace := trace s' |}.

(** [resumeCapturing] (lines 134-137) *)
Definition resumeCapturing (s : State) : State :=
  startCapturing (emit (ConsoleLog "Resuming image capture...") s).

(** [captureScreenshot] up to the start of the frame grab (lines 33-45),
    with [Date.now()] = [now]. *)
Definition captureScreenshot (now : Z) (s : State) : State :=
  if isCreatingVideo s || (now - lastCaptureTime s <? SCREENSHOT_INTERVAL_MS)
  then s
  else
    let s := set_lastCaptureTime now s in
    run_capture (screenshotFileName now) now s.

(** The line of the manifest for one frame (line 75). *)
Definition listFileLine (file : string) : string :=
  "file '" +:+ path_join IMAGE_OUTPUT_DIR file +:+ "'".

(** [createVideoFromBatch] up to the start of the encode (lines 62-109). *)
Definition createVideoFromBatch (files : list string) (s : State) : Result :=
  if isCreatingVideo s then Ok s
  else
    let s := set_isCreatingVideo true s in
    if (length files <? TOTAL_CAPTURED_SS_COUNT)%nat then
      let s := emit (ConsoleError
                 ("Expected " +:+ JSString.of_nat TOTAL_CAPTURED_SS_COUNT +:+
                  " images, but found " +:+ JSString.of_nat (length files) +:+
                  ". Aborting video creation.")) s in
      let s := set_isCreatingVideo false s in
      Ok (resumeCapturing s)
    else
      let listFileContent :=
        JSString.join newline
          (listFileLine <$> take TOTAL_CAPTURED_SS_COUNT files) in
      let s := writeFileSync listFileName listFileContent s in
      let batchFiles := take TOTAL_CAPTURED_SS_COUNT files in
      match last batchFiles with
      | None => Throw s            (* [undefined.match]: TypeError *)
      | Some firstImageFileName =>
          match match_screenshot firstImageFileName with
          | None => Throw s        (* [null[1]]: TypeError *)
          | Some timestampPart =>
              let formattedTimestamp := restore_time_separators timestampPart in
              match Date_parse formattedTimestamp with
              | None =>
                  let s := emit (ConsoleError
                    "Failed to parse date from the last image. Skipping this batch.") s in
                  let s := set_isCreatingVideo false s in
                  Ok (resumeCapturing s)
              | Some lastImageTime =>
                  let videoFileName :=
                    "video-" +:+ formatDate lastImageTime +:+ ".mp4" in
                  let videoFilePath := path_join dirname videoFileName in
                  let s := emit (ConsoleLog
                    ("Creating video from " +:+
                     JSString.of_nat TOTAL_CAPTURED_SS_COUNT +:+
                     " screenshots...")) s in
                  let s := emit (ConsoleLog
                    ("Running ffmpeg with output file: " +:+ videoFilePath)) s in
                  Ok (run_encode batchFiles videoFilePath s)
              end
          end
      end.

(** The frames of the directory, oldest name first (line 141):
    [names.filter(file => file.endsWith('.jpg')).sort()]. *)
Definition jpg_sorted (names : list string) : list string :=
  merge_sort String.le
    (filter (λ file, JSString.endsWith file ".jpg" = true) names).

(** [processRemainingImages] (lines 140-149) *)
Definition processRemainingImages (s : State) : Result :=
  let '(s, names) := readdirSync s in
  let files := jpg_sorted names in
  if (TOTAL_CAPTURED_SS_COUNT <=? length files)%nat then
    let s := emit (ConsoleLog
               ("Processing batch of " +:+ JSString.of_nat (length files) +:+
                " images...")) s in
    createVideoFromBatch files s
  else Ok (resumeCapturing s).

(** The ['end'] callback of a frame grab (lines 46-54). *)
Definition captureScreenshot_end (s : State) : Result :=
  let s := set_screenshotCount (S (screenshotCount s)) s in
  let s := emit (ConsoleLog
             ("Progress: " +:+ JSString.of_nat (screenshotCount s) +:+ "/" +:+
              JSString.of_nat TOTAL_CAPTURED_SS_COUNT +:+
              " images recorded for video")) s in
  if (TOTAL_CAPTURED_SS_COUNT <=? screenshotCount s)%nat then
    let s := clearInterval (captureInterval s) s in
    processRemainingImages s
  else Ok s.

(** The ['error'] callback of a frame grab (lines 55-57). *)
Definition captureScreenshot_error (message : string) (s : State) : State :=
  emit (ConsoleError ("Error taking screenshot: " +:+ message)) s.

(** [batchFiles.forEach(file => fs.unlinkSync(...))] (line 115): the first
    failing call ends the loop with what was deleted so far deleted. *)
Fixpoint unlink_each (files : list string) (s : State) : Result :=
  match files with
  | [] => Ok s
  | file :: files' => and_then (unlinkSync file s) (unlink_each files')
  end.

(** The ['start'] callback of an encode (lines 110-112). *)
Definition createVideoFromBatch_start (commandLine : string) (s : State) : State :=
  emit (ConsoleLog ("Spawned ffmpeg with command: " +:+ commandLine)) s.

(** The ['end'] callback of an encode (lines 113-120). *)
Definition createVideoFromBatch_end (job : EncodeJob) (s : State) : Result :=
  let s := emit (ConsoleLog ("Video created: " +:+ ej_videoFilePath job)) s in
  and_then (unlink_each (ej_batchFiles job) s) (λ s,
  and_then (unlinkSync listFileName s) (λ s,
  let s := set_screenshotCount 0 s in
  let s := set_isCreatingVideo false s in
  processRemainingImages s)).

(** The ['error'] callback of an encode (lines 121-125). *)
Definition createVideoFromBatch_error (message : string) (s : State) : State :=
  let s := emit (ConsoleError ("Error creating video: " +:+ message)) s in
  let s := set_isCreatingVideo false s in
  resumeCapturing s.

(** [processImagesOnStartup] (lines 157-160) *)
Definition processImagesOnStartup (s : State) : Result :=
  processRemainingImages
    (emit (ConsoleLog "Processing existing images on startup...") s).

(** The module once it is loaded, before lines 163 and 166 run: the
    variables as initialised on lines 15-18 and the screenshots directory,
    which exists after lines 21-23, holding the names [d]. *)
Definition initial (d : gset string) : State :=
  {| screenshotCount := 0; isCreatingVideo := false;
     captureInterval := None; lastCaptureTime := 0;
     timers := ∅; nextTimer := 0; dir := d;
     captures := ∅; encodes := ∅; nextJob := 0; trace := [] |}.

(** Lines 163 and 166: [processImagesOnStartup(); startCapturing();]. *)
Definition main (d : gset string) : Result :=
  and_then (processImagesOnStartup (initial d)) (λ s, Ok (startCapturing s)).

(** ** The event loop *)

(** What the world can deliver: a tick of an active interval, at which
    [Date.now()] gives [now], and the events of the child processes. *)
Inductive Event :=
| Tick (id : nat) (now : Z)
| CaptureEnd (job : nat)
| CaptureError (job : nat) (message : string)
| EncodeStart (job : nat) (commandLine : string)
| EncodeEnd (job : nat)
| EncodeError (job : nat) (message : string).

(** One turn of the event loop; [None] when the event cannot occur in [s]
    (the interval is not active, the process is not running).  A frame
    grab that ends has written its output file; a child process that
    ended or failed is gone. *)
Definition step (s : State) (e : Event) : option Result :=
  match e with
  | Tick id now =>
      if decide (id ∈ timers s) then Some (Ok (captureScreenshot now s))
      else None
  | CaptureEnd job =>
      c ← captures s !! job;
      Some (captureScreenshot_end
              (set_dir ({[cj_file c]} ∪ dir s)
                 (set_captures (delete job (captures s)) s)))
  | CaptureError job message =>
      _ ← captures s !! job;
      Some (Ok (captureScreenshot_error message
                  (set_captures (delete job (captures s)) s)))
  | EncodeStart job commandLine =>
      _ ← encodes s !! job;
      Some (Ok (createVideoFromBatch_start commandLine s))
  | EncodeEnd job =>
      j ← encodes s !! job;
      Some (createVideoFromBatch_end j
              (set_encodes (delete job (encodes s)) s))
  | EncodeError job message =>
      _ ← encodes s !! job;
      Some (Ok (createVideoFromBatch_error message
                  (set_encodes (delete job (encodes s)) s)))
  end.

(** A run of the event loop from [s].  Nothing follows an uncaught
    exception. *)
Fixpoint run (s : State) (events : list Event) : option Result :=
  match events with
  | [] => Some (Ok s)
  | e :: events' =>
      match step s e with
      | Some (Ok s') => run s' events'
      | Some (Throw s') =>
          match events' with [] => Some (Throw s') | _ => None end
      | None => None
      end
  end.

(** The states the program can be in: those a run from a start-up on some
    directory leads to. *)
Definition reachable (s : State) : Prop :=
  ∃ d s0 events, main d = Ok s0 ∧ run s0 events = Some (Ok s).

End Program.

Global Arguments match_screenshot_here : simpl never.
Global Arguments JSString.is_line_terminator : simpl never.
Global Arguments JSString.is_digit : simpl never.
Global Arguments createVideoFromBatch : simpl never.
Global Arguments processRemainingImages : simpl never.
Global Arguments resumeCapturing : simpl never.

(** ** What is observed of a run

    The notions the properties below are stated with.  They are read off
    the state and its trace; they do not change what the program does. *)

Section Observations.

Context `{RT : Runtime}.
Local Open Scope nat_scope.
Implicit Types (s : State) (r : Result) (files : list string).

(** An encode in flight works on [TOTAL_CAPTURED_SS_COUNT] distinct frames
    that are in the directory, next to its manifest. *)
Definition good_batch (s : State) (job : EncodeJob) : Prop :=
  length (ej_batchFiles job) = TOTAL_CAPTURED_SS_COUNT ∧
  NoDup (ej_batchFiles job) ∧
  Forall (λ f, JSString.endsWith f ".jpg" = true) (ej_batchFiles job) ∧
  (∀ f, f ∈ ej_batchFiles job → f ∈ dir s) ∧
  listFileName ∈ dir s.

(** [isCreatingVideo] is set exactly while one encode is in flight, and
    the handles in use are below the next one. *)
Record invariant (s : State) : Prop := {
  inv_encodes :
    if isCreatingVideo s
    then ∃ j job, encodes s = {[j := job]} ∧ good_batch s job
    else encodes s = ∅;
  inv_timers : ∀ id, id ∈ timers s → id < nextTimer s;
  inv_handle : ∀ id, captureInterval s = Some id → id < nextTimer s
}.

(** The scan's view of [files]: distinct frames of the directory. *)
Definition scanned (s : State) (files : list string) : Prop :=
  NoDup files ∧
  Forall (λ f, JSString.endsWith f ".jpg" = true) files ∧
  ∀ f, f ∈ files → f ∈ dir s.

(** The state after [files] and nothing else went from the directory. *)
Definition unlinked (files : list string) (s : State) : State :=
  {| screenshotCount := screenshotCount s; isCreatingVideo := isCreatingVideo s;
     captureInterval := captureInterval s; lastCaptureTime := lastCaptureTime s;
     timers := timers s; nextTimer := nextTimer s;
     dir := dir s ∖ list_to_set files;
     captures := captures s; encodes := encodes s; nextJob := nextJob s;
     trace := trace s ++ ((λ f, Unlink (path_join IMAGE_OUTPUT_DIR f)) <$> files) |}.

(** The state in which the recovery scan starts after encode [j] ended:
    the process is gone, the batch and the manifest are deleted, the
    counter is zero and the flag is clear. *)
Definition after_encode (j : nat) (job : EncodeJob) (s : State) : State :=
  {| screenshotCount := 0; isCreatingVideo := false;
     captureInterval := captureInterval s; lastCaptureTime := lastCaptureTime s;
     timers := timers s; nextTimer := nextTimer s;
     dir := dir s ∖ (list_to_set (ej_batchFiles job) ∪ {[listFileName]});
     captures := captures s; encodes := delete j (encodes s);
     nextJob := nextJob s;
     trace := trace s ++
              [ConsoleLog ("Video created: " +:+ ej_videoFilePath job)] ++
              ((λ f, Unlink (path_join IMAGE_OUTPUT_DIR f)) <$> ej_batchFiles job) ++
              [Unlink listFilePath] |}.

(** The events that resolve an encode. *)
Definition resolves_encode (e : Event) : bool :=
  match e with
  | EncodeEnd _ | EncodeError _ _ => true
  | _ => false
  end.

Definition is_Readdir (eff : Effect) : bool :=
  match eff with Readdir => true | _ => false end.

Definition is_ClearInterval (eff : Effect) : bool :=
  match eff with ClearInterval _ => true | _ => false end.

Definition is_RunEncode (eff : Effect) : bool :=
  match eff with RunEncode _ _ _ => true | _ => false end.

Definition is_Unlink (eff : Effect) : bool :=
  match eff with Unlink _ => true | _ => false end.

(** How often the program has asked the world for something of kind [p]. *)
Definition occurrences (p : Effect → bool) (s : State) : nat :=
  length (List.filter p (trace s)).

(** The hand-offs to the recovery scan so far: [processRemainingImages]
    reads the directory once each time it is called, and nothing else
    reads it. *)
Definition hand_offs (s : State) : nat := occurrences is_Readdir s.

(** The calls of [clearInterval] so far. *)
Definition timer_stops (s : State) : nat := occurrences is_ClearInterval s.

(** The encodes started so far. *)
Definition encodes_started (s : State) : nat := occurrences is_RunEncode s.

(** The calls of [fs.unlinkSync] so far. *)
Definition deletions (s : State) : nat := occurrences is_Unlink s.

(** The frame grabs that succeed in a sequence of events. *)
Definition successes (events : list Event) : nat :=
  length (List.filter (λ e, match e with CaptureEnd _ => true | _ => false end)
                      events).

(** An encode that ends resets the counter (line 117). *)
Definition is_reset (e : Event) : bool :=
  match e with EncodeEnd _ => true | _ => false end.

(** Strictly increasing in the order of [sort()]: distinct and oldest
    first. *)
Definition name_lt (a b : string) : Prop := String.le a b ∧ a ≠ b.

Instance name_lt_dec : RelDecision name_lt.
Proof. intros a b. unfold name_lt. apply _. Defined.

(** The end of an ISO date-time string: [:mm:ss.sssZ]. *)
Definition iso_time_suffix (a b c d e f g : ascii) : string :=
  String.string_of_list_ascii [":"; a; b; ":"; c; d; "."; e; f; g; "Z"]%char.

(** The value of [now] at the last tick, among [events] run from [s],
    that started a frame grab; [t] when there is none. *)
Fixpoint last_issued (s : State) (events : list Event) (t : Z) : Z :=
  match events with
  | [] => t
  | e :: events' =>
      match step s e with
      | Some (Ok s') =>
          last_issued s' events'
            (match e with
             | Tick _ now =>
                 if bool_decide (nextJob s' = S (nextJob s)) then now else t
             | _ => t
             end)
      | _ => t
      end
  end.

(** The value of [now] at which the last frame grab that ended
    successfully, among [events] run from [s], had been started; [t] when
    there is none. *)
Fixpoint last_succeeded (s : State) (events : list Event) (t : option Z)
    : option Z :=
  match events with
  | [] => t
  | e :: events' =>
      match step s e with
      | Some (Ok s') =>
          last_succeeded s' events'
            (match e with
             | CaptureEnd job => cj_now <$> captures s !! job
             | _ => t
             end)
      | _ => t
      end
  end.

(** The claim C8 as the specification words it: a tick is a no-op
    exactly when the flag is set or less than [SCREENSHOT_INTERVAL_MS]
    has passed since the last frame grab that succeeded. *)
Definition tick_gate_as_specified (s0 : State) (events : list Event)
    (s : State) (now : Z) : Prop :=
  captureScreenshot now s = s ↔
  isCreatingVideo s = true ∨
  ∃ t, last_succeeded s0 events None = Some t ∧
       (now - t < SCREENSHOT_INTERVAL_MS)%Z.

(** Each name strictly below the next one, in the order of [sort()]. *)
Fixpoint increasing (names : list string) : bool :=
  match names with
  | a :: (b :: _) as rest =>
      String.leb a b && negb (String.eqb a b) && increasing rest
  | _ => true
  end.

(** The intervals of a state the program can be in.  The interval with
    handle 0 is the first one ever started; [captureInterval] holds the
    handle of the last one started. *)
Record intervals_ok (s : State) : Prop := {
  io_first : 0 ∈ timers s;
  io_handle :
    ∃ h, captureInterval s = Some h ∧ timers s ⊆ {[0; h]} ∧
         (isCreatingVideo s = false → h ∈ timers s) ∧
         (h = 0 → isCreatingVideo s = true ∧ captures s = ∅);
  io_busy : isCreatingVideo s = true → timers s ⊆ {[0]}
}.

(** The frame grabs in flight: each writes to the file named after the
    time it was issued at, which is no later than [lastCaptureTime], and
    later ones were issued at least [SCREENSHOT_INTERVAL_MS] after earlier
    ones. *)
Record captures_ok (s : State) : Prop := {
  co_job : ∀ j c, captures s !! j = Some c →
    j < nextJob s ∧ cj_file c = screenshotFileName (cj_now c) ∧
    (cj_now c ≤ lastCaptureTime s)%Z;
  co_spaced : ∀ j1 j2 c1 c2,
    captures s !! j1 = Some c1 → captures s !! j2 = Some c2 → j1 < j2 →
    (cj_now c1 + SCREENSHOT_INTERVAL_MS ≤ cj_now c2)%Z
}.

(** What [.+] can match: at least one character, none a line
    terminator. *)
Definition dot_plus (g : string) : Prop :=
  g ≠ "" ∧ JSString.forallb (λ c, negb (JSString.is_line_terminator c)) g = true.

(** The decimal digits of a number below 100, tens first. *)
Definition two_digits (z : Z) : string :=
  String (ascii_of_nat (48 + Z.to_nat (z / 10)))
    (String (ascii_of_nat (48 + Z.to_nat (z mod 10))) "").

(** The report of line 67: fewer files than a batch needs. *)
Definition is_shortfall_report (eff : Effect) : bool :=
  match eff with
  | ConsoleError msg => String.prefix "Expected " msg
  | _ => false
  end.

(** No character of [s] is [c]. *)
Definition without (c : ascii) (s : string) : Prop :=
  JSString.forallb (λ x, negb (Ascii.eqb x c)) s = true.

(** What [/-(\d{2})-(\d{2})-(\d{3})Z$/] matches. *)
Definition dashed_time_suffix (a b c d e f g : ascii) : string :=
  String.string_of_list_ascii ["-"; a; b; "-"; c; d; "-"; e; f; g; "Z"]%char.

(** The encodes that end in a sequence of events. *)
Definition encodes_ended (events : list Event) : nat :=
  length (List.filter is_reset events).

End Observations.

(** Count the effects of a trace. *)
Ltac tally :=
  unfold hand_offs, timer_stops, encodes_started, occurrences in *; simpl in *;
  rewrite ?List.filter_app, ?length_app in *; simpl in *; try lia.

(** ** A reference runtime

    An instance of [Runtime] to run the program on concrete inputs: the
    installation directory is [/app], the local time zone is UTC, and
    [Date] follows ECMAScript's date-time string format
    [YYYY-MM-DDTHH:mm:ss.sssZ] for the years 0 to 9999; a string that is not
    of that format has no time value. *)

Module UTC.

Definition msPerDay : Z := 86400000.

(** Day number since the epoch to (year, month 1-12, day 1-31) in the
    proleptic Gregorian calendar. *)
Definition civil_from_days (days : Z) : Z * Z * Z :=
  let z := days + 719468 in
  let era := z / 146097 in
  let doe := z - era * 146097 in
  let yoe := (doe - doe / 1460 + doe / 36524 - doe / 146096) / 365 in
  let doy := doe - (365 * yoe + yoe / 4 - yoe / 100) in
  let mp := (5 * doy + 2) / 153 in
  let d := doy - (153 * mp + 2) / 5 + 1 in
  let m := if mp <? 10 then mp + 3 else mp - 9 in
  (yoe + era * 400 + (if m <=? 2 then 1 else 0), m, d).

Definition days_from_civil (y m d : Z) : Z :=
  let y := if m <=? 2 then y - 1 else y in
  let era := y / 400 in
  let yoe := y - era * 400 in
  let doy := (153 * (if 2 <? m then m - 3 else m + 9) + 2) / 5 + d - 1 in
  let doe := yoe * 365 + yoe / 4 - yoe / 100 + doy in
  era * 146097 + doe - 719468.

Definition year (t : Z) : Z := (civil_from_days (t / msPerDay)).1.1.
Definition month (t : Z) : Z := (civil_from_days (t / msPerDay)).1.2.
Definition day (t : Z) : Z := (civil_from_days (t / msPerDay)).2.
Definition hours (t : Z) : Z := (t mod msPerDay) / 3600000.
Definition minutes (t : Z) : Z := (t mod 3600000) / 60000.
Definition seconds (t : Z) : Z := (t mod 60000) / 1000.
Definition millis (t : Z) : Z := t mod 1000.

Definition pad (n : nat) (z : Z) : string :=
  JSString.padStart n "0" (JSString.of_Z z).

Definition toISOString (t : Z) : string :=
  pad 4 (year t) +:+ "-" +:+ pad 2 (month t) +:+ "-" +:+ pad 2 (day t) +:+
  "T" +:+ pad 2 (hours t) +:+ ":" +:+ pad 2 (minutes t) +:+ ":" +:+
  pad 2 (seconds t) +:+ "." +:+ pad 3 (millis t) +:+ "Z".

(** [toTimeString] in the time zone UTC. *)
Definition toTimeString (t : Z) : string :=
  pad 2 (hours t) +:+ ":" +:+ pad 2 (minutes t) +:+ ":" +:+ pad 2 (seconds t) +:+
  " GMT+0000 (Coordinated Universal Time)".

Definition digit (c : ascii) : Z := Z.of_nat (nat_of_ascii c) - 48.

Fixpoint number (acc : Z) (ds : list ascii) : Z :=
  match ds with
  | [] => acc
  | c :: ds' => number (10 * acc + digit c) ds'
  end.

Definition parse (s : string) : option Z :=
  match String.list_ascii_of_string s with
  | [y1; y2; y3; y4; s1; m1; m2; s2; d1; d2; s3; h1; h2; s4; n1; n2; s5;
     c1; c2; s6; f1; f2; f3; z] =>
      if forallb JSString.is_digit
           [y1; y2; y3; y4; m1; m2; d1; d2; h1; h2; n1; n2; c1; c2; f1; f2; f3]
         && String.eqb (String.string_of_list_ascii [s1; s2; s3; s4; s5; s6; z])
                       "--T::.Z"
      then
        let y := number 0 [y1; y2; y3; y4] in
        let m := number 0 [m1; m2] in
        let d := number 0 [d1; d2] in
        let h := number 0 [h1; h2] in
        let n := number 0 [n1; n2] in
        let c := number 0 [c1; c2] in
        let f := number 0 [f1; f2; f3] in
        let days := days_from_civil y m d in
        if bool_decide (civil_from_days days = (y, m, d))
           && (h <? 24) && (n <? 60) && (c <? 60)
        then Some (days * msPerDay + h * 3600000 + n * 60000 + c * 1000 + f)
        else None
      else None
  | _ => None
  end.

Definition runtime : Runtime := {|
  dirname := "/app";
  Date_toISOString := toISOString;
  Date_parse := parse;
  getFullYear := year;
  getMonth := λ t, month t - 1;
  getDate := day;
  getHours := hours;
  getMinutes := minutes
|}.

(** The frame names of [n] captures, one every [SCREENSHOT_INTERVAL_MS]
    from time [t0] on. *)
Definition frames (t0 : Z) (n : nat) : list string :=
  (λ i, @screenshotFileName runtime (t0 + Z.of_nat i * SCREENSHOT_INTERVAL_MS)) <$> seq 0 n.

End UTC.

(** ** Concrete inputs, on the reference runtime *)

Module Scenario.

#[local] Existing Instance UTC.runtime.

(** 2024-01-02T03:04:05.678Z *)
Definition t0 : Z := 1704164645678.

(** A backlog of 365 frames, one every ten seconds from [t0] on. *)
Definition backlog_frames : list string := UTC.frames t0 365.
Definition backlog : gset string := list_to_set backlog_frames.

(** 360 files whose names end in [.jpg] and do not contain
    [screenshot-]: [img1000.jpg] to [img1359.jpg]. *)
Definition foreign_frames : list string :=
  (λ i, "img" +:+ JSString.of_nat (1000 + i) +:+ ".jpg") <$> seq 0 360.
Definition foreign : gset string := list_to_set foreign_frames.

(** 359 frames and one later file whose name carries no date. *)
Definition undated_frames : list string :=
  UTC.frames t0 359 ++ ["screenshot-not-a-date.jpg"].

(** A round of 360 ticks of interval 0, ten seconds apart from [t0] on,
    each followed by the success of its frame grab. *)
Definition capture_round : list Event :=
  flat_map (λ i, [Tick 0 (t0 + Z.of_nat i * SCREENSHOT_INTERVAL_MS); CaptureEnd i])
           (seq 0 360).

Definition is_Ok (r : Result) : bool :=
  match r with Ok _ => true | Throw _ => false end.

Definition happens (o : option Result) : bool :=
  match o with Some _ => true | None => false end.

(** The program started on an empty directory. *)
Definition fresh : State := state_of (main ∅).

(** [capture_round] run from [fresh]. *)
Definition round_outcome : option Result := run fresh capture_round.
Definition round_result : Result := default (Ok fresh) round_outcome.

(** The program started on the backlog: the first encode is in flight. *)
Definition started : State := state_of (main backlog).

(** The batch and the video of that encode. *)
Definition first_job : EncodeJob :=
  {| ej_batchFiles := take 360 backlog_frames;
     ej_videoFilePath := "/app/video-2024-01-02-04-03.mp4" |}.

(** One tick at [t0] whose frame grab succeeds. *)
Definition first_grab : list Event := [Tick 0 t0; CaptureEnd 0].
Definition after_first_grab : Result :=
  default (Ok fresh) (run fresh first_grab).

(** One tick at [t0] whose frame grab fails. *)
Definition failed_grab : list Event :=
  [Tick 0 t0; CaptureError 0 "Connection refused"].
Definition after_failed_grab : State :=
  state_of (default (Ok fresh) (run fresh failed_grab)).

(** Two ticks ten seconds apart: both frame grabs are in flight. *)
Definition two_grabs : list Event := [Tick 0 t0; Tick 1 (t0 + 10000)].
Definition after_two_grabs : State :=
  state_of (default (Ok fresh) (run fresh two_grabs)).

(** One tick at [t0]: its frame grab is in flight; then it succeeds. *)
Definition ticked : State :=
  state_of (default (Ok fresh) (run fresh [Tick 0 t0])).
Definition first_frame : CaptureJob :=
  {| cj_file := screenshotFileName t0; cj_now := t0 |}.
Definition after_frame : Result :=
  default (Ok ticked) (step ticked (CaptureEnd 0)).

(** An encode of three frames of which the second is gone. *)
Definition lost_frame_job : EncodeJob :=
  {| ej_batchFiles := ["a.jpg"; "b.jpg"; "c.jpg"];
     ej_videoFilePath := "/app/video-2024-01-02-04-03.mp4" |}.
Definition lost_frame_dir : gset string :=
  {["a.jpg"]} ∪ ({["c.jpg"]} ∪ {["filelist.txt"]}).
Definition lost_frame_state : State :=
  set_isCreatingVideo true (initial lost_frame_dir).


(** The first three frames of the backlog. *)
Definition three_frames : list string := UTC.frames t0 3.

End Scenario.

#[local] Set Warnings "-clear-no-such-hyp".

(** ** Facts about strings *)

Section Strings.

Implicit Types (a b c : string) (x : ascii).
Local Open Scope nat_scope.

Lemma string_app_cons x a b : String x a +:+ b = String x (a +:+ b).
Proof. reflexivity. Qed.

Lemma string_app_assoc a b c : (a +:+ b) +:+ c = a +:+ (b +:+ c).
Proof.
  induction a as [| x a IH]; [done |].
  by rewrite !string_app_cons, IH.
Qed.

Lemma string_length_app a b :
  String.length (a +:+ b) = String.length a + String.length b.
Proof.
  induction a as [| x a IH]; [done |].
  rewrite string_app_cons. simpl. by rewrite IH.
Qed.

Lemma substring_all a : String.substring 0 (String.length a) a = a.
Proof. induction a as [| x a IH]; [done |]. simpl. by rewrite IH. Qed.

Lemma substring_app_take a b :
  String.substring 0 (String.length a) (a +:+ b) = a.
Proof.
  induction a as [| x a IH]; [by destruct b |].
  rewrite string_app_cons. simpl. by rewrite IH.
Qed.

Lemma substring_app_drop a b n :
  String.substring (String.length a) n (a +:+ b) = String.substring 0 n b.
Proof.
  induction a as [| x a IH]; [done |].
  rewrite string_app_cons. simpl. by rewrite IH.
Qed.

Lemma slice_from_app a b : JSString.slice_from (String.length a) (a +:+ b) = b.
Proof.
  unfold JSString.slice_from.
  rewrite (substring_app_drop a b), string_length_app.
  replace (String.length a + String.length b - String.length a)
    with (String.length b) by lia.
  apply substring_all.
Qed.

Lemma endsWith_app a b : JSString.endsWith (a +:+ b) b = true.
Proof.
  unfold JSString.endsWith. rewrite string_length_app.
  rewrite (proj2 (Nat.leb_le _ _)) by lia.
  replace (String.length a + String.length b - String.length b)
    with (String.length a) by lia.
  by rewrite (substring_app_drop a b), substring_all, String.eqb_refl.
Qed.

Lemma prefix_app a b : String.prefix a (a +:+ b) = true.
Proof.
  induction a as [| x a IH]; [by destruct b |].
  rewrite string_app_cons. simpl. by destruct (ascii_dec x x).
Qed.

End Strings.

(** ** The directory scan *)

Section Scan.

Implicit Types (names files : list string) (d : gset string) (f : string).

Lemma jpg_sorted_Permutation names :
  jpg_sorted names ≡ₚ filter (λ file, JSString.endsWith file ".jpg" = true) names.
Proof. unfold jpg_sorted. apply merge_sort_Permutation. Qed.

Lemma jpg_sorted_Sorted names : Sorted String.le (jpg_sorted names).
Proof. unfold jpg_sorted. apply (Sorted_merge_sort String.le). Qed.

Lemma elem_of_jpg_sorted f names :
  f ∈ jpg_sorted names ↔ JSString.endsWith f ".jpg" = true ∧ f ∈ names.
Proof. by rewrite jpg_sorted_Permutation, list_elem_of_filter. Qed.

Lemma jpg_sorted_NoDup names : NoDup names → NoDup (jpg_sorted names).
Proof.
  intros Hnd. rewrite jpg_sorted_Permutation. by apply NoDup_filter.
Qed.

(** The scan depends on the frames of the directory only. *)
Lemma jpg_sorted_ext d1 d2 :
  (∀ f, JSString.endsWith f ".jpg" = true → f ∈ d1 ↔ f ∈ d2) →
  jpg_sorted (elements d1) = jpg_sorted (elements d2).
Proof.
  intros Hagree.
  apply (Sorted_unique String.le); try apply jpg_sorted_Sorted.
  apply NoDup_Permutation; try (apply jpg_sorted_NoDup, NoDup_elements).
  intros f. rewrite !elem_of_jpg_sorted, !elem_of_elements.
  split; intros [Hjpg Hf]; (split; [done |]); by apply (Hagree f Hjpg).
Qed.

Lemma NoDup_take {A} (n : nat) (l : list A) : NoDup l → NoDup (take n l).
Proof.
  intros Hnd. rewrite <- (take_drop n l) in Hnd.
  by apply NoDup_app in Hnd as [? _].
Qed.

Lemma listFileName_not_jpg : JSString.endsWith listFileName ".jpg" = false.
Proof. reflexivity. Qed.

Lemma TOTAL_CAPTURED_SS_COUNT_eq : TOTAL_CAPTURED_SS_COUNT = 360%nat.
Proof. by vm_compute. Qed.

End Scan.

(** ** Invariants of the event loop *)

Section Invariants.

Context `{RT : Runtime}.
Local Open Scope nat_scope.
Implicit Types (s : State) (r : Result) (files : list string) (e : Event).

Lemma step_Tick s id now :
  id ∈ timers s → step s (Tick id now) = Some (Ok (captureScreenshot now s)).
Proof. intros Hid. unfold step. by rewrite decide_True. Qed.

Lemma step_EncodeEnd s j job :
  encodes s !! j = Some job →
  step s (EncodeEnd j) =
  Some (createVideoFromBatch_end job (set_encodes (delete j (encodes s)) s)).
Proof. intros Hj. unfold step. by rewrite Hj. Qed.

Lemma resumeCapturing_timers s :
  timers (resumeCapturing s) = {[nextTimer s]} ∪ timers s.
Proof. reflexivity. Qed.

Lemma good_batch_dir_mono s s' job :
  dir s ⊆ dir s' → good_batch s job → good_batch s' job.
Proof.
  intros Hsub (Hlen & Hnd & Hjpg & Hin & Hlist).
  repeat split; auto.
Qed.

Lemma invariant_initial d : invariant (initial d).
Proof. split; simpl; [done | set_solver | done]. Qed.

Lemma invariant_emit eff s : invariant s → invariant (emit eff s).
Proof. intros [H1 H2 H3]. split; simpl; auto. Qed.

Lemma invariant_startCapturing s : invariant s → invariant (startCapturing s).
Proof.
  intros [H1 H2 H3]. split; simpl; auto.
  - intros id [->%elem_of_singleton | Hid]%elem_of_union; [lia |].
    specialize (H2 _ Hid). lia.
  - intros id [= <-]. lia.
Qed.

Lemma invariant_resumeCapturing s : invariant s → invariant (resumeCapturing s).
Proof. intros. by apply invariant_startCapturing, invariant_emit. Qed.

Lemma invariant_captureScreenshot now s :
  invariant s → invariant (captureScreenshot now s).
Proof.
  intros Hinv. unfold captureScreenshot. case_match; [done |].
  destruct Hinv as [H1 H2 H3]. split; simpl; auto.
Qed.

Lemma scanned_jpg_sorted s : scanned s (jpg_sorted (elements (dir s))).
Proof.
  split; [| split].
  - apply jpg_sorted_NoDup, NoDup_elements.
  - apply Forall_forall. intros f Hf. by apply elem_of_jpg_sorted in Hf as [? _].
  - intros f Hf. apply elem_of_jpg_sorted in Hf as [_ Hf]. by apply elem_of_elements.
Qed.

Lemma invariant_createVideoFromBatch files s s' :
  invariant s → scanned s files →
  createVideoFromBatch files s = Ok s' → invariant s'.
Proof.
  intros Hinv (Hnd & Hjpg & Hin). unfold createVideoFromBatch.
  destruct (isCreatingVideo s) eqn:Hflag; [by intros [= <-] |].
  destruct Hinv as [H1 H2 H3]. rewrite Hflag in H1.
  case_match eqn:Hlen.
  { intros [= <-]. apply invariant_resumeCapturing.
    split; simpl; auto. }
  apply Nat.ltb_ge in Hlen.
  repeat case_match; try done; intros [= <-].
  - split; simpl; auto. rewrite H1. eexists _, _. split; [done |].
    repeat split; simpl.
    + rewrite length_take. lia.
    + by apply NoDup_take.
    + by apply Forall_take.
    + intros f Hf%subseteq_take. set_solver.
    + set_solver.
  - apply invariant_resumeCapturing. split; simpl; auto.
Qed.

Lemma invariant_processRemainingImages s s' :
  invariant s → processRemainingImages s = Ok s' → invariant s'.
Proof.
  intros Hinv. unfold processRemainingImages. simpl.
  case_match.
  - apply invariant_createVideoFromBatch; [by apply invariant_emit, invariant_emit |].
    apply (scanned_jpg_sorted s).
  - intros [= <-]. by apply invariant_resumeCapturing, invariant_emit.
Qed.

Lemma unlink_each_present files s :
  NoDup files → (∀ f, f ∈ files → f ∈ dir s) →
  unlink_each files s = Ok (unlinked files s).
Proof.
  revert s. induction files as [| f files IH]; intros s Hnd Hin.
  - destruct s. unfold unlinked. simpl. f_equal. f_equal.
    + set_solver.
    + by rewrite app_nil_r.
  - apply NoDup_cons in Hnd as [Hf Hnd]. simpl. unfold unlinkSync.
    rewrite decide_True by set_solver. simpl.
    rewrite IH; [| done | simpl; set_solver].
    unfold unlinked. simpl. f_equal. f_equal.
    + set_solver.
    + by rewrite <- app_assoc.
Qed.

Lemma listFileName_not_in_jpgs files :
  Forall (λ f, JSString.endsWith f ".jpg" = true) files → listFileName ∉ files.
Proof.
  rewrite Forall_forall. intros Hjpg Hin. by apply Hjpg in Hin.
Qed.

Lemma createVideoFromBatch_end_good j job s :
  good_batch s job →
  createVideoFromBatch_end job (set_encodes (delete j (encodes s)) s) =
  processRemainingImages (after_encode j job s).
Proof.
  intros (Hlen & Hnd & Hjpg & Hin & Hlist). unfold createVideoFromBatch_end.
  rewrite unlink_each_present by done. simpl. unfold unlinkSync. simpl.
  apply listFileName_not_in_jpgs in Hjpg.
  rewrite decide_True by set_solver. simpl. f_equal.
  unfold after_encode, set_isCreatingVideo, set_screenshotCount, emit; simpl.
  f_equal.
  - set_solver.
  - by rewrite <- !app_assoc.
Qed.

Lemma invariant_step s e s' :
  invariant s → step s e = Some (Ok s') → invariant s'.
Proof.
  intros Hinv. destruct e as [id now | j | j msg | j cmd | j | j msg]; simpl.
  - case_decide; [| done]. intros [= <-]. by apply invariant_captureScreenshot.
  - destruct (captures s !! j) as [c |]; [simpl | done].
    intros [= Hend]. revert Hend. unfold captureScreenshot_end. simpl.
    assert (invariant (set_dir ({[cj_file c]} ∪ dir s)
              (set_captures (delete j (captures s)) s))) as Hinv'.
    { destruct Hinv as [H1 H2 H3]. split; simpl; auto.
      destruct (isCreatingVideo s); [| done].
      destruct H1 as (j' & job & Hj & Hgood). exists j', job. split; [done |].
      eapply good_batch_dir_mono; [| done]. simpl. set_solver. }
    case_match.
    + apply invariant_processRemainingImages.
      destruct Hinv' as [H1 H2 H3]. split; simpl in *; auto.
      destruct (captureInterval s); set_solver.
    + intros [= <-]. destruct Hinv' as [H1 H2 H3]. split; simpl in *; auto.
  - destruct (captures s !! j); [simpl | done]. intros [= <-].
    destruct Hinv as [H1 H2 H3]. split; simpl; auto.
  - destruct (encodes s !! j); [simpl | done]. intros [= <-].
    by apply invariant_emit.
  - destruct (encodes s !! j) as [job |] eqn:Hj; [simpl | done].
    intros [= Hend]. destruct Hinv as [H1 H2 H3].
    destruct (isCreatingVideo s) eqn:Hflag; [| by rewrite H1 in Hj].
    destruct H1 as (j' & job' & Henc & Hgood).
    rewrite Henc in Hj. apply lookup_singleton_Some in Hj as [-> ->].
    rewrite createVideoFromBatch_end_good in Hend by done.
    apply invariant_processRemainingImages in Hend; [done |].
    split; simpl; auto. rewrite Henc. apply delete_singleton_eq.
  - destruct (encodes s !! j) as [job |] eqn:Hj; [simpl | done].
    intros [= <-]. destruct Hinv as [H1 H2 H3].
    apply invariant_resumeCapturing. split; simpl; auto.
    destruct (isCreatingVideo s) eqn:Hflag; [| by rewrite H1].
    destruct H1 as (j' & job' & Henc & Hgood).
    rewrite Henc in Hj. apply lookup_singleton_Some in Hj as [-> ->].
    rewrite Henc. apply delete_singleton_eq.
Qed.

Lemma invariant_run events s s' :
  invariant s → run s events = Some (Ok s') → invariant s'.
Proof.
  revert s. induction events as [| e events IH]; intros s Hinv; simpl.
  - by intros [= <-].
  - destruct (step s e) as [[s1 | s1] |] eqn:Hstep; [| by destruct events | done].
    apply IH. by eapply invariant_step.
Qed.

Lemma invariant_main d s : main d = Ok s → invariant s.
Proof.
  unfold main, processImagesOnStartup.
  destruct (processRemainingImages _) as [s1 | s1] eqn:Hscan; [simpl | done].
  intros [= <-]. apply invariant_startCapturing.
  eapply invariant_processRemainingImages; [| done].
  apply invariant_emit, invariant_initial.
Qed.

Lemma invariant_reachable s : reachable s → invariant s.
Proof.
  intros (d & s0 & events & Hmain & Hrun).
  eapply invariant_run; [| done]. by eapply invariant_main.
Qed.

End Invariants.

(** ** Mutual exclusion of capturing and encoding *)

Section MutualExclusion.

Context `{RT : Runtime}.
Local Open Scope nat_scope.
Implicit Types (s : State) (r : Result) (files : list string) (e : Event).

Lemma createVideoFromBatch_busy files s :
  isCreatingVideo s = true → createVideoFromBatch files s = Ok s.
Proof. intros Hflag. unfold createVideoFromBatch. by rewrite Hflag. Qed.

Lemma createVideoFromBatch_outcome files s s' :
  isCreatingVideo s = false → encodes s = ∅ →
  createVideoFromBatch files s = Ok s' →
  (isCreatingVideo s' = false ∧ encodes s' = ∅) ∨
  (isCreatingVideo s' = true ∧ ∃ job, encodes s' = {[nextJob s := job]}).
Proof.
  intros Hflag Henc. unfold createVideoFromBatch. rewrite Hflag.
  repeat case_match; try done; intros [= <-]; simpl; auto.
  right. split; [done |]. rewrite Henc. by eexists.
Qed.

Lemma processRemainingImages_busy s :
  isCreatingVideo s = true →
  ∃ s', processRemainingImages s = Ok s' ∧
        isCreatingVideo s' = true ∧ encodes s' = encodes s.
Proof.
  intros Hflag. unfold processRemainingImages. simpl. case_match.
  - rewrite createVideoFromBatch_busy by done. eauto.
  - eexists. split; [done |]. simpl. auto.
Qed.

(** C2. In every state the program can reach: a tick that finds
    [isCreatingVideo] set issues no frame grab (it changes nothing); at
    most one encode is in flight, and the flag is set exactly while one
    is; while an encode is in flight no event other than its own end or
    error starts an encode or clears the flag; and each of the three
    outcomes of [createVideoFromBatch] -- the encode ended, the encode
    failed, the call gave up before encoding -- leaves the flag clear
    unless the recovery scan that follows has started the next encode. *)
Theorem C2_mutual_exclusion s :
  reachable s →
  (∀ id now, isCreatingVideo s = true → id ∈ timers s →
     step s (Tick id now) = Some (Ok s)) ∧
  size (encodes s) ≤ 1 ∧
  (isCreatingVideo s = true ↔ encodes s ≠ ∅) ∧
  (∀ e r, isCreatingVideo s = true → resolves_encode e = false →
     step s e = Some r →
     ∃ s', r = Ok s' ∧ isCreatingVideo s' = true ∧ encodes s' = encodes s) ∧
  (∀ j job, encodes s !! j = Some job →
     step s (EncodeEnd j) = Some (processRemainingImages (after_encode j job s)) ∧
     isCreatingVideo (after_encode j job s) = false ∧
     encodes (after_encode j job s) = ∅) ∧
  (∀ j message s', step s (EncodeError j message) = Some (Ok s') →
     isCreatingVideo s' = false ∧ encodes s' = ∅) ∧
  (∀ files s', isCreatingVideo s = false →
     createVideoFromBatch files s = Ok s' →
     (isCreatingVideo s' = false ∧ encodes s' = ∅) ∨
     (isCreatingVideo s' = true ∧ ∃ job, encodes s' = {[nextJob s := job]})).
Proof.
  intros Hreach. pose proof (invariant_reachable _ Hreach) as [Hinv _ _].
  assert (∀ j job, encodes s !! j = Some job →
            isCreatingVideo s = true ∧ encodes s = {[j := job]} ∧
            good_batch s job) as Hjob.
  { intros j job Hj. destruct (isCreatingVideo s); [| by rewrite Hinv in Hj].
    destruct Hinv as (j' & job' & Henc & Hgood).
    rewrite Henc in Hj. by apply lookup_singleton_Some in Hj as [-> ->]. }
  split_and!.
  - intros id now Hflag Hid. simpl. rewrite decide_True by done.
    unfold captureScreenshot. by rewrite Hflag.
  - destruct (isCreatingVideo s).
    + destruct Hinv as (j & job & -> & _). rewrite map_size_singleton. lia.
    + rewrite Hinv, map_size_empty. lia.
  - split.
    + intros Hflag. rewrite Hflag in Hinv. destruct Hinv as (j & job & -> & _).
      apply insert_non_empty.
    + intros Hne. destruct (isCreatingVideo s); [done | by rewrite Hinv in Hne].
  - intros e r Hflag Hres Hstep.
    destruct e as [id now | j | j msg | j cmd | j | j msg]; simpl in *; try done.
    + case_decide; [| done]. injection Hstep as <-.
      unfold captureScreenshot. rewrite Hflag. eauto.
    + destruct (captures s !! j) as [c |]; [simpl in * | done].
      injection Hstep as <-. unfold captureScreenshot_end. simpl.
      destruct (TOTAL_CAPTURED_SS_COUNT <=? _).
      * match goal with
        | |- ∃ s', processRemainingImages ?x = _ ∧ _ =>
            destruct (processRemainingImages_busy x Hflag) as (s' & Hs' & ? & ?)
        end.
        by exists s'.
      * eexists. split; [done |]. simpl; auto.
    + destruct (captures s !! j); [simpl in * | done].
      injection Hstep as <-. eexists. split; [done |]. simpl; auto.
    + destruct (encodes s !! j); [simpl in * | done].
      injection Hstep as <-. eexists. split; [done |]. simpl; auto.
  - intros j job Hj. destruct (Hjob _ _ Hj) as (_ & Henc & Hgood).
    split_and!.
    + simpl. rewrite Hj. simpl. f_equal.
      by apply createVideoFromBatch_end_good.
    + done.
    + simpl. rewrite Henc. apply delete_singleton_eq.
  - intros j message s' Hstep. simpl in Hstep.
    destruct (encodes s !! j) as [job |] eqn:Hj; [simpl in Hstep | done].
    injection Hstep as <-. simpl. split; [done |].
    destruct (Hjob _ _ Hj) as (_ & -> & _). apply delete_singleton_eq.
  - intros files s' Hflag. rewrite Hflag in Hinv.
    by apply createVideoFromBatch_outcome.
Qed.

End MutualExclusion.

(** ** The hand-off from capturing to encoding *)

Section HandOff.

Context `{RT : Runtime}.
Local Open Scope nat_scope.
Implicit Types (s : State) (r : Result) (files : list string) (e : Event).

Lemma createVideoFromBatch_tally files s r :
  createVideoFromBatch files s = r →
  screenshotCount (state_of r) = screenshotCount s ∧
  hand_offs (state_of r) = hand_offs s ∧
  timer_stops (state_of r) = timer_stops s ∧
  encodes_started s ≤ encodes_started (state_of r) ≤ S (encodes_started s).
Proof.
  intros <-. unfold createVideoFromBatch.
  repeat case_match; simpl; split_and!; tally.
Qed.

Lemma processRemainingImages_tally s r :
  processRemainingImages s = r →
  screenshotCount (state_of r) = screenshotCount s ∧
  hand_offs (state_of r) = S (hand_offs s) ∧
  timer_stops (state_of r) = timer_stops s ∧
  encodes_started s ≤ encodes_started (state_of r) ≤ S (encodes_started s).
Proof.
  intros <-. unfold processRemainingImages. simpl.
  destruct (TOTAL_CAPTURED_SS_COUNT <=? _).
  - match goal with
    | |- context [createVideoFromBatch ?f ?x] =>
        pose proof (createVideoFromBatch_tally f x _ eq_refl) as (H1 & H2 & H3 & Henc)
    end.
    rewrite H1, H2, H3. clear H1 H2 H3. split_and!; tally.
  - simpl. split_and!; tally.
Qed.

Lemma step_other_tally s e r :
  is_reset e = false → (∀ j, e ≠ CaptureEnd j) → step s e = Some r →
  screenshotCount (state_of r) = screenshotCount s ∧
  hand_offs (state_of r) = hand_offs s ∧
  timer_stops (state_of r) = timer_stops s ∧
  encodes_started (state_of r) = encodes_started s.
Proof.
  intros Hreset Hne.
  destruct e as [id now | j | j msg | j cmd | j | j msg]; simpl; try done.
  - case_decide; [| done]. intros [= <-]. unfold captureScreenshot.
    case_match; simpl; split_and!; tally.
  - by destruct (Hne j).
  - destruct (captures s !! j); [simpl | done]. intros [= <-].
    simpl; split_and!; tally.
  - destruct (encodes s !! j); [simpl | done]. intros [= <-].
    simpl; split_and!; tally.
  - destruct (encodes s !! j); [simpl | done]. intros [= <-].
    simpl; split_and!; tally.
Qed.

Lemma step_CaptureEnd_tally s j r :
  step s (CaptureEnd j) = Some r →
  screenshotCount (state_of r) = S (screenshotCount s) ∧
  (S (screenshotCount s) < TOTAL_CAPTURED_SS_COUNT →
     hand_offs (state_of r) = hand_offs s ∧
     timer_stops (state_of r) = timer_stops s ∧
     encodes_started (state_of r) = encodes_started s) ∧
  (TOTAL_CAPTURED_SS_COUNT ≤ S (screenshotCount s) →
     hand_offs (state_of r) = S (hand_offs s) ∧
     timer_stops (state_of r) = S (timer_stops s) ∧
     encodes_started s ≤ encodes_started (state_of r) ≤ S (encodes_started s)).
Proof.
  simpl. destruct (captures s !! j) as [c |]; [simpl | done]. intros [= <-].
  unfold captureScreenshot_end. simpl.
  destruct (TOTAL_CAPTURED_SS_COUNT <=? _) eqn:Hle.
  - apply Nat.leb_le in Hle.
    match goal with
    | |- context [processRemainingImages ?x] =>
        pose proof (processRemainingImages_tally x _ eq_refl) as (H1 & H2 & H3 & Henc)
    end.
    rewrite H1, H2, H3. clear H1 H2 H3. split_and!; tally.
  - apply Nat.leb_gt in Hle. simpl. split_and!; tally.
Qed.

Lemma run_cons s e events r :
  run s (e :: events) = Some r →
  (∃ s1, step s e = Some (Ok s1) ∧ run s1 events = Some r) ∨
  (step s e = Some r ∧ events = [] ∧ ∃ s1, r = Throw s1).
Proof.
  simpl. destruct (step s e) as [[s1 | s1] |]; [eauto | | done].
  destruct events; [| done]. intros [= <-]. eauto.
Qed.

Lemma run_snoc events s e r :
  run s (events ++ [e]) = Some r →
  ∃ s1, run s events = Some (Ok s1) ∧ step s1 e = Some r.
Proof.
  revert s. induction events as [| e' events IH]; intros s.
  - simpl. destruct (step s e) as [[s1 | s1] |] eqn:Hstep; [| | done];
      intros [= <-]; by exists s.
  - intros [(s1 & Hstep & Hrun) | (_ & Hnil & _)]%run_cons.
    + simpl. rewrite Hstep. by apply IH.
    + by destruct events.
Qed.

Lemma successes_cons e events :
  successes (e :: events) =
  (match e with CaptureEnd _ => 1 | _ => 0 end) + successes events.
Proof. unfold successes. by destruct e. Qed.

(** Events without a successful frame grab and without a reset hand
    nothing off. *)
Lemma run_no_success events s r :
  Forall (λ e, is_reset e = false) events → successes events = 0 →
  run s events = Some r →
  screenshotCount (state_of r) = screenshotCount s ∧
  hand_offs (state_of r) = hand_offs s ∧
  timer_stops (state_of r) = timer_stops s ∧
  encodes_started (state_of r) = encodes_started s.
Proof.
  revert s. induction events as [| e events IH]; intros s Hres Hzero Hrun.
  - by injection Hrun as <-.
  - apply Forall_cons in Hres as [He Hres]. rewrite successes_cons in Hzero.
    assert (∀ j, e ≠ CaptureEnd j) as Hne by (intros j ->; lia).
    assert (successes events = 0) as Hzero' by lia.
    apply run_cons in Hrun as [(s1 & Hstep & Hrun) | (Hstep & _ & _)].
    + destruct (step_other_tally _ _ _ He Hne Hstep) as (<- & <- & <- & <-).
      by apply IH.
    + by apply step_other_tally in Hstep.
Qed.

(** Below the threshold nothing is handed off and the counter counts the
    successful frame grabs; the frame grab that reaches the threshold
    hands off once. *)
Lemma run_tally events s r :
  Forall (λ e, is_reset e = false) events →
  screenshotCount s < TOTAL_CAPTURED_SS_COUNT →
  run s events = Some r →
  (screenshotCount s + successes events < TOTAL_CAPTURED_SS_COUNT →
     screenshotCount (state_of r) = screenshotCount s + successes events ∧
     hand_offs (state_of r) = hand_offs s ∧
     timer_stops (state_of r) = timer_stops s ∧
     encodes_started (state_of r) = encodes_started s) ∧
  (screenshotCount s + successes events = TOTAL_CAPTURED_SS_COUNT →
     hand_offs (state_of r) = S (hand_offs s) ∧
     timer_stops (state_of r) = S (timer_stops s) ∧
     encodes_started s ≤ encodes_started (state_of r) ≤ S (encodes_started s)).
Proof.
  revert s. induction events as [| e events IH]; intros s Hres Hlt Hrun.
  - injection Hrun as <-. unfold successes. simpl. split; [| lia].
    intros _. split_and!; lia.
  - apply Forall_cons in Hres as [He Hres]. rewrite successes_cons.
    assert ((∃ j, e = CaptureEnd j) ∨ (∀ j, e ≠ CaptureEnd j)) as [[j ->] | Hne']
      by (destruct e; eauto; by right).
    + apply run_cons in Hrun as [(s1 & Hstep & Hrun) | (Hstep & -> & _)].
      * destruct (step_CaptureEnd_tally _ _ _ Hstep) as (Hc & Hbelow & Hat).
        simpl in Hc, Hbelow, Hat.
        destruct (decide (S (screenshotCount s) < TOTAL_CAPTURED_SS_COUNT)) as [Hlt' | Hge].
        -- destruct (Hbelow Hlt') as (E1 & E2 & E3).
           destruct (IH s1 Hres ltac:(lia) Hrun) as [IH1 IH2].
           rewrite Hc, E1, E2, E3 in *. split; intros Hk.
           ++ destruct IH1 as (-> & -> & -> & ->); [lia |]. split_and!; lia.
           ++ apply IH2. lia.
        -- destruct Hat as (E1 & E2 & E3); [lia |]. split; [lia |].
           intros Hk. assert (successes events = 0) as Hzero by lia.
           destruct (run_no_success _ _ _ Hres Hzero Hrun) as (_ & -> & -> & ->).
           split_and!; lia.
      * destruct (step_CaptureEnd_tally _ _ _ Hstep) as (Hc & Hbelow & Hat).
        unfold successes. simpl. split; intros Hk.
        -- destruct Hbelow as (-> & -> & ->); [lia |]. split_and!; lia.
        -- apply Hat. lia.
    + replace (match e with CaptureEnd _ => 1 | _ => 0 end) with 0
        by (destruct e; try done; by destruct (Hne' job)).
      apply run_cons in Hrun as [(s1 & Hstep & Hrun) | (Hstep & -> & _)].
      * destruct (step_other_tally _ _ _ He Hne' Hstep) as (Hc & E1 & E2 & E3).
        simpl in Hc, E1, E2, E3.
        destruct (IH s1 Hres ltac:(lia) Hrun) as [IH1 IH2].
        rewrite Hc, E1, E2, E3 in *. by split.
      * destruct (step_other_tally _ _ _ He Hne' Hstep) as (-> & -> & -> & ->).
        unfold successes. simpl. split; intros Hk; [split_and!; lia | lia].
Qed.

Lemma run_app_Ok events1 events2 s s1 :
  run s events1 = Some (Ok s1) → run s (events1 ++ events2) = run s1 events2.
Proof.
  revert s. induction events1 as [| e events1 IH]; intros s; simpl.
  - by intros [= <-].
  - destruct (step s e) as [[s' | s'] |]; [apply IH | by destruct events1 | done].
Qed.

Lemma reachable_run s events s' :
  reachable s → run s events = Some (Ok s') → reachable s'.
Proof.
  intros (d & s0 & events0 & Hmain & Hrun0) Hrun.
  exists d, s0, (events0 ++ events). split; [done |].
  by rewrite (run_app_Ok _ _ _ _ Hrun0).
Qed.

Lemma successes_app events1 events2 :
  successes (events1 ++ events2) = successes events1 + successes events2.
Proof. unfold successes. by rewrite List.filter_app, length_app. Qed.

(** What the synchronous part of an encode attempt can do to the
    intervals: start one, with the next handle. *)
Lemma createVideoFromBatch_timers files s r :
  createVideoFromBatch files s = r →
  (∃ rest, trace (state_of r) = trace s ++ rest) ∧
  timers (state_of r) ⊆ timers s ∪ {[nextTimer s]}.
Proof.
  intros <-. unfold createVideoFromBatch, resumeCapturing.
  repeat case_match; simpl; (split; [| set_solver]);
    rewrite <- ?app_assoc; eauto.
  exists []. by rewrite app_nil_r.
Qed.

Lemma processRemainingImages_timers s r :
  processRemainingImages s = r →
  (∃ rest, trace (state_of r) = trace s ++ Readdir :: rest) ∧
  timers (state_of r) ⊆ timers s ∪ {[nextTimer s]}.
Proof.
  intros <-. unfold processRemainingImages. simpl.
  destruct (TOTAL_CAPTURED_SS_COUNT <=? _).
  - match goal with
    | |- context [createVideoFromBatch ?f ?x] =>
        destruct (createVideoFromBatch_timers f x _ eq_refl) as [[rest Hrest] Htimers]
    end.
    split; [| done]. rewrite Hrest. simpl. rewrite <- !app_assoc. eauto.
  - unfold resumeCapturing. simpl. split; [| set_solver].
    rewrite <- !app_assoc. eauto.
Qed.

(** X25. From a reachable state in which the counter is zero (the last
    batch was just reset), over any events that do not reset it again:
    as long as fewer than [TOTAL_CAPTURED_SS_COUNT] frame grabs have
    succeeded the counter counts them and nothing is handed off -- no
    interval is cleared, the directory is not scanned, no encode is
    started; once exactly [TOTAL_CAPTURED_SS_COUNT] have succeeded there
    has been exactly one [clearInterval], exactly one hand-off to the scan
    and at most one encode started; and the successful frame grab that
    reaches the threshold is the one that does it: it calls
    [clearInterval(captureInterval)] and then the scan, and the interval
    that [captureInterval] held is not active afterwards.  Other intervals
    are not cleared, and whether the scan starts an encode is not part of
    this. *)
Theorem hand_off_exactly_once s0 events r :
  reachable s0 →
  screenshotCount s0 = 0 →
  Forall (λ e, is_reset e = false) events →
  run s0 events = Some r →
  (successes events < TOTAL_CAPTURED_SS_COUNT →
     screenshotCount (state_of r) = successes events ∧
     hand_offs (state_of r) = hand_offs s0 ∧
     timer_stops (state_of r) = timer_stops s0 ∧
     encodes_started (state_of r) = encodes_started s0) ∧
  (successes events = TOTAL_CAPTURED_SS_COUNT →
     hand_offs (state_of r) = S (hand_offs s0) ∧
     timer_stops (state_of r) = S (timer_stops s0) ∧
     encodes_started s0 ≤ encodes_started (state_of r) ≤ S (encodes_started s0)) ∧
  (∀ before j s,
     events = before ++ [CaptureEnd j] →
     successes events = TOTAL_CAPTURED_SS_COUNT →
     run s0 before = Some (Ok s) →
     (∃ progress rest,
        trace (state_of r) =
        trace s ++ [ConsoleLog progress; ClearInterval (captureInterval s); Readdir]
                ++ rest) ∧
     (∀ id, captureInterval s = Some id → id ∉ timers (state_of r))).
Proof.
  intros Hreach Hzero Hres Hrun.
  pose proof TOTAL_CAPTURED_SS_COUNT_eq as HN.
  destruct (run_tally events s0 r Hres ltac:(lia) Hrun) as [Hbelow Hat].
  rewrite Hzero in Hbelow, Hat. simpl in Hbelow, Hat.
  split_and!; [done | done |].
  intros before j s -> Hk Hbefore.
  rewrite successes_app in Hk. unfold successes at 2 in Hk. simpl in Hk.
  apply Forall_app in Hres as [Hres _].
  destruct (run_tally before s0 (Ok s) Hres ltac:(lia) Hbefore) as [Hcount _].
  destruct Hcount as (Hcount & _); [lia |]. simpl in Hcount.
  apply run_snoc in Hrun as (s1 & Hbefore' & Hstep).
  rewrite Hbefore in Hbefore'. injection Hbefore' as <-.
  pose proof (invariant_reachable _ (reachable_run _ _ _ Hreach Hbefore))
    as [_ Htimers Hhandle].
  simpl in Hstep. destruct (captures s !! j) as [c |]; [simpl in Hstep | done].
  injection Hstep as <-. unfold captureScreenshot_end. simpl.
  rewrite (proj2 (Nat.leb_le _ _)) by lia.
  match goal with
  | |- context [processRemainingImages ?x] =>
      destruct (processRemainingImages_timers x _ eq_refl) as [[rest Hrest] Hsub]
  end.
  split.
  - rewrite Hrest. simpl. rewrite <- !app_assoc. simpl. eauto.
  - intros id Hid Hin. apply Hsub in Hin. simpl in Hin. rewrite Hid in Hin.
    specialize (Hhandle _ Hid). set_solver by lia.
Qed.

End HandOff.

(** ** What an encode attempt does to the directory *)

Section Directory.

Context `{RT : Runtime}.
Local Open Scope nat_scope.
Implicit Types (s : State) (r : Result) (files : list string) (f : string).

(** Up to its start of ffmpeg, [createVideoFromBatch] deletes nothing and
    writes at most the manifest. *)
Lemma createVideoFromBatch_dir files s r :
  createVideoFromBatch files s = r →
  dir s ⊆ dir (state_of r) ∧
  dir (state_of r) ⊆ {[listFileName]} ∪ dir s ∧
  deletions (state_of r) = deletions s.
Proof.
  intros <-. unfold createVideoFromBatch, resumeCapturing, deletions, occurrences.
  repeat case_match; simpl; rewrite ?List.filter_app, ?length_app; simpl;
    (split_and!; [set_solver | set_solver | lia]).
Qed.

Lemma processRemainingImages_dir s r :
  processRemainingImages s = r →
  dir s ⊆ dir (state_of r) ∧
  dir (state_of r) ⊆ {[listFileName]} ∪ dir s ∧
  deletions (state_of r) = deletions s.
Proof.
  intros <-. unfold processRemainingImages. simpl.
  destruct (TOTAL_CAPTURED_SS_COUNT <=? _).
  - match goal with
    | |- context [createVideoFromBatch ?fs ?x] =>
        destruct (createVideoFromBatch_dir fs x _ eq_refl) as (H1 & H2 & H3)
    end.
    split_and!; [done | done |]. rewrite H3.
    unfold deletions, occurrences. simpl.
    rewrite ?List.filter_app, ?length_app. simpl. lia.
  - unfold resumeCapturing, deletions, occurrences. simpl.
    rewrite ?List.filter_app, ?length_app. simpl.
    split_and!; [set_solver | set_solver | lia].
Qed.

(** Whether it completes or throws, the deletion loop touches no file
    outside [files]. *)
Lemma unlink_each_others files s f :
  f ∉ files → f ∈ dir (state_of (unlink_each files s)) ↔ f ∈ dir s.
Proof.
  revert s. induction files as [| g files IH]; intros s Hf; [done |].
  apply not_elem_of_cons in Hf as [Hne Hf]. simpl. unfold unlinkSync.
  case_decide; simpl; [| done]. rewrite IH by done. simpl. set_solver.
Qed.

Lemma createVideoFromBatch_end_others job s f :
  f ∉ ej_batchFiles job → f ≠ listFileName →
  f ∈ dir (state_of (createVideoFromBatch_end job s)) ↔ f ∈ dir s.
Proof.
  intros Hf Hne. unfold createVideoFromBatch_end.
  match goal with
  | |- context [unlink_each ?fs ?x] =>
      pose proof (unlink_each_others fs x f Hf) as Heach;
      destruct (unlink_each fs x) as [s1 | s1]
  end; simpl in *; [| done].
  unfold unlinkSync. case_decide; simpl; [| done].
  match goal with
  | |- context [processRemainingImages ?x] =>
      destruct (processRemainingImages_dir x _ eq_refl) as (H1 & H2 & _)
  end.
  simpl in *. set_solver.
Qed.

(** C3. In every reachable state, when an encode in flight ends: its
    batch is [TOTAL_CAPTURED_SS_COUNT] distinct frames among the M frames
    of the directory; the ['end'] callback deletes these and the manifest
    -- [TOTAL_CAPTURED_SS_COUNT + 1] deletions, after which M minus
    [TOTAL_CAPTURED_SS_COUNT] frames are left --, sets the counter to zero
    and clears the flag, and then runs the recovery scan, which deletes
    nothing; whatever the scan does next, every file other than the
    manifest is in the directory afterwards exactly if it was there
    before and is not in the batch. *)
Theorem C3_encode_success s j job :
  reachable s → encodes s !! j = Some job →
  let batch := ej_batchFiles job in
  let frames := jpg_sorted (elements (dir s)) in
  let s1 := after_encode j job s in
  length batch = TOTAL_CAPTURED_SS_COUNT ∧ NoDup batch ∧ batch ⊆ frames ∧
  TOTAL_CAPTURED_SS_COUNT ≤ length frames ∧ listFileName ∈ dir s ∧
  step s (EncodeEnd j) = Some (processRemainingImages s1) ∧
  dir s1 = dir s ∖ (list_to_set batch ∪ {[listFileName]}) ∧
  deletions s1 = deletions s + TOTAL_CAPTURED_SS_COUNT + 1 ∧
  length (jpg_sorted (elements (dir s1))) = length frames - TOTAL_CAPTURED_SS_COUNT ∧
  screenshotCount s1 = 0 ∧ isCreatingVideo s1 = false ∧
  hand_offs (state_of (processRemainingImages s1)) = S (hand_offs s) ∧
  deletions (state_of (processRemainingImages s1)) = deletions s1 ∧
  (∀ f, f ≠ listFileName →
     f ∈ dir (state_of (processRemainingImages s1)) ↔ f ∈ dir s ∧ f ∉ batch).
Proof.
  intros Hreach Hj batch frames s1.
  pose proof (invariant_reachable _ Hreach) as [Hinv _ _].
  assert (good_batch s job) as Hgood.
  { destruct (isCreatingVideo s); [| by rewrite Hinv in Hj].
    destruct Hinv as (j' & job' & Henc & Hgood).
    rewrite Henc in Hj. by apply lookup_singleton_Some in Hj as [-> ->]. }
  pose proof Hgood as (Hlen & Hnd & Hjpg & Hin & Hlist).
  rewrite Forall_forall in Hjpg.
  assert (batch ⊆ frames) as Hsub.
  { intros f Hf. apply elem_of_jpg_sorted. rewrite elem_of_elements. auto. }
  assert (frames ≡ₚ batch ++ jpg_sorted (elements (dir s1))) as Hperm.
  { apply NoDup_Permutation.
    - apply jpg_sorted_NoDup, NoDup_elements.
    - apply NoDup_app. split_and!; [done | | apply jpg_sorted_NoDup, NoDup_elements].
      intros f Hf. rewrite elem_of_jpg_sorted, elem_of_elements. simpl. set_solver.
    - intros f. unfold frames.
      rewrite elem_of_app, !elem_of_jpg_sorted, !elem_of_elements. simpl.
      split.
      + intros [Hf1 Hf2]. destruct (decide (f ∈ batch)); [by left | right].
        split; [done |]. apply elem_of_difference. split; [done |].
        intros [?%elem_of_list_to_set | ->%elem_of_singleton]%elem_of_union; [done |].
        by rewrite listFileName_not_jpg in Hf1.
      + intros [Hf | [Hf1 Hf2]]; [auto |]. split; [done | set_solver]. }
  apply Permutation_length in Hperm. rewrite length_app in Hperm. fold batch in Hlen.
  destruct (processRemainingImages_tally s1 _ eq_refl) as (_ & Hhand & _ & _).
  destruct (processRemainingImages_dir s1 _ eq_refl) as (Hd1 & Hd2 & Hdel).
  split_and!; try done.
  - lia.
  - simpl. rewrite Hj. simpl. f_equal. by apply createVideoFromBatch_end_good.
  - unfold deletions, occurrences, s1, after_encode. cbn [trace].
    rewrite !List.filter_app, !length_app. fold batch.
    assert (∀ l : list string,
              length (List.filter is_Unlink
                ((λ f, Unlink (path_join IMAGE_OUTPUT_DIR f)) <$> l)) = length l)
      as Hall by (induction l; simpl; auto).
    rewrite Hall. simpl. lia.
  - lia.
  - rewrite Hhand. unfold hand_offs, occurrences, s1, after_encode. cbn [trace].
    rewrite !List.filter_app, !length_app.
    assert (∀ l : list string,
              length (List.filter is_Readdir
                ((λ f, Unlink (path_join IMAGE_OUTPUT_DIR f)) <$> l)) = 0)
      as Hnone by (induction l; simpl; auto).
    rewrite Hnone. simpl. lia.
  - intros f Hne. simpl in Hd1, Hd2. set_solver.
Qed.

(** When an encode in flight fails, in any reachable state, the ['error']
    callback returns with the flag clear and no encode in flight, and the
    directory is exactly what it was: the frames of the batch and the
    manifest written for it are all still there. *)
Lemma failed_encode_leaves_manifest s j job message :
  reachable s → encodes s !! j = Some job →
  listFileName ∈ dir s ∧
  ∃ s', step s (EncodeError j message) = Some (Ok s') ∧
        isCreatingVideo s' = false ∧ encodes s' = ∅ ∧
        listFileName ∈ dir s' ∧ dir s' = dir s ∧
        deletions s' = deletions s.
Proof.
  intros Hreach Hj.
  pose proof (invariant_reachable _ Hreach) as [Hinv _ _].
  assert (encodes s = {[j := job]} ∧ good_batch s job) as [Henc Hgood].
  { destruct (isCreatingVideo s); [| by rewrite Hinv in Hj].
    destruct Hinv as (j' & job' & Henc & Hgood).
    rewrite Henc in Hj. by apply lookup_singleton_Some in Hj as [-> ->]. }
  destruct Hgood as (_ & _ & _ & _ & Hlist).
  split; [done |]. eexists. split_and!.
  - unfold step. rewrite Hj. reflexivity.
  - done.
  - simpl. rewrite Henc. apply delete_singleton_eq.
  - done.
  - done.
  - unfold deletions, occurrences, createVideoFromBatch_error, resumeCapturing.
    simpl. rewrite !List.filter_app, !length_app. simpl. lia.
Qed.

End Directory.

(** ** The batch and the name of the video *)

Section Batch.

Context `{RT : Runtime}.
Local Open Scope nat_scope.
Implicit Types (s : State) (r : Result) (files : list string) (f : string).

Lemma last_take_lookup files n name :
  0 < n → n ≤ length files →
  files !! (n - 1) = Some name → last (take n files) = Some name.
Proof.
  intros Hpos Hle Hname. rewrite last_lookup, length_take_le by done.
  rewrite lookup_take_lt by lia. by replace (Nat.pred n) with (n - 1) by lia.
Qed.

(** C4. Given frame names that are distinct and in increasing order, at
    least [TOTAL_CAPTURED_SS_COUNT] of them, the last of the first
    [TOTAL_CAPTURED_SS_COUNT] carrying a timestamp that [Date] parses to
    the time [lastImageTime]: [createVideoFromBatch] starts one encode
    whose batch is the first [TOTAL_CAPTURED_SS_COUNT] names -- each of
    them below every name left over --, writes the manifest listing the
    batch in order, and names the video [video-Y-MM-DD-HH-mm.mp4] after
    the year, month, day, hour and minute of [lastImageTime], without
    seconds.  It deletes nothing, and when that encode ends the names left
    over are still in the directory. *)
Theorem C4_batch_selection files s name timestampPart lastImageTime :
  isCreatingVideo s = false →
  StronglySorted name_lt files →
  Forall (λ f, JSString.endsWith f ".jpg" = true) files →
  TOTAL_CAPTURED_SS_COUNT ≤ length files →
  files !! (TOTAL_CAPTURED_SS_COUNT - 1) = Some name →
  match_screenshot name = Some timestampPart →
  Date_parse (restore_time_separators timestampPart) = Some lastImageTime →
  let batch := take TOTAL_CAPTURED_SS_COUNT files in
  let surplus := drop TOTAL_CAPTURED_SS_COUNT files in
  let videoFilePath :=
    path_join dirname
      ("video-" +:+
       JSString.of_Z (getFullYear lastImageTime) +:+ "-" +:+
       JSString.padStart 2 "0" (JSString.of_Z (getMonth lastImageTime + 1)) +:+ "-" +:+
       JSString.padStart 2 "0" (JSString.of_Z (getDate lastImageTime)) +:+ "-" +:+
       JSString.padStart 2 "0" (JSString.of_Z (getHours lastImageTime)) +:+ "-" +:+
       JSString.padStart 2 "0" (JSString.of_Z (getMinutes lastImageTime)) +:+
       ".mp4") in
  let job := {| ej_batchFiles := batch; ej_videoFilePath := videoFilePath |} in
  ∃ s', createVideoFromBatch files s = Ok s' ∧
    encodes s' = <[nextJob s := job]> (encodes s) ∧
    files = batch ++ surplus ∧
    length batch = TOTAL_CAPTURED_SS_COUNT ∧
    length surplus = length files - TOTAL_CAPTURED_SS_COUNT ∧
    (∀ a b, a ∈ batch → b ∈ surplus → name_lt a b) ∧
    last batch = Some name ∧
    trace s' = trace s ++
      [WriteFile listFilePath (JSString.join newline (listFileLine <$> batch));
       ConsoleLog ("Creating video from " +:+
                   JSString.of_nat TOTAL_CAPTURED_SS_COUNT +:+ " screenshots...");
       ConsoleLog ("Running ffmpeg with output file: " +:+ videoFilePath);
       RunEncode (nextJob s) listFilePath videoFilePath] ∧
    dir s' = {[listFileName]} ∪ dir s ∧
    (∀ r b, step s' (EncodeEnd (nextJob s)) = Some r → b ∈ surplus →
       b ∈ dir (state_of r) ↔ b ∈ dir s).
Proof.
  intros Hflag Hsorted Hjpg Hle Hname Hmatch Hparse batch surplus videoFilePath job.
  pose proof TOTAL_CAPTURED_SS_COUNT_eq as HN.
  assert (last batch = Some name) as Hlast by (apply last_take_lookup; [lia | done..]).
  assert (files = batch ++ surplus) as Hsplit by (symmetry; apply take_drop).
  assert (∀ a b, a ∈ batch → b ∈ surplus → name_lt a b) as Hlt.
  { intros a b Ha Hb. rewrite Hsplit in Hsorted.
    by apply (StronglySorted_app_1_elem_of _ _ _ _ _ Hsorted). }
  eexists. split_and!.
  - unfold createVideoFromBatch. rewrite Hflag.
    rewrite (proj2 (Nat.ltb_ge _ _)) by done.
    fold batch. rewrite Hlast, Hmatch, Hparse. reflexivity.
  - simpl. unfold job, videoFilePath, formatDate.
    by rewrite <- !string_app_assoc.
  - done.
  - by apply length_take_le.
  - apply length_drop.
  - done.
  - done.
  - simpl. unfold videoFilePath, formatDate.
    by rewrite <- !app_assoc, <- !string_app_assoc.
  - done.
  - intros r b Hstep Hb.
    erewrite step_EncodeEnd in Hstep by apply lookup_insert_eq.
    injection Hstep as <-.
    rewrite createVideoFromBatch_end_others; simpl.
    + assert (b ≠ listFileName); [| set_solver].
      intros ->. rewrite Forall_forall in Hjpg.
      assert (listFileName ∈ files) as Hin
        by (rewrite Hsplit; apply elem_of_app; by right).
      by apply Hjpg in Hin.
    + intros Hbatch. by destruct (Hlt b b Hbatch Hb).
    + intros ->. rewrite Forall_forall in Hjpg.
      assert (listFileName ∈ files) as Hin
        by (rewrite Hsplit; apply elem_of_app; by right).
      by apply Hjpg in Hin.
Qed.

(** C6. When the name of the last frame of the batch carries a
    timestamp but [Date] cannot parse it, [createVideoFromBatch] returns
    without an exception: it has deleted nothing -- the directory is what
    it was plus the manifest --, started no encode, cleared the flag and
    started an interval, so that ticks capture again; and a scan of the
    directory finds the same frames as before. *)
Theorem C6_unparseable_timestamp files s name timestampPart :
  isCreatingVideo s = false →
  TOTAL_CAPTURED_SS_COUNT ≤ length files →
  last (take TOTAL_CAPTURED_SS_COUNT files) = Some name →
  match_screenshot name = Some timestampPart →
  Date_parse (restore_time_separators timestampPart) = None →
  ∃ s', createVideoFromBatch files s = Ok s' ∧
    deletions s' = deletions s ∧
    dir s' = {[listFileName]} ∪ dir s ∧
    encodes s' = encodes s ∧
    encodes_started s' = encodes_started s ∧
    isCreatingVideo s' = false ∧
    captureInterval s' = Some (nextTimer s) ∧
    timers s' = {[nextTimer s]} ∪ timers s ∧
    (∀ now, step s' (Tick (nextTimer s) now) = Some (Ok (captureScreenshot now s'))) ∧
    jpg_sorted (elements (dir s')) = jpg_sorted (elements (dir s)).
Proof.
  intros Hflag Hle Hlast Hmatch Hparse.
  eexists. split_and!.
  - unfold createVideoFromBatch. rewrite Hflag.
    rewrite (proj2 (Nat.ltb_ge _ _)) by done.
    rewrite Hlast, Hmatch, Hparse. reflexivity.
  - unfold deletions, occurrences, resumeCapturing. simpl.
    rewrite !List.filter_app, !length_app. simpl. lia.
  - done.
  - done.
  - unfold encodes_started, occurrences, resumeCapturing. simpl.
    rewrite !List.filter_app, !length_app. simpl. lia.
  - done.
  - done.
  - done.
  - intros now. apply step_Tick. rewrite resumeCapturing_timers. set_solver.
  - apply jpg_sorted_ext. intros f Hf. simpl.
    assert (f ≠ listFileName) by (intros ->; by rewrite listFileName_not_jpg in Hf).
    set_solver.
Qed.

(** C10. The scan admits exactly the names of the directory that end in
    [.jpg]; [filelist.txt] is never among them, and whether it is in the
    directory or not makes no difference to what the scan finds, hence to
    the count; and in every reachable state the batch of an encode in
    flight consists of names ending in [.jpg], so it does not contain
    [filelist.txt], and the loop that deletes the batch leaves
    [filelist.txt] alone. *)
Theorem C10_manifest_is_no_frame s (d : gset string) :
  reachable s →
  (∀ f, f ∈ jpg_sorted (elements d) ↔ JSString.endsWith f ".jpg" = true ∧ f ∈ d) ∧
  (listFileName ∉ jpg_sorted (elements d)) ∧
  jpg_sorted (elements ({[listFileName]} ∪ d)) =
    jpg_sorted (elements (d ∖ {[listFileName]})) ∧
  length (jpg_sorted (elements ({[listFileName]} ∪ d))) =
    length (jpg_sorted (elements (d ∖ {[listFileName]}))) ∧
  (∀ j job, encodes s !! j = Some job →
     Forall (λ f, JSString.endsWith f ".jpg" = true) (ej_batchFiles job) ∧
     (listFileName ∉ ej_batchFiles job) ∧
     (∀ s1, listFileName ∈ dir (state_of (unlink_each (ej_batchFiles job) s1))
            ↔ listFileName ∈ dir s1)).
Proof.
  intros Hreach.
  assert (jpg_sorted (elements ({[listFileName]} ∪ d)) =
          jpg_sorted (elements (d ∖ {[listFileName]}))) as Hsame.
  { apply jpg_sorted_ext. intros f Hf.
    assert (f ≠ listFileName) by (intros ->; by rewrite listFileName_not_jpg in Hf).
    set_solver. }
  split_and!.
  - intros f. by rewrite elem_of_jpg_sorted, elem_of_elements.
  - rewrite elem_of_jpg_sorted. intros [Hjpg _].
    by rewrite listFileName_not_jpg in Hjpg.
  - done.
  - by rewrite Hsame.
  - intros j job Hj.
    pose proof (invariant_reachable _ Hreach) as [Hinv _ _].
    assert (good_batch s job) as (_ & _ & Hjpg & _ & _).
    { destruct (isCreatingVideo s); [| by rewrite Hinv in Hj].
      destruct Hinv as (j' & job' & Henc & Hgood).
      rewrite Henc in Hj. by apply lookup_singleton_Some in Hj as [-> ->]. }
    pose proof (listFileName_not_in_jpgs _ Hjpg) as Hnot.
    split_and!; [done | done |].
    intros s1. by apply unlink_each_others.
Qed.

End Batch.

(** ** The timestamp in a frame name *)

Section Timestamp.

Context `{RT : Runtime}.
Local Open Scope nat_scope.
Implicit Types (ts iso date : string) (a b c d e f g : ascii).

Lemma replace_colon_dot_app ts1 ts2 :
  replace_colon_dot (ts1 +:+ ts2) = replace_colon_dot ts1 +:+ replace_colon_dot ts2.
Proof.
  unfold replace_colon_dot. induction ts1 as [| x ts1 IH]; [done |].
  rewrite string_app_cons. simpl. by rewrite IH.
Qed.

Lemma digit_kept x :
  JSString.is_digit x = true →
  (if (Ascii.eqb x ":" || Ascii.eqb x ".")%bool then "-"%char else x) = x.
Proof.
  destruct x as [[] [] [] [] [] [] [] []]; vm_compute; done.
Qed.

Lemma digit_no_line_terminator x :
  JSString.is_digit x = true → JSString.is_line_terminator x = false.
Proof.
  destruct x as [[] [] [] [] [] [] [] []]; vm_compute; done.
Qed.

Lemma replace_colon_dot_suffix a b c d e f g :
  forallb JSString.is_digit [a; b; c; d; e; f; g] = true →
  replace_colon_dot (iso_time_suffix a b c d e f g) =
  String.string_of_list_ascii ["-"; a; b; "-"; c; d; "-"; e; f; g; "Z"]%char.
Proof.
  intros Hd. simpl in Hd.
  repeat (apply andb_prop in Hd as [?%digit_kept Hd]).
  unfold replace_colon_dot, iso_time_suffix. simpl. by repeat f_equal.
Qed.

Lemma forallb_string_app p (s1 s2 : string) :
  JSString.forallb p (s1 +:+ s2) = JSString.forallb p s1 && JSString.forallb p s2.
Proof.
  induction s1 as [| x s1 IH]; [done |].
  rewrite string_app_cons. simpl. by rewrite IH, andb_assoc.
Qed.

(** [restore_time_separators] undoes [replace_colon_dot] on the time of an
    ISO string whose date part has no colon and no period. *)
Lemma restore_after_replace date a b c d e f g :
  replace_colon_dot date = date →
  forallb JSString.is_digit [a; b; c; d; e; f; g] = true →
  restore_time_separators (replace_colon_dot (date +:+ iso_time_suffix a b c d e f g))
  = date +:+ iso_time_suffix a b c d e f g.
Proof.
  intros Hdate Hdigits.
  rewrite replace_colon_dot_app, Hdate, replace_colon_dot_suffix by done.
  unfold restore_time_separators.
  rewrite string_length_app. simpl String.length.
  rewrite (proj2 (Nat.leb_le 11 _)) by lia.
  replace (String.length date + 11 - 11) with (String.length date) by lia.
  rewrite (substring_app_drop date), (substring_app_take date). simpl.
  simpl in Hdigits. by rewrite Hdigits.
Qed.

Lemma match_screenshot_here_frame ts :
  ts ≠ "" →
  JSString.forallb (λ x, negb (JSString.is_line_terminator x)) ts = true →
  match_screenshot_here ("screenshot-" +:+ ts +:+ ".jpg") = Some ts.
Proof.
  intros Hne Hlt. unfold match_screenshot_here, JSString.startsWith.
  rewrite prefix_app.
  change 11 with (String.length "screenshot-").
  rewrite slice_from_app, endsWith_app, string_length_app.
  simpl String.length.
  assert (0 < String.length ts) by (destruct ts; [done | simpl; lia]).
  rewrite (proj2 (Nat.ltb_lt 4 _)) by lia.
  replace (String.length ts + 4 - 4) with (String.length ts) by lia.
  rewrite (substring_app_take ts). simpl. by rewrite Hlt.
Qed.

Lemma match_screenshot_frame ts :
  ts ≠ "" →
  JSString.forallb (λ x, negb (JSString.is_line_terminator x)) ts = true →
  match_screenshot ("screenshot-" +:+ ts +:+ ".jpg") = Some ts.
Proof.
  intros Hne Hlt. pose proof (match_screenshot_here_frame ts Hne Hlt) as Hhere.
  remember ("screenshot-" +:+ ts +:+ ".jpg") as name eqn:Hname.
  destruct name as [| x name].
  - by vm_compute in Hhere.
  - simpl. by rewrite Hhere.
Qed.

(** X1. The name [captureScreenshot] gives a frame yields, through lines 82
    to 86, the very string [toISOString] produced for it. *)
Lemma frame_timestamp_roundtrip now date a b c d e f g :
  Date_toISOString now = date +:+ iso_time_suffix a b c d e f g →
  replace_colon_dot date = date →
  JSString.forallb (λ x, negb (JSString.is_line_terminator x)) date = true →
  forallb JSString.is_digit [a; b; c; d; e; f; g] = true →
  ∃ timestampPart,
    match_screenshot (screenshotFileName now) = Some timestampPart ∧
    restore_time_separators timestampPart = Date_toISOString now.
Proof.
  intros Hiso Hdate Hlt Hdigits.
  exists (replace_colon_dot (Date_toISOString now)). split.
  - unfold screenshotFileName. apply match_screenshot_frame.
    + rewrite Hiso, replace_colon_dot_app, replace_colon_dot_suffix by done.
      by destruct (replace_colon_dot date).
    + rewrite Hiso, replace_colon_dot_app, Hdate, replace_colon_dot_suffix by done.
      rewrite forallb_string_app, Hlt.
      pose proof Hdigits as Hd. simpl in Hd.
      repeat (apply andb_prop in Hd as [?%digit_no_line_terminator Hd]).
      simpl.
      by repeat match goal with
                | H : JSString.is_line_terminator _ = false |- _ =>
                    rewrite H; clear H
                end.
  - rewrite Hiso. by apply restore_after_replace.
Qed.

End Timestamp.

(** ** The gate of a tick *)

Section TickGate.

Context `{RT : Runtime}.
Implicit Types (s : State) (r : Result) (files : list string) (e : Event).

Lemma createVideoFromBatch_lastCaptureTime files s :
  lastCaptureTime (state_of (createVideoFromBatch files s)) = lastCaptureTime s.
Proof. unfold createVideoFromBatch. by repeat case_match. Qed.

Lemma processRemainingImages_lastCaptureTime s :
  lastCaptureTime (state_of (processRemainingImages s)) = lastCaptureTime s.
Proof.
  unfold processRemainingImages. simpl. case_match; [| done].
  by rewrite createVideoFromBatch_lastCaptureTime.
Qed.

Lemma unlink_each_lastCaptureTime files s :
  lastCaptureTime (state_of (unlink_each files s)) = lastCaptureTime s.
Proof.
  revert s. induction files as [| f files IH]; intros s; [done |].
  simpl. unfold unlinkSync. case_decide; simpl; [| done]. by rewrite IH.
Qed.

Lemma createVideoFromBatch_end_lastCaptureTime job s :
  lastCaptureTime (state_of (createVideoFromBatch_end job s)) = lastCaptureTime s.
Proof.
  unfold createVideoFromBatch_end.
  match goal with
  | |- context [unlink_each ?fs ?x] =>
      pose proof (unlink_each_lastCaptureTime fs x) as Heach;
      destruct (unlink_each fs x) as [s1 | s1]
  end; simpl in *; [| done].
  unfold unlinkSync. case_decide; simpl; [| done].
  by rewrite processRemainingImages_lastCaptureTime.
Qed.

Lemma step_lastCaptureTime s e r :
  (∀ id now, e ≠ Tick id now) → step s e = Some r →
  lastCaptureTime (state_of r) = lastCaptureTime s.
Proof.
  intros Hne. destruct e as [id now | j | j msg | j cmd | j | j msg]; simpl.
  - by destruct (Hne id now).
  - destruct (captures s !! j) as [c |]; [simpl | done]. intros [= <-].
    unfold captureScreenshot_end. simpl. case_match; [| done].
    by rewrite processRemainingImages_lastCaptureTime.
  - destruct (captures s !! j); [simpl | done]. by intros [= <-].
  - destruct (encodes s !! j); [simpl | done]. by intros [= <-].
  - destruct (encodes s !! j); [simpl | done]. intros [= <-].
    by rewrite createVideoFromBatch_end_lastCaptureTime.
  - destruct (encodes s !! j); [simpl | done]. by intros [= <-].
Qed.

Lemma captureScreenshot_cases now s :
  (isCreatingVideo s = true ∨ now - lastCaptureTime s < SCREENSHOT_INTERVAL_MS) ∧
    captureScreenshot now s = s
  ∨
  (isCreatingVideo s = false ∧ SCREENSHOT_INTERVAL_MS ≤ now - lastCaptureTime s) ∧
    captureScreenshot now s =
      run_capture (screenshotFileName now) now (set_lastCaptureTime now s).
Proof.
  unfold captureScreenshot.
  destruct (isCreatingVideo s); simpl; [by left; auto |].
  destruct (Z.ltb_spec (now - lastCaptureTime s) SCREENSHOT_INTERVAL_MS);
    [left | right]; auto.
Qed.

Lemma run_lastCaptureTime events s s' :
  run s events = Some (Ok s') →
  lastCaptureTime s' = last_issued s events (lastCaptureTime s).
Proof.
  revert s. induction events as [| e events IH]; intros s; simpl.
  - by intros [= <-].
  - destruct (step s e) as [[s1 | s1] |] eqn:Hstep; [| by destruct events | done].
    intros Hrun. rewrite (IH _ Hrun). f_equal.
    assert ((∃ id now, e = Tick id now) ∨ (∀ id now, e ≠ Tick id now))
      as [(id & now & ->) | Hne] by (destruct e; eauto; by right).
    2: { rewrite <- (step_lastCaptureTime _ _ _ Hne Hstep).
         destruct e as [id now | | | | |]; try done. by destruct (Hne id now). }
    simpl in Hstep. case_decide; [| done]. injection Hstep as <-.
    destruct (captureScreenshot_cases now s) as [[_ ->] | [_ ->]].
    + rewrite bool_decide_false by lia. done.
    + by rewrite bool_decide_true.
Qed.

Lemma main_lastCaptureTime d s : main d = Ok s → lastCaptureTime s = 0.
Proof.
  unfold main, processImagesOnStartup.
  match goal with
  | |- context [processRemainingImages ?x] =>
      pose proof (processRemainingImages_lastCaptureTime x) as Hscan;
      destruct (processRemainingImages x) as [s1 | s1]
  end; simpl in *; [| done].
  by intros [= <-].
Qed.

(** C8, as the code has it.  In a state reached by [events] from a
    start-up, a tick changes nothing at all exactly when
    [isCreatingVideo] is set or less than [SCREENSHOT_INTERVAL_MS] has
    passed since the last tick that started a frame grab (since time 0 when
    none did) -- whether that frame grab succeeded or not; otherwise it
    sets [lastCaptureTime] to the current time and starts one frame grab,
    leaving the counter as it is.  The counter moves only when a frame
    grab ends: by one when it succeeded, not at all when it failed. *)
Theorem C8_tick_gate d s0 events s id now :
  main d = Ok s0 → run s0 events = Some (Ok s) → id ∈ timers s →
  lastCaptureTime s = last_issued s0 events 0 ∧
  step s (Tick id now) = Some (Ok (captureScreenshot now s)) ∧
  (captureScreenshot now s = s ↔
     isCreatingVideo s = true ∨
     now - last_issued s0 events 0 < SCREENSHOT_INTERVAL_MS) ∧
  (captureScreenshot now s ≠ s →
     lastCaptureTime (captureScreenshot now s) = now ∧
     captures (captureScreenshot now s) =
       <[nextJob s := {| cj_file := screenshotFileName now; cj_now := now |}]>
         (captures s) ∧
     trace (captureScreenshot now s) =
       trace s ++ [RunCapture (nextJob s)
                     (path_join IMAGE_OUTPUT_DIR (screenshotFileName now))] ∧
     screenshotCount (captureScreenshot now s) = screenshotCount s) ∧
  (∀ job message s', step s (CaptureError job message) = Some (Ok s') →
     screenshotCount s' = screenshotCount s) ∧
  (∀ job r, step s (CaptureEnd job) = Some r →
     screenshotCount (state_of r) = S (screenshotCount s)).
Proof.
  intros Hmain Hrun Hid.
  assert (lastCaptureTime s = last_issued s0 events 0) as Hlast.
  { rewrite (run_lastCaptureTime _ _ _ Hrun). f_equal.
    by apply (main_lastCaptureTime d). }
  rewrite <- Hlast. split_and!.
  - done.
  - by apply step_Tick.
  - destruct (captureScreenshot_cases now s) as [[Hc ->] | [[Hflag Hc] ->]].
    + done.
    + split.
      * intros Heq. apply (f_equal nextJob) in Heq. simpl in Heq. lia.
      * intros [Hf | Hlt]; [congruence | lia].
  - intros Hne.
    destruct (captureScreenshot_cases now s) as [[_ Heq] | [_ ->]]; [done |].
    done.
  - intros job message s' Hstep. simpl in Hstep.
    destruct (captures s !! job); [simpl in Hstep | done].
    by injection Hstep as <-.
  - intros job r Hstep. by apply step_CaptureEnd_tally in Hstep as [? _].
Qed.

End TickGate.

(** ** Start-up *)

Section StartUp.

Context `{RT : Runtime}.
Local Open Scope nat_scope.
Implicit Types (s : State) (r : Result) (files : list string) (d : gset string).

#[local] Instance name_lt_trans : Transitive name_lt.
Proof.
  intros a b c [Hab Hne] [Hbc Hne']. split; [by etrans |].
  intros ->. apply Hne. by apply (anti_symm String.le).
Qed.

Lemma increasing_StronglySorted files :
  increasing files = true → StronglySorted name_lt files.
Proof.
  intros Hinc. apply Sorted_StronglySorted; [apply _ |].
  induction files as [| a [| b rest] IH]; [constructor | repeat constructor |].
  simpl in Hinc. apply andb_prop in Hinc as [[Hle Hne]%andb_prop Hrest].
  constructor; [by apply IH |]. constructor. split.
  - unfold String.le. by rewrite Hle.
  - intros ->. by rewrite String.eqb_refl in Hne.
Qed.

Lemma StronglySorted_name_lt_NoDup files :
  StronglySorted name_lt files → NoDup files.
Proof.
  induction 1 as [| a files Hsorted IH Hall]; constructor; [| done].
  intros Hin. rewrite Forall_forall in Hall. by destruct (Hall a Hin).
Qed.

Lemma StronglySorted_name_lt_le files :
  StronglySorted name_lt files → Sorted String.le files.
Proof.
  intros Hs. apply StronglySorted_Sorted.
  induction Hs as [| a files Hsorted IH Hall]; constructor; [done |].
  eapply Forall_impl; [done |]. by intros b [? _].
Qed.

(** The scan of a directory that holds exactly the frames [files], given
    in increasing order, is [files]. *)
Lemma jpg_sorted_list_to_set files :
  StronglySorted name_lt files →
  Forall (λ f, JSString.endsWith f ".jpg" = true) files →
  jpg_sorted (elements (list_to_set files : gset string)) = files.
Proof.
  intros Hsorted Hjpg.
  apply (Sorted_unique String.le).
  - apply jpg_sorted_Sorted.
  - by apply StronglySorted_name_lt_le.
  - apply NoDup_Permutation.
    + apply jpg_sorted_NoDup, NoDup_elements.
    + by apply StronglySorted_name_lt_NoDup.
    + intros f. rewrite elem_of_jpg_sorted, elem_of_elements, elem_of_list_to_set.
      rewrite Forall_forall in Hjpg. naive_solver.
Qed.
Lemma main_few_frames d :
  length (jpg_sorted (elements d)) < TOTAL_CAPTURED_SS_COUNT →
  ∃ s, main d = Ok s ∧
    dir s = d ∧ deletions s = 0 ∧
    isCreatingVideo s = false ∧ encodes s = ∅ ∧ encodes_started s = 0 ∧
    screenshotCount s = 0 ∧
    timers s = {[0; 1]} ∧ captureInterval s = Some 1.
Proof.
  intros Hfew. eexists. split_and!.
  - unfold main, processImagesOnStartup, processRemainingImages. simpl.
    rewrite (proj2 (Nat.leb_gt _ _)) by done. reflexivity.
  - done.
  - done.
  - done.
  - done.
  - done.
  - done.
  - simpl. set_solver.
  - done.
Qed.

Lemma main_backlog d name timestampPart lastImageTime :
  TOTAL_CAPTURED_SS_COUNT ≤ length (jpg_sorted (elements d)) →
  last (take TOTAL_CAPTURED_SS_COUNT (jpg_sorted (elements d))) = Some name →
  match_screenshot name = Some timestampPart →
  Date_parse (restore_time_separators timestampPart) = Some lastImageTime →
  ∃ s, main d = Ok s ∧
    encodes s =
      {[0 := {| ej_batchFiles := take TOTAL_CAPTURED_SS_COUNT (jpg_sorted (elements d));
                ej_videoFilePath :=
                  path_join dirname ("video-" +:+ formatDate lastImageTime +:+ ".mp4") |}]} ∧
    isCreatingVideo s = true ∧ encodes_started s = 1 ∧
    dir s = {[listFileName]} ∪ d ∧ deletions s = 0 ∧
    screenshotCount s = 0 ∧
    timers s = {[0]} ∧ captureInterval s = Some 0.
Proof.
  intros Hle Hlast Hmatch Hparse. eexists. split_and!.
  - unfold main, processImagesOnStartup, processRemainingImages. simpl.
    rewrite (proj2 (Nat.leb_le _ _)) by done.
    unfold createVideoFromBatch. simpl.
    rewrite (proj2 (Nat.ltb_ge _ _)) by done.
    rewrite Hlast, Hmatch, Hparse. reflexivity.
  - done.
  - done.
  - done.
  - done.
  - done.
  - done.
  - simpl. set_solver.
  - done.
Qed.

Lemma main_throws d name :
  TOTAL_CAPTURED_SS_COUNT ≤ length (jpg_sorted (elements d)) →
  last (take TOTAL_CAPTURED_SS_COUNT (jpg_sorted (elements d))) = Some name →
  match_screenshot name = None →
  ∃ s, main d = Throw s ∧
    isCreatingVideo s = true ∧ encodes s = ∅ ∧ timers s = ∅ ∧
    dir s = {[listFileName]} ∪ d ∧ deletions s = 0.
Proof.
  intros Hle Hlast Hmatch. eexists. split_and!.
  - unfold main, processImagesOnStartup, processRemainingImages. simpl.
    rewrite (proj2 (Nat.leb_le _ _)) by done.
    unfold createVideoFromBatch. simpl.
    rewrite (proj2 (Nat.ltb_ge _ _)) by done.
    rewrite Hlast, Hmatch. reflexivity.
  - done.
  - done.
  - done.
  - done.
  - done.
Qed.
End StartUp.

(** ** The intervals that are active *)

Section Intervals.

Context `{RT : Runtime}.
Local Open Scope nat_scope.
Implicit Types (s : State) (r : Result) (files : list string) (e : Event).

(** What the synchronous part of an encode attempt does to the variables
    of the capture loop: either an encode is started and they are as
    before, or the attempt is given up and one interval is started. *)
Lemma createVideoFromBatch_control files s s' :
  isCreatingVideo s = false →
  createVideoFromBatch files s = Ok s' →
  captures s' = captures s ∧ lastCaptureTime s' = lastCaptureTime s ∧
  screenshotCount s' = screenshotCount s ∧
  ((isCreatingVideo s' = true ∧ timers s' = timers s ∧
    captureInterval s' = captureInterval s ∧ nextTimer s' = nextTimer s) ∨
   (isCreatingVideo s' = false ∧ timers s' = {[nextTimer s]} ∪ timers s ∧
    captureInterval s' = Some (nextTimer s) ∧ nextTimer s' = S (nextTimer s) ∧
    encodes s' = encodes s)).
Proof.
  intros Hflag. unfold createVideoFromBatch, resumeCapturing. rewrite Hflag.
  repeat case_match; try done; intros [= <-]; simpl; split_and!; auto.
  all: right; split_and!; auto.
Qed.

Lemma processRemainingImages_control s s' :
  isCreatingVideo s = false →
  processRemainingImages s = Ok s' →
  captures s' = captures s ∧ lastCaptureTime s' = lastCaptureTime s ∧
  screenshotCount s' = screenshotCount s ∧
  ((isCreatingVideo s' = true ∧ timers s' = timers s ∧
    captureInterval s' = captureInterval s ∧ nextTimer s' = nextTimer s) ∨
   (isCreatingVideo s' = false ∧ timers s' = {[nextTimer s]} ∪ timers s ∧
    captureInterval s' = Some (nextTimer s) ∧ nextTimer s' = S (nextTimer s) ∧
    encodes s' = encodes s)).
Proof.
  intros Hflag. unfold processRemainingImages. simpl.
  destruct (TOTAL_CAPTURED_SS_COUNT <=? _).
  - intros Hbatch. by apply createVideoFromBatch_control in Hbatch.
  - intros [= <-]. unfold resumeCapturing. simpl. split_and!; auto.
    right. split_and!; auto.
Qed.

(** The frames of an encode in flight are in the directory, so a scan
    finds at least [TOTAL_CAPTURED_SS_COUNT] of them. *)
Lemma good_batch_scan s job :
  good_batch s job →
  TOTAL_CAPTURED_SS_COUNT ≤ length (jpg_sorted (elements (dir s))).
Proof.
  intros (Hlen & Hnd & Hjpg & Hin & _). rewrite <- Hlen.
  apply submseteq_length, NoDup_submseteq; [done |].
  rewrite Forall_forall in Hjpg. intros f Hf.
  apply elem_of_jpg_sorted. rewrite elem_of_elements. auto.
Qed.

(** While an encode is in flight the scan finds its batch and leaves at
    once (line 63). *)
Lemma processRemainingImages_encoding s job :
  isCreatingVideo s = true → good_batch s job →
  ∃ msg, processRemainingImages s = Ok (emit (ConsoleLog msg) (emit Readdir s)).
Proof.
  intros Hflag Hgood%good_batch_scan. unfold processRemainingImages. simpl.
  rewrite (proj2 (Nat.leb_le _ _)) by done.
  rewrite createVideoFromBatch_busy by done. eauto.
Qed.

Lemma encoding_job s j job :
  invariant s → encodes s !! j = Some job →
  isCreatingVideo s = true ∧ encodes s = {[j := job]} ∧ good_batch s job.
Proof.
  intros [Hinv _ _] Hj.
  destruct (isCreatingVideo s); [| by rewrite Hinv in Hj].
  destruct Hinv as (j' & job' & Henc & Hgood).
  rewrite Henc in Hj. by apply lookup_singleton_Some in Hj as [-> ->].
Qed.

Lemma intervals_ok_step s e s' :
  invariant s → intervals_ok s → step s e = Some (Ok s') → intervals_ok s'.
Proof.
  intros Hinv Hio. pose proof Hio as [H0 (h & Hh & Hsub & Hlive & Hzero) Hbusy].
  assert (0 < nextTimer s) as Hnext by (by apply (inv_timers _ Hinv)).
  destruct e as [id now | j | j msg | j cmd | j | j msg]; simpl.
  - case_decide; [| done]. intros [= <-]. unfold captureScreenshot.
    destruct (isCreatingVideo s) eqn:Hflag; simpl; [done |].
    case_match; [done |].
    split; simpl; [done | | by rewrite Hflag].
    exists h. rewrite Hflag. split_and!; [done | done | done |].
    intros ->. by destruct Hzero.
  - destruct (captures s !! j) as [c |] eqn:Hc; [simpl | done].
    assert (h ≠ 0) as Hne.
    { intros ->. destruct Hzero as [_ Hnone]; [done |]. by rewrite Hnone in Hc. }
    unfold captureScreenshot_end. simpl.
    destruct (TOTAL_CAPTURED_SS_COUNT <=? _).
    + rewrite Hh. destruct (isCreatingVideo s) eqn:Hflag.
      * destruct Hinv as [Henc _ _]. rewrite Hflag in Henc.
        destruct Henc as (j' & job & _ & Hgood).
        intros [= Hscan].
        match type of Hscan with
        | processRemainingImages ?x = _ =>
            destruct (processRemainingImages_encoding x job) as [m Hm]
        end; [done | |].
        { eapply good_batch_dir_mono; [| done]. simpl. set_solver. }
        rewrite Hm in Hscan. injection Hscan as <-. split; simpl.
        -- set_solver.
        -- exists h. split_and!; [done | set_solver | congruence | done].
        -- intros _. specialize (Hbusy eq_refl). set_solver.
      * intros [= Hscan].
        apply processRemainingImages_control in Hscan
          as (_ & _ & _ & [(F & T & I & N) | (F & T & I & N & _)]); [| | done];
          simpl in T, I, N.
        -- split.
           ++ rewrite T. set_solver.
           ++ exists h. rewrite T, I, F. split_and!; [done | set_solver | done | done].
           ++ intros _. rewrite T. set_solver.
        -- split.
           ++ rewrite T. set_solver.
           ++ exists (nextTimer s). rewrite T, I, F.
              split_and!; [done | set_solver | set_solver | lia].
           ++ by rewrite F.
    + intros [= <-]. split; simpl; [done | | done].
      exists h. split_and!; done.
  - destruct (captures s !! j) as [c |] eqn:Hc; [simpl | done].
    assert (h ≠ 0) as Hne.
    { intros ->. destruct Hzero as [_ Hnone]; [done |]. by rewrite Hnone in Hc. }
    intros [= <-]. split; simpl; [done | | done].
    exists h. split_and!; done.
  - destruct (encodes s !! j); [simpl | done]. intros [= <-].
    split; simpl; [done | | done]. exists h. split_and!; done.
  - destruct (encodes s !! j) as [job |] eqn:Hj; [simpl | done].
    destruct (encoding_job _ _ _ Hinv Hj) as (Hflag & Henc & Hgood).
    rewrite createVideoFromBatch_end_good by done.
    intros [= Hscan].
    apply processRemainingImages_control in Hscan
      as (C & _ & _ & [(F & T & I & N) | (F & T & I & N & _)]); [| | done];
      simpl in C, T, I, N.
    + split.
      * by rewrite T.
      * exists h. rewrite T, I, F, C. split_and!; [done | done | done |].
        intros Hz. split; [done |]. by apply Hzero.
      * intros _. rewrite T. auto.
    + specialize (Hbusy Hflag). split.
      * rewrite T. set_solver.
      * exists (nextTimer s). rewrite T, I, F.
        split_and!; [done | set_solver | set_solver | lia].
      * by rewrite F.
  - destruct (encodes s !! j) as [job |] eqn:Hj; [simpl | done].
    destruct (encoding_job _ _ _ Hinv Hj) as (Hflag & Henc & Hgood).
    specialize (Hbusy Hflag).
    intros [= <-]. split; simpl.
    + set_solver.
    + exists (nextTimer s). split_and!; [done | set_solver | set_solver | lia].
    + done.
Qed.

Lemma intervals_ok_main d s : main d = Ok s → intervals_ok s.
Proof.
  unfold main, processImagesOnStartup.
  destruct (processRemainingImages _) as [s1 | s1] eqn:Hscan; [simpl | done].
  intros [= <-].
  apply processRemainingImages_control in Hscan
    as (C & _ & _ & [(F & T & I & N) | (F & T & I & N & _)]); [| | done];
    simpl in C, T, I, N; split; simpl; rewrite ?T, ?N, ?F, ?C.
  - set_solver.
  - exists 0. split_and!; [done | set_solver | done | done].
  - set_solver.
  - set_solver.
  - exists 1. split_and!; [done | set_solver | set_solver | done].
  - done.
Qed.

Lemma intervals_ok_run events s s' :
  invariant s → intervals_ok s → run s events = Some (Ok s') → intervals_ok s'.
Proof.
  revert s. induction events as [| e events IH]; intros s Hinv Hio; simpl.
  - by intros [= <-].
  - destruct (step s e) as [[s1 | s1] |] eqn:Hstep; [| by destruct events | done].
    apply IH; [by eapply invariant_step | by eapply intervals_ok_step].
Qed.

(** X2. In every state the program can be in, the first interval ever
    started (handle 0) is still active: no [clearInterval] stops it.
    Besides it only the interval whose handle [captureInterval] holds can
    be active, so at most two are; that one is active whenever no encode is
    in flight, and while one is in flight interval 0 is the only one. *)
Theorem first_interval_never_cleared s :
  reachable s →
  0 ∈ timers s ∧ size (timers s) ≤ 2 ∧
  ∃ h, captureInterval s = Some h ∧ timers s ⊆ {[0; h]} ∧
       (isCreatingVideo s = false → h ∈ timers s) ∧
       (isCreatingVideo s = true → timers s = {[0]}).
Proof.
  intros (d & s0 & events & Hmain & Hrun).
  assert (intervals_ok s) as [H0 (h & Hh & Hsub & Hlive & _) Hbusy].
  { eapply intervals_ok_run; [| | done].
    - by eapply invariant_main.
    - by eapply intervals_ok_main. }
  split; [done |]. split.
  - apply subseteq_size in Hsub.
    destruct (decide (h = 0)) as [-> | Hne].
    + replace ({[0; 0]} : gset nat) with ({[0]} : gset nat) in Hsub by set_solver.
      rewrite size_singleton in Hsub. lia.
    + rewrite size_union, !size_singleton in Hsub by set_solver. lia.
  - exists h. split_and!; auto. intros Hflag. specialize (Hbusy Hflag). set_solver.
Qed.

End Intervals.

(** ** The frame grabs in flight *)

Section Spacing.

Context `{RT : Runtime}.
Local Open Scope nat_scope.
Implicit Types (s : State) (r : Result) (files : list string) (e : Event).

Lemma createVideoFromBatch_captures files s r :
  createVideoFromBatch files s = r →
  captures (state_of r) = captures s ∧
  lastCaptureTime (state_of r) = lastCaptureTime s ∧
  nextJob s ≤ nextJob (state_of r).
Proof.
  intros <-. unfold createVideoFromBatch, resumeCapturing.
  repeat case_match; simpl; split_and!; auto.
Qed.

Lemma processRemainingImages_captures s r :
  processRemainingImages s = r →
  captures (state_of r) = captures s ∧
  lastCaptureTime (state_of r) = lastCaptureTime s ∧
  nextJob s ≤ nextJob (state_of r).
Proof.
  intros <-. unfold processRemainingImages. simpl.
  destruct (TOTAL_CAPTURED_SS_COUNT <=? _).
  - match goal with
    | |- context [createVideoFromBatch ?fs ?x] =>
        by destruct (createVideoFromBatch_captures fs x _ eq_refl) as (-> & -> & ?)
    end.
  - unfold resumeCapturing. simpl. auto.
Qed.

Lemma unlink_each_captures files s :
  captures (state_of (unlink_each files s)) = captures s ∧
  lastCaptureTime (state_of (unlink_each files s)) = lastCaptureTime s ∧
  nextJob (state_of (unlink_each files s)) = nextJob s.
Proof.
  revert s. induction files as [| f files IH]; intros s; [done |].
  simpl. unfold unlinkSync. case_decide; simpl; [| done].
  by destruct (IH (emit (Unlink (path_join IMAGE_OUTPUT_DIR f))
                        (set_dir (dir s ∖ {[f]}) s))) as (-> & -> & ->).
Qed.

Lemma createVideoFromBatch_end_captures job s :
  captures (state_of (createVideoFromBatch_end job s)) = captures s ∧
  lastCaptureTime (state_of (createVideoFromBatch_end job s)) = lastCaptureTime s ∧
  nextJob s ≤ nextJob (state_of (createVideoFromBatch_end job s)).
Proof.
  unfold createVideoFromBatch_end.
  match goal with
  | |- context [unlink_each ?fs ?x] =>
      pose proof (unlink_each_captures fs x) as (E1 & E2 & E3);
      destruct (unlink_each fs x) as [s1 | s1]
  end; simpl in *; [| rewrite E3; auto].
  unfold unlinkSync. case_decide; simpl; [| rewrite E3; auto].
  match goal with
  | |- context [processRemainingImages ?x] =>
      destruct (processRemainingImages_captures x _ eq_refl) as (-> & -> & ?)
  end.
  simpl in *. split_and!; [done | done | lia].
Qed.

Lemma captures_ok_frame s s' :
  captures s' = captures s → lastCaptureTime s' = lastCaptureTime s →
  nextJob s ≤ nextJob s' → captures_ok s → captures_ok s'.
Proof.
  intros Hc Hl Hn [H1 H2]. split; rewrite Hc, ?Hl.
  - intros j c Hj. destruct (H1 j c Hj) as (? & ? & ?). split_and!; [lia | done | done].
  - done.
Qed.

Lemma captures_ok_delete s s' j :
  captures s' = delete j (captures s) → lastCaptureTime s' = lastCaptureTime s →
  nextJob s ≤ nextJob s' → captures_ok s → captures_ok s'.
Proof.
  intros Hc Hl Hn [H1 H2]. split; rewrite Hc, ?Hl.
  - intros k c [_ Hk]%lookup_delete_Some.
    destruct (H1 k c Hk) as (? & ? & ?). split_and!; [lia | done | done].
  - intros j1 j2 c1 c2 [_ Hj1]%lookup_delete_Some [_ Hj2]%lookup_delete_Some.
    by apply H2.
Qed.

Lemma captures_ok_step s e s' :
  captures_ok s → step s e = Some (Ok s') → captures_ok s'.
Proof.
  intros Hok. destruct e as [id now | j | j msg | j cmd | j | j msg]; simpl.
  - case_decide; [| done]. intros [= <-]. unfold captureScreenshot.
    destruct (isCreatingVideo s); simpl; [done |].
    destruct (now - lastCaptureTime s <? SCREENSHOT_INTERVAL_MS)%Z eqn:Hgate; [done |].
    apply Z.ltb_ge in Hgate. destruct Hok as [H1 H2].
    assert (0 < SCREENSHOT_INTERVAL_MS)%Z as Hpos by done.
    split; simpl.
    + intros j c [[<- <-] | [Hne Hj]]%lookup_insert_Some; simpl.
      * split_and!; [lia | done | lia].
      * destruct (H1 j c Hj) as (? & ? & ?). split_and!; [lia | done | lia].
    + intros j1 j2 c1 c2 [[<- <-] | [Hne1 Hj1]]%lookup_insert_Some
        [[<- <-] | [Hne2 Hj2]]%lookup_insert_Some Hlt; simpl.
      * lia.
      * destruct (H1 j2 c2 Hj2) as (? & _). lia.
      * destruct (H1 j1 c1 Hj1) as (_ & _ & ?). lia.
      * by eapply H2.
  - destruct (captures s !! j) as [c |]; [simpl | done].
    unfold captureScreenshot_end. simpl.
    destruct (TOTAL_CAPTURED_SS_COUNT <=? _).
    + intros [= Hscan].
      destruct (processRemainingImages_captures _ _ Hscan) as (E1 & E2 & E3).
      simpl in E1, E2, E3. by eapply (captures_ok_delete s).
    + intros [= <-]. by eapply (captures_ok_delete s).
  - destruct (captures s !! j) as [c |]; [simpl | done]. intros [= <-].
    by eapply (captures_ok_delete s).
  - destruct (encodes s !! j); [simpl | done]. intros [= <-].
    by eapply (captures_ok_frame s).
  - destruct (encodes s !! j) as [job |]; [simpl | done]. intros [= Hend].
    match type of Hend with
    | createVideoFromBatch_end ?jb ?x = _ =>
        destruct (createVideoFromBatch_end_captures jb x) as (E1 & E2 & E3)
    end.
    rewrite Hend in E1, E2, E3. simpl in E1, E2, E3.
    by eapply (captures_ok_frame s).
  - destruct (encodes s !! j); [simpl | done]. intros [= <-].
    eapply (captures_ok_frame s); simpl; auto.
Qed.

Lemma captures_ok_main d s : main d = Ok s → captures_ok s.
Proof.
  unfold main, processImagesOnStartup.
  destruct (processRemainingImages _) as [s1 | s1] eqn:Hscan; [simpl | done].
  intros [= <-].
  destruct (processRemainingImages_captures _ _ Hscan) as (E1 & E2 & E3).
  simpl in E1, E2, E3. split; simpl; rewrite E1; intros *; by rewrite lookup_empty.
Qed.

Lemma captures_ok_run events s s' :
  captures_ok s → run s events = Some (Ok s') → captures_ok s'.
Proof.
  revert s. induction events as [| e events IH]; intros s Hok; simpl.
  - by intros [= <-].
  - destruct (step s e) as [[s1 | s1] |] eqn:Hstep; [| by destruct events | done].
    apply IH. by eapply captures_ok_step.
Qed.

(** X3. In every state the program can be in, each frame grab in flight
    writes to the file named after the time it was issued at, which is not
    after [lastCaptureTime]; and of two frame grabs in flight the later one
    was issued at least [SCREENSHOT_INTERVAL_MS] after the earlier one --
    however many intervals tick and whatever the clock says at a tick. *)
Theorem frame_grabs_are_spaced s :
  reachable s →
  (∀ j c, captures s !! j = Some c →
     cj_file c = screenshotFileName (cj_now c) ∧
     (cj_now c ≤ lastCaptureTime s)%Z) ∧
  (∀ j1 j2 c1 c2,
     captures s !! j1 = Some c1 → captures s !! j2 = Some c2 → j1 < j2 →
     (cj_now c1 + SCREENSHOT_INTERVAL_MS ≤ cj_now c2)%Z).
Proof.
  intros (d & s0 & events & Hmain & Hrun).
  assert (captures_ok s) as [H1 H2].
  { eapply captures_ok_run; [| done]. by eapply captures_ok_main. }
  split; [| done]. intros j c Hj. by destruct (H1 j c Hj) as (_ & ? & ?).
Qed.

End Spacing.

(** ** The order of the scan *)

Section ScanOrder.

Context `{RT : Runtime}.
Implicit Types (files : list string) (d : gset string).

Lemma StronglySorted_distinct files :
  StronglySorted String.le files → NoDup files → StronglySorted name_lt files.
Proof.
  induction 1 as [| f files Hsorted IH Hall]; intros Hnd; constructor.
  - apply IH. by apply NoDup_cons in Hnd as [_ ?].
  - apply NoDup_cons in Hnd as [Hf _].
    rewrite Forall_forall in *. intros g Hg. split; [by apply Hall |].
    by intros ->.
Qed.

(** X4. The list the recovery scan works on (line 141) holds exactly the
    names of the directory that end in [.jpg], each once, in strictly
    increasing order of [sort()]. *)
Theorem scan_strictly_increasing d :
  StronglySorted name_lt (jpg_sorted (elements d)) ∧
  NoDup (jpg_sorted (elements d)) ∧
  ∀ f, f ∈ jpg_sorted (elements d) ↔ f ∈ d ∧ JSString.endsWith f ".jpg" = true.
Proof.
  assert (NoDup (jpg_sorted (elements d))) as Hnd
    by apply jpg_sorted_NoDup, NoDup_elements.
  split_and!; [| done |].
  - apply StronglySorted_distinct; [| done].
    apply Sorted_StronglySorted; [apply _ | apply jpg_sorted_Sorted].
  - intros f. rewrite elem_of_jpg_sorted, elem_of_elements. tauto.
Qed.

End ScanOrder.

(** ** The expression of line 82 *)

Section Regex.

Context `{RT : Runtime}.
Local Open Scope nat_scope.
Implicit Types (a b c s t p g name pre : string) (x y : ascii).

Lemma substring_split n s :
  n ≤ String.length s →
  s = String.substring 0 n s +:+ String.substring n (String.length s - n) s.
Proof.
  revert n. induction s as [| x s IH]; intros n Hn; simpl in Hn.
  - by replace n with 0 by lia.
  - destruct n as [| n].
    + simpl. by rewrite substring_all.
    + simpl. rewrite string_app_cons. f_equal. apply IH. lia.
Qed.

Lemma prefix_split p s :
  String.prefix p s = true → s = p +:+ JSString.slice_from (String.length p) s.
Proof.
  revert s. induction p as [| x p IH]; intros s Hp.
  - unfold JSString.slice_from. simpl. by rewrite Nat.sub_0_r, substring_all.
  - destruct s as [| y s]; [done |]. simpl in Hp.
    destruct (ascii_dec x y) as [-> |]; [| done].
    rewrite string_app_cons. f_equal. by apply IH.
Qed.

Lemma endsWith_split s t :
  JSString.endsWith s t = true →
  s = String.substring 0 (String.length s - String.length t) s +:+ t.
Proof.
  unfold JSString.endsWith. intros [Hlen Heq]%andb_prop.
  apply Nat.leb_le in Hlen. apply String.eqb_eq in Heq.
  rewrite (substring_split (String.length s - String.length t) s) at 1 by lia.
  f_equal. rewrite <- Heq at 3. f_equal. lia.
Qed.

Lemma match_screenshot_unfold name :
  match_screenshot name =
  match match_screenshot_here name with
  | Some g => Some g
  | None => match name with
            | EmptyString => None
            | String _ name' => match_screenshot name'
            end
  end.
Proof. by destruct name. Qed.

Lemma match_screenshot_here_sound name g :
  match_screenshot_here name = Some g →
  name = "screenshot-" +:+ g +:+ ".jpg" ∧ dot_plus g.
Proof.
  unfold match_screenshot_here, JSString.startsWith.
  destruct (String.prefix _ name) eqn:Hp; [| done].
  apply prefix_split in Hp. simpl String.length in Hp.
  destruct (JSString.endsWith _ _ && _) eqn:Hend; [| done].
  apply andb_prop in Hend as [Hjpg Hlen].
  apply Nat.ltb_lt in Hlen. apply endsWith_split in Hjpg.
  simpl String.length in Hjpg.
  case_match eqn:Hlt; [| done]. intros [= Hg]. rewrite Hg in *.
  split; [by rewrite <- Hjpg | split; [| done]].
  intros ->. rewrite Hjpg in Hlen. simpl in Hlen. lia.
Qed.

Lemma match_screenshot_here_None name g :
  match_screenshot_here name = None → dot_plus g →
  name ≠ "screenshot-" +:+ g +:+ ".jpg".
Proof.
  intros Hnone [Hne Hlt] ->.
  by rewrite match_screenshot_here_frame in Hnone.
Qed.

(** X5. [name.match(/screenshot-(.+)\.jpg$/)] (line 82) is [null] exactly
    when [name] is not some prefix followed by [screenshot-], one or more
    characters other than line terminators, and [.jpg] at the very end;
    otherwise the capture group is what stands between [screenshot-] and
    the final [.jpg] at the leftmost place where this holds. *)
Theorem match_screenshot_spec name :
  match match_screenshot name with
  | Some g =>
      ∃ pre, name = pre +:+ "screenshot-" +:+ g +:+ ".jpg" ∧ dot_plus g ∧
             ∀ pre' g', name = pre' +:+ "screenshot-" +:+ g' +:+ ".jpg" →
                        dot_plus g' → String.length pre ≤ String.length pre'
  | None =>
      ∀ pre g, dot_plus g → name ≠ pre +:+ "screenshot-" +:+ g +:+ ".jpg"
  end.
Proof.
  induction name as [| x name IH]; rewrite match_screenshot_unfold.
  - destruct (match_screenshot_here "") as [g |] eqn:Hhere; [done |].
    intros pre g Hg Heq. by destruct pre.
  - destruct (match_screenshot_here (String x name)) as [g |] eqn:Hhere.
    + apply match_screenshot_here_sound in Hhere as [Hname Hg].
      exists "". split_and!; [done | done |]. intros. simpl. lia.
    + destruct (match_screenshot name) as [g |].
      * destruct IH as (pre & Hname & Hg & Hleft).
        exists (String x pre). split_and!; [by rewrite Hname | done |].
        intros [| y pre'] g' Heq Hg'.
        -- by apply match_screenshot_here_None with (g := g') in Hhere.
        -- rewrite string_app_cons in Heq. injection Heq as _ Heq.
           apply Hleft in Heq; [simpl; lia | done].
      * intros [| y pre] g Hg Heq.
        -- by apply match_screenshot_here_None with (g := g) in Hhere.
        -- rewrite string_app_cons in Heq. injection Heq as _ Heq.
           by apply IH in Heq.
Qed.

End Regex.

(** ** The name of the video *)

Section VideoName.

Context `{RT : Runtime}.
Local Open Scope Z_scope.

Lemma padStart_two_digits z :
  0 ≤ z < 100 → JSString.padStart 2 "0" (JSString.of_Z z) = two_digits z.
Proof.
  intros Hz.
  assert (List.forallb
            (λ n, String.eqb (JSString.padStart 2 "0" (JSString.of_Z (Z.of_nat n)))
                             (two_digits (Z.of_nat n)))
            (seq 0 100) = true) as Hall by (vm_compute; reflexivity).
  rewrite List.forallb_forall in Hall.
  specialize (Hall (Z.to_nat z)). rewrite Z2Nat.id in Hall by lia.
  apply String.eqb_eq, Hall, in_seq. lia.
Qed.

(** X6. For a date whose local month, day, hour and minute are in their
    ranges, [formatDate] (lines 129-131) gives the year as [String] writes
    it followed by four groups of a hyphen and exactly two decimal digits:
    the month counted from 1, the day, the hour, the minute -- twelve
    characters after the year, and no seconds. *)
Theorem formatDate_shape date :
  0 ≤ getMonth date < 12 → 1 ≤ getDate date ≤ 31 →
  0 ≤ getHours date < 24 → 0 ≤ getMinutes date < 60 →
  formatDate date =
    JSString.of_Z (getFullYear date) +:+ "-" +:+
    two_digits (getMonth date + 1) +:+ "-" +:+ two_digits (getDate date) +:+ "-" +:+
    two_digits (getHours date) +:+ "-" +:+ two_digits (getMinutes date) ∧
  String.length (formatDate date) =
    (String.length (JSString.of_Z (getFullYear date)) + 12)%nat.
Proof.
  intros Hm Hd Hh Hn.
  assert (formatDate date =
    JSString.of_Z (getFullYear date) +:+ "-" +:+
    two_digits (getMonth date + 1) +:+ "-" +:+ two_digits (getDate date) +:+ "-" +:+
    two_digits (getHours date) +:+ "-" +:+ two_digits (getMinutes date)) as Heq.
  { unfold formatDate. by rewrite !padStart_two_digits by lia. }
  split; [done |]. rewrite Heq, string_length_app. reflexivity.
Qed.

End VideoName.

(** ** A frame that is gone when the encode ends *)

Section MissingFrame.

Context `{RT : Runtime}.
Local Open Scope nat_scope.
Implicit Types (s : State) (files pre post : list string) (f : string).

Lemma unlink_each_app pre post s s1 :
  unlink_each pre s = Ok s1 →
  unlink_each (pre ++ post) s = unlink_each post s1.
Proof.
  revert s. induction pre as [| g pre IH]; intros s; simpl.
  - by intros [= <-].
  - destruct (unlinkSync g s) as [s2 | s2]; simpl; [apply IH | done].
Qed.

(** X7. When the encode ends and a frame of its batch is not in the
    directory (it is gone, or it stands a second time in the batch), the
    ['end'] callback (lines 113-120) throws out of the deletion loop: the
    frames before it are deleted, every other file -- the manifest
    included -- is kept, the counter and the flag are not reset, and the
    recovery scan does not run. *)
Theorem encode_end_throws_on_missing_frame job s pre f post :
  ej_batchFiles job = pre ++ f :: post →
  NoDup pre → (∀ g, g ∈ pre → g ∈ dir s) → f ∉ dir s ∖ list_to_set pre →
  ∃ s', createVideoFromBatch_end job s = Throw s' ∧
        dir s' = dir s ∖ list_to_set pre ∧
        deletions s' = deletions s + length pre ∧
        isCreatingVideo s' = isCreatingVideo s ∧
        screenshotCount s' = screenshotCount s ∧
        hand_offs s' = hand_offs s ∧ timers s' = timers s.
Proof.
  intros Hbatch Hnd Hin Hf. unfold createVideoFromBatch_end. rewrite Hbatch.
  set (s0 := emit (ConsoleLog ("Video created: " +:+ ej_videoFilePath job)) s).
  rewrite (unlink_each_app pre (f :: post) s0 (unlinked pre s0))
    by (by apply unlink_each_present).
  simpl. unfold unlinkSync. rewrite decide_False by done. simpl.
  eexists. split; [done |]. simpl.
  assert (∀ l : list string,
            length (List.filter is_Unlink
              ((λ f, Unlink (path_join IMAGE_OUTPUT_DIR f)) <$> l)) = length l)
    as Hall by (induction l; simpl; auto).
  assert (∀ l : list string,
            length (List.filter is_Readdir
              ((λ f, Unlink (path_join IMAGE_OUTPUT_DIR f)) <$> l)) = 0)
    as Hnone by (induction l; simpl; auto).
  unfold deletions, hand_offs, occurrences. simpl.
  rewrite !List.filter_app, !length_app, Hall, Hnone. simpl.
  split_and!; auto; lia.
Qed.

End MissingFrame.

(** ** An encode that fails *)

Section FailedEncode.

Context `{RT : Runtime}.
Local Open Scope nat_scope.
Implicit Types (s : State) (r : Result) (files : list string) (e : Event).

Lemma intervals_ok_reachable s : reachable s → intervals_ok s.
Proof.
  intros (d & s0 & events & Hmain & Hrun).
  eapply intervals_ok_run; [| | done].
  - by eapply invariant_main.
  - by eapply intervals_ok_main.
Qed.

(** X8. When an encode fails, in any state the program can be in, the
    ['error'] callback (lines 121-125) only reports it, clears the flag and
    starts a new interval: the directory -- the frames of the batch
    included -- is as before, the counter is not reset and the directory is
    not scanned again, so nothing retries the batch before the next
    hand-off. *)
Theorem failed_encode_is_not_retried s j job message :
  reachable s → encodes s !! j = Some job →
  ∃ s', step s (EncodeError j message) = Some (Ok s') ∧
        dir s' = dir s ∧ (∀ f, f ∈ ej_batchFiles job → f ∈ dir s') ∧
        screenshotCount s' = screenshotCount s ∧
        isCreatingVideo s' = false ∧ encodes s' = ∅ ∧
        captureInterval s' = Some (nextTimer s) ∧
        timers s' = {[0; nextTimer s]} ∧
        trace s' = trace s ++
          [ConsoleError ("Error creating video: " +:+ message);
           ConsoleLog "Resuming image capture...";
           SetInterval (nextTimer s)].
Proof.
  intros Hreach Hj.
  pose proof (invariant_reachable _ Hreach) as Hinv.
  pose proof (intervals_ok_reachable _ Hreach) as [H0 _ Hbusy].
  destruct (encoding_job _ _ _ Hinv Hj) as (Hflag & Henc & Hgood).
  specialize (Hbusy Hflag).
  destruct Hgood as (_ & _ & _ & Hin & _).
  eexists. split_and!.
  - unfold step. rewrite Hj. reflexivity.
  - done.
  - done.
  - done.
  - done.
  - simpl. rewrite Henc. apply delete_singleton_eq.
  - done.
  - simpl. set_solver.
  - simpl. by rewrite <- !app_assoc.
Qed.

End FailedEncode.

(** ** What deletes files *)

Section Deletions.

Context `{RT : Runtime}.
Local Open Scope nat_scope.
Implicit Types (s : State) (r : Result) (files : list string) (e : Event).

Lemma step_keeps_files s e r :
  is_reset e = false → step s e = Some r →
  dir s ⊆ dir (state_of r) ∧ deletions (state_of r) = deletions s.
Proof.
  intros Hreset.
  destruct e as [id now | j | j msg | j cmd | j | j msg]; simpl; try done.
  - case_decide; [| done]. intros [= <-]. unfold captureScreenshot.
    case_match; simpl; [done |]. split; [done |].
    unfold deletions, occurrences. simpl.
    rewrite List.filter_app, length_app. simpl. lia.
  - destruct (captures s !! j) as [c |]; [simpl | done]. intros [= <-].
    unfold captureScreenshot_end. simpl.
    destruct (TOTAL_CAPTURED_SS_COUNT <=? _).
    + match goal with
      | |- context [processRemainingImages ?x] =>
          destruct (processRemainingImages_dir x _ eq_refl) as (H1 & _ & ->)
      end.
      simpl in H1. split; [set_solver |].
      unfold deletions, occurrences. simpl.
      rewrite !List.filter_app, !length_app. simpl. lia.
    + simpl. split; [set_solver |].
      unfold deletions, occurrences. simpl.
      rewrite !List.filter_app, !length_app. simpl. lia.
  - destruct (captures s !! j); [simpl | done]. intros [= <-]. simpl.
    split; [done |]. unfold deletions, occurrences. simpl.
    rewrite !List.filter_app, !length_app. simpl. lia.
  - destruct (encodes s !! j); [simpl | done]. intros [= <-]. simpl.
    split; [done |]. unfold deletions, occurrences. simpl.
    rewrite !List.filter_app, !length_app. simpl. lia.
  - destruct (encodes s !! j); [simpl | done]. intros [= <-]. simpl.
    split; [done |]. unfold deletions, occurrences. simpl.
    rewrite !List.filter_app, !length_app. simpl. lia.
Qed.

(** X9. No file is deleted except by the ['end'] callback of an encode:
    over any events among which no encode ends, from any state, every file
    of the directory is still there afterwards and [fs.unlinkSync] has not
    been called. *)
Theorem only_encode_end_deletes s events r :
  Forall (λ e, is_reset e = false) events → run s events = Some r →
  dir s ⊆ dir (state_of r) ∧ deletions (state_of r) = deletions s.
Proof.
  revert s. induction events as [| e events IH]; intros s Hres Hrun.
  - by injection Hrun as <-.
  - apply Forall_cons in Hres as [He Hres].
    apply run_cons in Hrun as [(s1 & Hstep & Hrun) | (Hstep & _ & _)].
    + destruct (step_keeps_files _ _ _ He Hstep) as [Hd Hn].
      destruct (IH _ Hres Hrun) as [Hd' Hn']. simpl in Hd, Hn.
      split; [set_solver | lia].
    + by eapply step_keeps_files.
Qed.

End Deletions.

(** ** The shortfall branch *)

Section Shortfall.

Context `{RT : Runtime}.
Local Open Scope nat_scope.
Implicit Types (s : State) (r : Result) (files : list string) (e : Event).

Ltac count_reports :=
  unfold occurrences; simpl;
  rewrite ?List.filter_app, ?length_app; simpl; try lia.

Lemma createVideoFromBatch_no_shortfall files s r :
  TOTAL_CAPTURED_SS_COUNT ≤ length files →
  createVideoFromBatch files s = r →
  occurrences is_shortfall_report (state_of r) = occurrences is_shortfall_report s.
Proof.
  intros Hlen <-. unfold createVideoFromBatch, resumeCapturing.
  rewrite (proj2 (Nat.ltb_ge _ _)) by done.
  repeat case_match; count_reports.
Qed.

Lemma processRemainingImages_no_shortfall s r :
  processRemainingImages s = r →
  occurrences is_shortfall_report (state_of r) = occurrences is_shortfall_report s.
Proof.
  intros <-. unfold processRemainingImages. simpl.
  destruct (TOTAL_CAPTURED_SS_COUNT <=? _) eqn:Hlen.
  - apply Nat.leb_le in Hlen.
    erewrite createVideoFromBatch_no_shortfall; [| done | done]. count_reports.
  - unfold resumeCapturing. count_reports.
Qed.

Lemma unlink_each_no_shortfall files s :
  occurrences is_shortfall_report (state_of (unlink_each files s)) =
  occurrences is_shortfall_report s.
Proof.
  revert s. induction files as [| f files IH]; intros s; [done |].
  simpl. unfold unlinkSync. case_decide; simpl; [| done].
  rewrite IH. count_reports.
Qed.

Lemma createVideoFromBatch_end_no_shortfall job s :
  occurrences is_shortfall_report (state_of (createVideoFromBatch_end job s)) =
  occurrences is_shortfall_report s.
Proof.
  unfold createVideoFromBatch_end.
  match goal with
  | |- context [unlink_each ?fs ?x] =>
      pose proof (unlink_each_no_shortfall fs x) as Heach;
      destruct (unlink_each fs x) as [s1 | s1]
  end; simpl in *.
  - unfold unlinkSync. case_decide; simpl.
    + erewrite processRemainingImages_no_shortfall; [| done].
      revert Heach. count_reports.
    + revert Heach. count_reports.
  - revert Heach. count_reports.
Qed.

Lemma step_no_shortfall s e r :
  step s e = Some r →
  occurrences is_shortfall_report (state_of r) = occurrences is_shortfall_report s.
Proof.
  destruct e as [id now | j | j msg | j cmd | j | j msg]; simpl.
  - case_decide; [| done]. intros [= <-]. unfold captureScreenshot.
    case_match; count_reports.
  - destruct (captures s !! j) as [c |]; [simpl | done]. intros [= <-].
    unfold captureScreenshot_end. simpl.
    destruct (TOTAL_CAPTURED_SS_COUNT <=? _).
    + erewrite processRemainingImages_no_shortfall; [| done]. count_reports.
    + count_reports.
  - destruct (captures s !! j); [simpl | done]. intros [= <-]. count_reports.
  - destruct (encodes s !! j); [simpl | done]. intros [= <-]. count_reports.
  - destruct (encodes s !! j); [simpl | done]. intros [= <-].
    rewrite createVideoFromBatch_end_no_shortfall. count_reports.
  - destruct (encodes s !! j); [simpl | done]. intros [= <-].
    unfold resumeCapturing. count_reports.
Qed.

Lemma run_no_shortfall events s r :
  run s events = Some r →
  occurrences is_shortfall_report (state_of r) = occurrences is_shortfall_report s.
Proof.
  revert s. induction events as [| e events IH]; intros s Hrun.
  - by injection Hrun as <-.
  - apply run_cons in Hrun as [(s1 & Hstep & Hrun) | (Hstep & _ & _)].
    + rewrite (IH _ Hrun). by apply step_no_shortfall in Hstep.
    + by eapply step_no_shortfall.
Qed.

(** X10. The shortfall branch of [createVideoFromBatch] (lines 66-71) is
    never taken: the only caller passes a list of at least
    [TOTAL_CAPTURED_SS_COUNT] files (line 143), so in no run of the
    program -- whatever the start directory and the events, also when it
    ends in an exception -- is [Expected ... images, but found ...]
    reported. *)
Theorem shortfall_is_never_reported d s0 events r :
  main d = Ok s0 → run s0 events = Some r →
  occurrences is_shortfall_report (state_of r) = 0.
Proof.
  intros Hmain Hrun. rewrite (run_no_shortfall _ _ _ Hrun).
  revert Hmain. unfold main, processImagesOnStartup.
  destruct (processRemainingImages _) as [s1 | s1] eqn:Hscan; [simpl | done].
  intros [= <-]. apply processRemainingImages_no_shortfall in Hscan.
  simpl in Hscan. revert Hscan. count_reports.
Qed.

End Shortfall.

(** ** What the start-up does *)

Section StartUpRuns.

Context `{RT : Runtime}.
Local Open Scope nat_scope.
Implicit Types (s : State) (r : Result) (files : list string) (d : gset string).

Lemma captureScreenshot_busy now s :
  isCreatingVideo s = true → captureScreenshot now s = s.
Proof. intros Hflag. unfold captureScreenshot. by rewrite Hflag. Qed.

(** X11. Started on a directory with fewer than [TOTAL_CAPTURED_SS_COUNT]
    frames, lines 163 and 166 read the directory once, change no file and
    call [setInterval] twice: [resumeCapturing] starts interval 0 and line
    166 starts interval 1, whose handle alone is kept. *)
Theorem startup_with_few_frames d :
  length (jpg_sorted (elements d)) < TOTAL_CAPTURED_SS_COUNT →
  ∃ s, main d = Ok s ∧
    trace s = [ConsoleLog "Processing existing images on startup...";
               Readdir;
               ConsoleLog "Resuming image capture...";
               SetInterval 0; SetInterval 1] ∧
    dir s = d ∧ timers s = {[0; 1]} ∧ captureInterval s = Some 1 ∧
    isCreatingVideo s = false ∧ encodes s = ∅ ∧ captures s = ∅ ∧
    screenshotCount s = 0.
Proof.
  intros Hfew. eexists. split_and!.
  - unfold main, processImagesOnStartup, processRemainingImages. simpl.
    rewrite (proj2 (Nat.leb_gt _ _)) by done. reflexivity.
  - done.
  - done.
  - simpl. set_solver.
  - done.
  - done.
  - done.
  - done.
  - done.
Qed.

(** X12. Started on a directory with at least [TOTAL_CAPTURED_SS_COUNT]
    frames of which the [TOTAL_CAPTURED_SS_COUNT]-th carries a date, the
    program writes the manifest of the first [TOTAL_CAPTURED_SS_COUNT]
    frames, starts one encode of them and then one interval; the flag is
    set, so each tick of that interval does nothing until the encode is
    over. *)
Theorem startup_with_backlog d name timestampPart lastImageTime :
  let files := jpg_sorted (elements d) in
  let batch := take TOTAL_CAPTURED_SS_COUNT files in
  let video := path_join dirname ("video-" +:+ formatDate lastImageTime +:+ ".mp4") in
  TOTAL_CAPTURED_SS_COUNT ≤ length files →
  last batch = Some name →
  match_screenshot name = Some timestampPart →
  Date_parse (restore_time_separators timestampPart) = Some lastImageTime →
  ∃ s, main d = Ok s ∧
    trace s = [ConsoleLog "Processing existing images on startup...";
               Readdir;
               ConsoleLog ("Processing batch of " +:+
                           JSString.of_nat (length files) +:+ " images...");
               WriteFile listFilePath
                 (JSString.join newline (listFileLine <$> batch));
               ConsoleLog ("Creating video from " +:+
                           JSString.of_nat TOTAL_CAPTURED_SS_COUNT +:+
                           " screenshots...");
               ConsoleLog ("Running ffmpeg with output file: " +:+ video);
               RunEncode 0 listFilePath video;
               SetInterval 0] ∧
    encodes s = {[0 := {| ej_batchFiles := batch; ej_videoFilePath := video |}]} ∧
    isCreatingVideo s = true ∧ dir s = {[listFileName]} ∪ d ∧
    timers s = {[0]} ∧ captureInterval s = Some 0 ∧ captures s = ∅ ∧
    ∀ now, step s (Tick 0 now) = Some (Ok s).
Proof.
  intros files batch video Hle Hlast Hmatch Hparse. eexists. split_and!.
  - unfold main, processImagesOnStartup, processRemainingImages. simpl.
    fold files. rewrite (proj2 (Nat.leb_le _ _)) by done.
    unfold createVideoFromBatch. simpl.
    rewrite (proj2 (Nat.ltb_ge _ _)) by done. fold batch.
    rewrite Hlast, Hmatch, Hparse. reflexivity.
  - done.
  - done.
  - done.
  - done.
  - simpl. set_solver.
  - done.
  - done.
  - intros now. rewrite step_Tick by (simpl; set_solver).
    by rewrite captureScreenshot_busy.
Qed.

(** X13. Started on a directory whose [TOTAL_CAPTURED_SS_COUNT]-th frame
    name does not match [/screenshot-(.+)\.jpg$/], the program throws on
    line 82 during line 163: the manifest is already written, the flag is
    left set, and no interval was ever started -- line 166 is not
    reached. *)
Theorem startup_throws_on_unmatched_name d name :
  let files := jpg_sorted (elements d) in
  TOTAL_CAPTURED_SS_COUNT ≤ length files →
  last (take TOTAL_CAPTURED_SS_COUNT files) = Some name →
  match_screenshot name = None →
  ∃ s, main d = Throw s ∧
    trace s = [ConsoleLog "Processing existing images on startup...";
               Readdir;
               ConsoleLog ("Processing batch of " +:+
                           JSString.of_nat (length files) +:+ " images...");
               WriteFile listFilePath
                 (JSString.join newline
                    (listFileLine <$> take TOTAL_CAPTURED_SS_COUNT files))] ∧
    isCreatingVideo s = true ∧ encodes s = ∅ ∧
    timers s = ∅ ∧ captureInterval s = None ∧
    dir s = {[listFileName]} ∪ d.
Proof.
  intros files Hle Hlast Hmatch. eexists. split_and!.
  - unfold main, processImagesOnStartup, processRemainingImages. simpl.
    fold files. rewrite (proj2 (Nat.leb_le _ _)) by done.
    unfold createVideoFromBatch. simpl.
    rewrite (proj2 (Nat.ltb_ge _ _)) by done.
    rewrite Hlast, Hmatch. reflexivity.
  - done.
  - done.
  - done.
  - done.
  - done.
  - done.
Qed.

(** X14. Whatever the directory holds, and also when it throws, the
    start-up deletes nothing: every file is still there afterwards, the
    manifest is the only file it can add, and no frame grab is issued. *)
Theorem startup_deletes_nothing d :
  deletions (state_of (main d)) = 0 ∧
  d ⊆ dir (state_of (main d)) ∧
  dir (state_of (main d)) ⊆ {[listFileName]} ∪ d ∧
  captures (state_of (main d)) = ∅ ∧
  hand_offs (state_of (main d)) = 1.
Proof.
  unfold main, processImagesOnStartup.
  match goal with
  | |- context [processRemainingImages ?x] =>
      destruct (processRemainingImages_dir x _ eq_refl) as (H1 & H2 & H3);
      destruct (processRemainingImages_tally x _ eq_refl) as (_ & H4 & _);
      assert (captures (state_of (processRemainingImages x)) = ∅) as H5
  end.
  { unfold processRemainingImages, createVideoFromBatch, resumeCapturing. simpl.
    by repeat case_match. }
  destruct (processRemainingImages _) as [s1 | s1]; simpl in *.
  - split_and!; [| done | done | done |].
    + revert H3. unfold deletions, occurrences. simpl.
      rewrite !List.filter_app, !length_app. simpl. lia.
    + revert H4. unfold hand_offs, occurrences. simpl.
      rewrite !List.filter_app, !length_app. simpl. lia.
  - split_and!; [| done | done | done |].
    + revert H3. unfold deletions, occurrences. simpl. lia.
    + revert H4. unfold hand_offs, occurrences. simpl. lia.
Qed.

End StartUpRuns.

(** ** After an encode *)

Section NextBatch.

Context `{RT : Runtime}.
Local Open Scope nat_scope.
Implicit Types (s : State) (r : Result) (files : list string) (f : string).

(** X15. [createVideoFromBatch] called, with the flag clear, on fewer than
    [TOTAL_CAPTURED_SS_COUNT] files (lines 66-71) reports the shortfall
    once and gives up: no manifest is written, no encode is started, the
    flag is clear again and one interval is started. *)
Theorem shortfall_aborts files s :
  isCreatingVideo s = false → length files < TOTAL_CAPTURED_SS_COUNT →
  ∃ s', createVideoFromBatch files s = Ok s' ∧
        occurrences is_shortfall_report s' = S (occurrences is_shortfall_report s) ∧
        dir s' = dir s ∧ encodes s' = encodes s ∧
        encodes_started s' = encodes_started s ∧
        isCreatingVideo s' = false ∧
        timers s' = {[nextTimer s]} ∪ timers s ∧
        captureInterval s' = Some (nextTimer s).
Proof.
  intros Hflag Hlen. eexists. split_and!.
  - unfold createVideoFromBatch. rewrite Hflag.
    rewrite (proj2 (Nat.ltb_lt _ _)) by done. reflexivity.
  - unfold occurrences, resumeCapturing. simpl.
    rewrite !List.filter_app, !length_app. simpl.
    match goal with
    | |- context [String.prefix "" ?x] => change (String.prefix "" x) with true
    end.
    simpl. lia.
  - done.
  - done.
  - unfold encodes_started, occurrences, resumeCapturing. simpl.
    rewrite !List.filter_app, !length_app. simpl. lia.
  - done.
  - done.
  - done.
Qed.

Lemma createVideoFromBatch_batch files s s' :
  isCreatingVideo s = false → encodes s = ∅ →
  createVideoFromBatch files s = Ok s' → isCreatingVideo s' = true →
  ∃ job, encodes s' = {[nextJob s := job]} ∧
         ej_batchFiles job = take TOTAL_CAPTURED_SS_COUNT files ∧
         timers s' = timers s ∧ screenshotCount s' = screenshotCount s.
Proof.
  intros Hflag Henc. unfold createVideoFromBatch, resumeCapturing. rewrite Hflag.
  repeat case_match; try done; intros [= <-]; simpl; try done.
  intros _. rewrite Henc. eexists. split_and!; done.
Qed.

(** X16. When an encode ends, in any state the program can be in, what
    follows depends on the frames left once its batch and the manifest are
    deleted.  Fewer than [TOTAL_CAPTURED_SS_COUNT]: capturing is resumed
    with a new interval beside interval 0, the counter is zero and no
    encode is in flight.  Otherwise, if an encode is started, its batch is
    the first [TOTAL_CAPTURED_SS_COUNT] of the frames left: frames that
    were already there and of which none was in the batch just encoded. *)
Theorem encode_end_continues s j job :
  let rest := jpg_sorted (elements
                (dir s ∖ (list_to_set (ej_batchFiles job) ∪ {[listFileName]}))) in
  reachable s → encodes s !! j = Some job →
  ∃ r, step s (EncodeEnd j) = Some r ∧
    (length rest < TOTAL_CAPTURED_SS_COUNT →
       ∃ s', r = Ok s' ∧ encodes s' = ∅ ∧ isCreatingVideo s' = false ∧
             screenshotCount s' = 0 ∧
             captureInterval s' = Some (nextTimer s) ∧
             timers s' = {[0; nextTimer s]} ∧
             dir s' = dir s ∖ (list_to_set (ej_batchFiles job) ∪ {[listFileName]})) ∧
    (TOTAL_CAPTURED_SS_COUNT ≤ length rest →
       ∀ s', r = Ok s' → isCreatingVideo s' = true →
         ∃ job', encodes s' = {[nextJob s := job']} ∧
                 ej_batchFiles job' = take TOTAL_CAPTURED_SS_COUNT rest ∧
                 (∀ f, f ∈ ej_batchFiles job' →
                       f ∈ dir s ∧ f ∉ ej_batchFiles job) ∧
                 timers s' = {[0]} ∧ screenshotCount s' = 0).
Proof.
  intros rest Hreach Hj.
  pose proof (invariant_reachable _ Hreach) as Hinv.
  pose proof (intervals_ok_reachable _ Hreach) as [H0 _ Hbusy].
  destruct (encoding_job _ _ _ Hinv Hj) as (Hflag & Henc & Hgood).
  specialize (Hbusy Hflag).
  assert (timers s = {[0]}) as Htimers by set_solver.
  exists (processRemainingImages (after_encode j job s)). split.
  { rewrite (step_EncodeEnd _ _ _ Hj).
    by rewrite createVideoFromBatch_end_good. }
  unfold processRemainingImages. simpl. fold rest. split.
  - intros Hfew. rewrite (proj2 (Nat.leb_gt _ _)) by done.
    eexists. split; [done |]. simpl.
    split_and!; try done.
    + rewrite Henc. apply delete_singleton_eq.
    + rewrite Htimers. set_solver.
  - intros Hmany. rewrite (proj2 (Nat.leb_le _ _)) by done.
    intros s' Hbatch Hset.
    apply createVideoFromBatch_batch in Hbatch as (job' & E1 & E2 & E3 & E4);
      [| done | simpl; rewrite Henc; apply delete_singleton_eq | done].
    simpl in E1, E3, E4. exists job'. split_and!; [done | done | | by rewrite E3 | done].
    intros f Hf. rewrite E2 in Hf. apply subseteq_take in Hf.
    apply elem_of_jpg_sorted in Hf as [_ Hf%elem_of_elements].
    set_solver.
Qed.

(** The frames left of a directory that held exactly the frames [frames]
    and the manifest, once a batch of its first [n] frames is deleted. *)
Lemma scan_after_batch (frames : list string) (n : nat) s job :
  StronglySorted name_lt frames →
  Forall (λ f, JSString.endsWith f ".jpg" = true) frames →
  dir s = {[listFileName]} ∪ list_to_set frames →
  ej_batchFiles job = take n frames →
  jpg_sorted (elements
    (dir s ∖ (list_to_set (ej_batchFiles job) ∪ {[listFileName]}))) = drop n frames.
Proof.
  intros Hsorted Hjpg -> ->.
  rewrite <- (jpg_sorted_list_to_set (drop n frames)).
  - apply jpg_sorted_ext. intros f Hf.
    pose proof (StronglySorted_name_lt_NoDup _ Hsorted) as Hnd.
    rewrite <- (take_drop n frames) in Hnd.
    apply NoDup_app in Hnd as (_ & Hdisjoint & _).
    rewrite <- (take_drop n frames) at 1. rewrite list_to_set_app. split.
    + intros [[Hl | [Ht | Hd]%elem_of_union]%elem_of_union Hnot]%elem_of_difference.
      * exfalso. apply Hnot. apply elem_of_union_r. exact Hl.
      * exfalso. apply Hnot. apply elem_of_union_l. exact Ht.
      * exact Hd.
    + intros Hd. apply elem_of_difference. split.
      * apply elem_of_union_r, elem_of_union_r. exact Hd.
      * intros [Ht%elem_of_list_to_set | Hl%elem_of_singleton]%elem_of_union.
        -- apply elem_of_list_to_set in Hd. exact (Hdisjoint f Ht Hd).
        -- rewrite Hl, listFileName_not_jpg in Hf. discriminate Hf.
  - rewrite <- (take_drop n frames) in Hsorted.
    by apply StronglySorted_app_1_r in Hsorted.
  - by apply Forall_drop.
Qed.

(** When fewer than [TOTAL_CAPTURED_SS_COUNT] frames are left, the
    ['end'] callback of the encode returns. *)
Lemma encode_end_resumes s j job :
  reachable s → encodes s !! j = Some job →
  length (jpg_sorted (elements
    (dir s ∖ (list_to_set (ej_batchFiles job) ∪ {[listFileName]}))))
    < TOTAL_CAPTURED_SS_COUNT →
  ∃ s', step s (EncodeEnd j) = Some (Ok s').
Proof.
  intros Hreach Hj Hfew.
  pose proof (invariant_reachable _ Hreach) as Hinv.
  destruct (encoding_job _ _ _ Hinv Hj) as (Hflag & Henc & Hgood).
  rewrite (step_EncodeEnd _ _ _ Hj), createVideoFromBatch_end_good by done.
  unfold processRemainingImages. simpl.
  rewrite (proj2 (Nat.leb_gt _ _)) by done. eauto.
Qed.

End NextBatch.

(** ** [getTimestamp] *)

Section GetTimestamp.

Context `{RT : Runtime}.
Local Open Scope nat_scope.
Implicit Types (a b s t : string) (c x : ascii).

Lemma split_cons c s : ∃ first rest, JSString.split c s = first :: rest.
Proof.
  induction s as [| x s (first & rest & IH)]; simpl; [eauto |].
  destruct (Ascii.eqb x c); [eauto |]. rewrite IH. eauto.
Qed.

(** Up to the first separator, [split] cuts nothing. *)
Lemma split_app c a b :
  without c a →
  JSString.split c (a +:+ String c "" +:+ b) = a :: JSString.split c b.
Proof.
  unfold without. induction a as [| x a IH]; intros Ha; simpl.
  - by rewrite Ascii.eqb_refl.
  - simpl in Ha. apply andb_prop in Ha as [Hx Ha].
    apply negb_true_iff in Hx. rewrite Hx, IH by done. done.
Qed.

Lemma split_hd_app c a b :
  without c a →
  hd "" (JSString.split c (a +:+ b)) = a +:+ hd "" (JSString.split c b).
Proof.
  unfold without. induction a as [| x a IH]; intros Ha; simpl; [done |].
  simpl in Ha. apply andb_prop in Ha as [Hx Ha].
  apply negb_true_iff in Hx. rewrite Hx.
  specialize (IH Ha). destruct (split_cons c (a +:+ b)) as (first & rest & Heq).
  rewrite Heq in *. simpl in *. by rewrite IH.
Qed.

Lemma without_app c a b : without c a → without c b → without c (a +:+ b).
Proof.
  unfold without. intros Ha Hb. by rewrite forallb_string_app, Ha, Hb.
Qed.

(** X17. When [toISOString] gives a date, [T] and more, and [toTimeString]
    gives hours, [:], minutes, [:] and more, [getTimestamp] (lines 26-30)
    is the date, [_], the hours, [_] and the minutes: the ISO date, which
    is in UTC, next to the local time of day, with the seconds and all that
    follows them cut off. *)
Theorem getTimestamp_shape toTimeString date datePart more hh mm tail :
  Date_toISOString date = datePart +:+ "T" +:+ more →
  without "T" datePart →
  toTimeString date = hh +:+ ":" +:+ mm +:+ ":" +:+ tail →
  without ":" hh → without " " hh → without ":" mm → without " " mm →
  getTimestamp toTimeString date = datePart +:+ "_" +:+ hh +:+ "_" +:+ mm.
Proof.
  intros Hiso Hdate Htime Hh1 Hh2 Hm1 Hm2. unfold getTimestamp.
  rewrite Hiso, Htime, (split_app "T" datePart more Hdate). simpl hd.
  replace (hh +:+ ":" +:+ mm +:+ ":" +:+ tail)
    with ((hh +:+ ":" +:+ mm +:+ ":") +:+ tail)
    by (by rewrite !string_app_assoc).
  rewrite (split_hd_app " " (hh +:+ ":" +:+ mm +:+ ":"))
    by (repeat apply without_app; done).
  rewrite !string_app_assoc.
  rewrite (split_app ":" hh _ Hh1), (split_app ":" mm _ Hm1).
  destruct (split_cons ":" (hd "" (JSString.split " " tail)))
    as (first & rest & ->).
  reflexivity.
Qed.

End GetTimestamp.

(** ** The name of a frame *)

Section FrameName.

Context `{RT : Runtime}.
Local Open Scope nat_scope.
Implicit Types (s : State) (r : Result) (ts : string).

Lemma replace_colon_dot_without iso :
  without ":" (replace_colon_dot iso) ∧ without "." (replace_colon_dot iso).
Proof.
  unfold without, replace_colon_dot.
  induction iso as [| x iso [IH1 IH2]]; [done |]. simpl.
  rewrite IH1, IH2.
  destruct (Ascii.eqb x ":") eqn:E1; [done |].
  destruct (Ascii.eqb x ".") eqn:E2; [done |]. simpl.
  by rewrite E1, E2.
Qed.

Lemma screenshotFileName_jpg now :
  JSString.endsWith (screenshotFileName now) ".jpg" = true.
Proof.
  unfold screenshotFileName. rewrite <- string_app_assoc. apply endsWith_app.
Qed.

(** X18. The name [captureScreenshot] gives a frame (lines 39-40) is
    [screenshot-], a stem and [.jpg], and neither [screenshot-] nor the
    stem holds a colon or a period: whatever [toISOString] returns, the
    name ends in [.jpg], its only period is that of the extension, and it
    is not the name of the manifest. *)
Theorem frame_name_shape now :
  ∃ stem, screenshotFileName now = "screenshot-" +:+ stem +:+ ".jpg" ∧
          without ":" stem ∧ without "." stem ∧
          JSString.endsWith (screenshotFileName now) ".jpg" = true ∧
          screenshotFileName now ≠ listFileName.
Proof.
  exists (replace_colon_dot (Date_toISOString now)).
  destruct (replace_colon_dot_without (Date_toISOString now)) as [H1 H2].
  split_and!; [done | done | done | apply screenshotFileName_jpg |].
  unfold screenshotFileName. done.
Qed.

Lemma captures_ok_reachable s : reachable s → captures_ok s.
Proof.
  intros (d & s0 & events & Hmain & Hrun).
  eapply captures_ok_run; [| done]. by eapply captures_ok_main.
Qed.

(** X19. When a frame grab succeeds, in any state the program can be in,
    the file it wrote is in the directory after the ['end'] callback
    (lines 46-54), under the name made for it on lines 39-40, and a scan
    of the directory lists it among the frames. *)
Theorem grabbed_frame_is_scanned s j c r :
  reachable s → captures s !! j = Some c →
  step s (CaptureEnd j) = Some r →
  cj_file c = screenshotFileName (cj_now c) ∧
  cj_file c ∈ dir (state_of r) ∧
  cj_file c ∈ jpg_sorted (elements (dir (state_of r))).
Proof.
  intros Hreach Hj Hstep.
  destruct (captures_ok_reachable _ Hreach) as [Hjob _].
  destruct (Hjob j c Hj) as (_ & Hname & _).
  assert (cj_file c ∈ dir (state_of r)) as Hin.
  { revert Hstep. simpl. rewrite Hj. simpl. intros [= <-].
    unfold captureScreenshot_end. simpl.
    destruct (TOTAL_CAPTURED_SS_COUNT <=? _).
    - match goal with
      | |- context [processRemainingImages ?x] =>
          destruct (processRemainingImages_dir x _ eq_refl) as (H1 & _)
      end.
      simpl in H1. set_solver.
    - simpl. set_solver. }
  split_and!; [done | done |].
  apply elem_of_jpg_sorted. rewrite elem_of_elements. split; [| done].
  rewrite Hname. apply screenshotFileName_jpg.
Qed.

End FrameName.

(** ** The expression of lines 85-86 *)

Section Restore.

Context `{RT : Runtime}.
Local Open Scope nat_scope.
Implicit Types (ts pre : string) (a b c d e f g : ascii).

Lemma string_of_list_ascii_inv ts l :
  String.list_ascii_of_string ts = l → ts = String.string_of_list_ascii l.
Proof. intros <-. by rewrite String.string_of_list_ascii_of_string. Qed.

(** X20. [timestampPart.replace(/-(\d{2})-(\d{2})-(\d{3})Z$/, ':$1:$2.$3Z')]
    (lines 85-86): a string that ends in [-dd-dd-dddZ] gets these eleven
    characters replaced by [:dd:dd.dddZ], and every other string is
    returned as it is. *)
Theorem restore_time_separators_spec ts :
  (∃ pre a b c d e f g,
     forallb JSString.is_digit [a; b; c; d; e; f; g] = true ∧
     ts = pre +:+ dashed_time_suffix a b c d e f g ∧
     restore_time_separators ts = pre +:+ iso_time_suffix a b c d e f g) ∨
  (restore_time_separators ts = ts ∧
   ∀ pre a b c d e f g,
     forallb JSString.is_digit [a; b; c; d; e; f; g] = true →
     ts ≠ pre +:+ dashed_time_suffix a b c d e f g).
Proof.
  assert (∀ pre a b c d e f g,
            forallb JSString.is_digit [a; b; c; d; e; f; g] = true →
            restore_time_separators (pre +:+ dashed_time_suffix a b c d e f g) =
            pre +:+ iso_time_suffix a b c d e f g) as Hyes.
  { intros pre a b c d e f g Hdigits. unfold restore_time_separators.
    rewrite string_length_app. simpl String.length.
    rewrite (proj2 (Nat.leb_le 11 _)) by lia.
    replace (String.length pre + 11 - 11) with (String.length pre) by lia.
    rewrite (substring_app_drop pre), (substring_app_take pre). simpl.
    simpl in Hdigits. by rewrite Hdigits. }
  destruct (decide (restore_time_separators ts = ts)) as [Hsame | Hdiff].
  - right. split; [done |]. intros pre a b c d e f g Hdigits ->.
    rewrite Hyes in Hsame by done.
    apply (f_equal (String.substring (String.length pre) 11)) in Hsame.
    rewrite !(substring_app_drop pre) in Hsame. simpl in Hsame. discriminate.
  - left. revert Hdiff. unfold restore_time_separators.
    destruct (11 <=? String.length ts) eqn:Hlen; [| done].
    apply Nat.leb_le in Hlen.
    pose proof (substring_split (String.length ts - 11) ts ltac:(lia)) as Hsplit.
    replace (String.length ts - (String.length ts - 11)) with 11 in Hsplit by lia.
    destruct (String.list_ascii_of_string _)
      as [| h1 [| a [| b [| h2 [| c [| d [| h3 [| e [| f [| g [| z [| ? ?]]]]]]]]]]]]
      eqn:Hchars; try done.
    apply string_of_list_ascii_inv in Hchars.
    destruct (_ && _) eqn:Hcond; [| done]. intros _.
    repeat (apply andb_prop in Hcond as [Hcond ?]).
    repeat match goal with
           | H : Ascii.eqb _ _ = true |- _ => apply Ascii.eqb_eq in H; subst
           end.
    exists (String.substring 0 (String.length ts - 11) ts), a, b, c, d, e, f, g.
    split_and!; [done | | done].
    rewrite Hsplit at 1. by rewrite Hchars.
Qed.

End Restore.

(** ** Where the program throws *)

Section ThrowSites.

Context `{RT : Runtime}.
Local Open Scope nat_scope.
Implicit Types (s : State) (r : Result) (files : list string) (e : Event)
  (d : gset string).



End ThrowSites.

(** ** The manifest *)

Section Manifest.

Context `{RT : Runtime}.
Local Open Scope nat_scope.
Implicit Types (s t : string) (c : ascii) (batch : list string).

Lemma split_without c s : without c s → JSString.split c s = [s].
Proof.
  unfold without. induction s as [| x s IH]; intros Hs; [done |]. simpl.
  simpl in Hs. apply andb_prop in Hs as [Hx Hs].
  apply negb_true_iff in Hx. by rewrite Hx, IH.
Qed.

(** X22. The manifest written on lines 75-76 has one line per frame of the
    batch, in the order of the batch: provided no path holds a line feed,
    splitting its content at the line feeds gives back exactly the lines
    [file '<path>'] of the frames. *)
Theorem manifest_has_one_line_per_frame batch :
  batch ≠ [] →
  Forall (λ f, without "010" (listFileLine f)) batch →
  JSString.split "010" (JSString.join newline (listFileLine <$> batch)) =
  listFileLine <$> batch.
Proof.
  induction batch as [| f [| g batch] IH]; intros Hne Hall; [done | |].
  - apply Forall_cons in Hall as [Hf _].
    change (JSString.join newline (listFileLine <$> [f])) with (listFileLine f).
    by apply split_without.
  - apply Forall_cons in Hall as [Hf Hall].
    change (JSString.join newline (listFileLine <$> f :: g :: batch))
      with (listFileLine f +:+ newline +:+
            JSString.join newline (listFileLine <$> g :: batch)).
    unfold newline at 1. rewrite split_app by done.
    rewrite IH by done. done.
Qed.

End Manifest.

(** ** Accounts of a run *)

Section Accounts.

Context `{RT : Runtime}.
Local Open Scope nat_scope.
Implicit Types (s : State) (r : Result) (files : list string) (e : Event).

Lemma unlinks_tally (p : Effect → bool) (files : list string) :
  (∀ path, p (Unlink path) = false) →
  length (List.filter p ((λ f, Unlink (path_join IMAGE_OUTPUT_DIR f)) <$> files)) = 0.
Proof.
  intros Hp. induction files as [| f files IH]; [done |].
  rewrite fmap_cons. simpl. by rewrite Hp.
Qed.

Lemma unlinks_deletions (files : list string) :
  length (List.filter is_Unlink
            ((λ f, Unlink (path_join IMAGE_OUTPUT_DIR f)) <$> files)) = length files.
Proof. induction files as [| f files IH]; simpl; auto. Qed.

Lemma after_encode_tally j job s :
  good_batch s job →
  deletions (after_encode j job s) = deletions s + TOTAL_CAPTURED_SS_COUNT + 1 ∧
  hand_offs (after_encode j job s) = hand_offs s ∧
  timer_stops (after_encode j job s) = timer_stops s ∧
  encodes_started (after_encode j job s) = encodes_started s.
Proof.
  intros (Hlen & _).
  unfold deletions, hand_offs, timer_stops, encodes_started, occurrences,
    after_encode.
  cbn [trace]. rewrite !List.filter_app, !length_app, unlinks_deletions.
  rewrite !unlinks_tally by done. simpl. lia.
Qed.

Lemma run_one s e r : step s e = Some r → run s [e] = Some r.
Proof. intros Hstep. simpl. rewrite Hstep. by destruct r. Qed.

Lemma encodes_ended_cons e events :
  encodes_ended (e :: events) =
  (if is_reset e then 1 else 0) + encodes_ended events.
Proof. unfold encodes_ended. simpl. by destruct (is_reset e). Qed.

(** What one event adds to the accounts. *)
Lemma step_accounts s e r :
  reachable s → step s e = Some r →
  deletions (state_of r) =
    deletions s + (if is_reset e then TOTAL_CAPTURED_SS_COUNT + 1 else 0) ∧
  hand_offs (state_of r) + timer_stops s =
    hand_offs s + timer_stops (state_of r) + (if is_reset e then 1 else 0) ∧
  encodes_started (state_of r) + hand_offs s ≤
    encodes_started s + hand_offs (state_of r).
Proof.
  intros Hreach Hstep.
  destruct (is_reset e) eqn:Hreset.
  - destruct e as [| | | | j |]; try done.
    pose proof (invariant_reachable _ Hreach) as Hinv.
    revert Hstep. simpl.
    destruct (encodes s !! j) as [job |] eqn:Hj; [simpl | done].
    destruct (encoding_job _ _ _ Hinv Hj) as (Hflag & Henc & Hgood).
    rewrite createVideoFromBatch_end_good by done. intros [= <-].
    destruct (after_encode_tally j job s Hgood) as (D & H & T & E).
    match goal with
    | |- context [processRemainingImages ?x] =>
        destruct (processRemainingImages_tally x _ eq_refl) as (_ & H' & T' & E');
        destruct (processRemainingImages_dir x _ eq_refl) as (_ & _ & D')
    end.
    lia.
  - destruct (step_keeps_files _ _ _ Hreset Hstep) as [_ D].
    assert ((∃ j, e = CaptureEnd j) ∨ (∀ j, e ≠ CaptureEnd j)) as [[j ->] | Hne]
      by (destruct e; eauto; by right).
    + destruct (step_CaptureEnd_tally _ _ _ Hstep) as (_ & Hbelow & Hat).
      destruct (decide (S (screenshotCount s) < TOTAL_CAPTURED_SS_COUNT)) as [Hlt | Hge].
      * destruct (Hbelow Hlt) as (H & T & E). lia.
      * destruct Hat as (H & T & E); lia.
    + destruct (step_other_tally _ _ _ Hreset Hne Hstep) as (_ & H & T & E). lia.
Qed.

Lemma run_accounts events s r :
  reachable s → run s events = Some r →
  deletions (state_of r) =
    deletions s + (TOTAL_CAPTURED_SS_COUNT + 1) * encodes_ended events ∧
  hand_offs (state_of r) + timer_stops s =
    hand_offs s + timer_stops (state_of r) + encodes_ended events ∧
  encodes_started (state_of r) + hand_offs s ≤
    encodes_started s + hand_offs (state_of r).
Proof.
  revert s. induction events as [| e events IH]; intros s Hreach Hrun.
  - injection Hrun as <-. unfold encodes_ended. simpl. lia.
  - rewrite encodes_ended_cons.
    apply run_cons in Hrun as [(s1 & Hstep & Hrun) | (Hstep & -> & _)].
    + destruct (step_accounts _ _ _ Hreach Hstep) as (D & H & E). simpl in D, H, E.
      assert (reachable s1) as Hreach1
        by (eapply reachable_run; [done | by apply run_one]).
      destruct (IH _ Hreach1 Hrun) as (D' & H' & E').
      destruct (is_reset e); lia.
    + destruct (step_accounts _ _ _ Hreach Hstep) as (D & H & E).
      unfold encodes_ended. simpl. destruct (is_reset e); lia.
Qed.

Lemma main_accounts d s0 :
  main d = Ok s0 →
  deletions s0 = 0 ∧ hand_offs s0 = 1 ∧ timer_stops s0 = 0 ∧ encodes_started s0 ≤ 1.
Proof.
  unfold main, processImagesOnStartup.
  destruct (processRemainingImages _) as [s1 | s1] eqn:Hscan; [simpl | done].
  intros [= <-].
  destruct (processRemainingImages_tally _ _ Hscan) as (_ & H & T & E).
  destruct (processRemainingImages_dir _ _ Hscan) as (_ & _ & D).
  revert D H T E.
  unfold deletions, hand_offs, timer_stops, encodes_started, occurrences. simpl.
  rewrite !List.filter_app, !length_app. simpl. lia.
Qed.

(** X23. Files are deleted in whole batches only: in every run of the
    program that does not end in an exception the number of files deleted
    by [fs.unlinkSync] is [TOTAL_CAPTURED_SS_COUNT + 1] times the number
    of encodes that have ended -- each ['end'] callback that returns has
    deleted its [TOTAL_CAPTURED_SS_COUNT] frames and the manifest, and
    nothing else deletes; in a run that ends in an exception it is at most
    that. *)
Theorem deletions_come_in_batches d s0 events r :
  main d = Ok s0 → run s0 events = Some r →
  deletions (state_of r) ≤ (TOTAL_CAPTURED_SS_COUNT + 1) * encodes_ended events ∧
  ∀ s, r = Ok s →
       deletions s = (TOTAL_CAPTURED_SS_COUNT + 1) * encodes_ended events.
Proof.
  intros Hmain Hrun.
  assert (reachable s0) as Hreach by (by exists d, s0, []).
  destruct (main_accounts _ _ Hmain) as (D & _).
  destruct (run_accounts _ _ _ Hreach Hrun) as (D' & _).
  split; [lia |]. intros s ->. simpl in D'. lia.
Qed.

(** X24. No encode is started without a scan of the directory, and the
    directory is scanned at start-up, after a [clearInterval] and after
    the end of an encode only: in every run the number of encodes started
    is at most the number of scans, which is at most one plus the calls of
    [clearInterval] plus the encodes ended; in a run that does not end in
    an exception it is exactly that. *)
Theorem scans_are_accounted d s0 events r :
  main d = Ok s0 → run s0 events = Some r →
  encodes_started (state_of r) ≤ hand_offs (state_of r) ∧
  hand_offs (state_of r) ≤ 1 + timer_stops (state_of r) + encodes_ended events ∧
  ∀ s, r = Ok s →
       hand_offs s = 1 + timer_stops s + encodes_ended events.
Proof.
  intros Hmain Hrun.
  assert (reachable s0) as Hreach by (by exists d, s0, []).
  destruct (main_accounts _ _ Hmain) as (_ & H & T & E).
  destruct (run_accounts _ _ _ Hreach Hrun) as (_ & H' & E').
  split_and!; [lia | lia |]. intros s ->. simpl in H'. lia.
Qed.

End Accounts.

(** ** Rounds of frame grabs *)

Section Rounds.

Context `{RT : Runtime}.
Local Open Scope nat_scope.
Implicit Types (s : State) (r : Result) (e : Event).

Lemma run_step_Ok s e s1 events :
  step s e = Some (Ok s1) → run s (e :: events) = run s1 events.
Proof. intros Hstep. simpl. by rewrite Hstep. Qed.

Lemma captureScreenshot_end_below s :
  S (screenshotCount s) < TOTAL_CAPTURED_SS_COUNT →
  captureScreenshot_end s =
  Ok (emit (ConsoleLog
              ("Progress: " +:+ JSString.of_nat (S (screenshotCount s)) +:+ "/" +:+
               JSString.of_nat TOTAL_CAPTURED_SS_COUNT +:+
               " images recorded for video"))
        (set_screenshotCount (S (screenshotCount s)) s)).
Proof.
  intros Hlt. unfold captureScreenshot_end. simpl.
  by rewrite (proj2 (Nat.leb_gt _ _)).
Qed.

(** With the flag clear, ticks of an active interval that come
    [SCREENSHOT_INTERVAL_MS] apart, each followed by the success of the
    frame grab it issued, can all occur, up to the one that brings the
    counter to [TOTAL_CAPTURED_SS_COUNT]. *)
Lemma rounds_run k : ∀ a s id (t : Z),
  isCreatingVideo s = false → id ∈ timers s → nextJob s = a →
  screenshotCount s + k ≤ TOTAL_CAPTURED_SS_COUNT →
  (lastCaptureTime s + SCREENSHOT_INTERVAL_MS ≤
     t + Z.of_nat a * SCREENSHOT_INTERVAL_MS)%Z →
  ∃ r, run s (flat_map
                (λ i, [Tick id (t + Z.of_nat i * SCREENSHOT_INTERVAL_MS);
                       CaptureEnd i])
                (seq a k)) = Some r.
Proof.
  induction k as [| k IH]; intros a s id t Hflag Hid Hjob Hcount Htime.
  - simpl. eauto.
  - cbn [seq flat_map app].
    set (now := (t + Z.of_nat a * SCREENSHOT_INTERVAL_MS)%Z) in *.
    assert (captureScreenshot now s =
            run_capture (screenshotFileName now) now (set_lastCaptureTime now s))
      as Htick.
    { unfold captureScreenshot. rewrite Hflag.
      rewrite (proj2 (Z.ltb_ge _ _)) by lia. done. }
    rewrite (run_step_Ok s _ (captureScreenshot now s)) by (by apply step_Tick).
    rewrite Htick.
    set (s1 := run_capture (screenshotFileName now) now (set_lastCaptureTime now s)).
    assert (captures s1 !! a = Some {| cj_file := screenshotFileName now; cj_now := now |})
      as Hcapture.
    { unfold s1. simpl. rewrite Hjob. apply lookup_insert_eq. }
    assert (step s1 (CaptureEnd a) =
            Some (captureScreenshot_end
                    (set_dir ({[screenshotFileName now]} ∪ dir s1)
                       (set_captures (delete a (captures s1)) s1)))) as Hend.
    { unfold step. rewrite Hcapture. done. }
    destruct (decide (S (screenshotCount s) < TOTAL_CAPTURED_SS_COUNT)) as [Hlt | Hge].
    + rewrite captureScreenshot_end_below in Hend by exact Hlt.
      rewrite (run_step_Ok _ _ _ _ Hend).
      apply IH; simpl; [done | done | by rewrite Hjob | lia |].
      unfold now. lia.
    + assert (k = 0) as -> by lia. cbn [seq flat_map app].
      eexists. by apply run_one.
Qed.

(** One tick of an active interval, with the flag clear and
    [SCREENSHOT_INTERVAL_MS] after the last frame grab was issued, and the
    success of the frame grab it issues, when that leaves the counter
    below [TOTAL_CAPTURED_SS_COUNT]: the frame is in the directory and is
    counted, and nothing else has changed. *)
Lemma round_below s id now :
  isCreatingVideo s = false → id ∈ timers s →
  S (screenshotCount s) < TOTAL_CAPTURED_SS_COUNT →
  (lastCaptureTime s + SCREENSHOT_INTERVAL_MS ≤ now)%Z →
  ∃ s', run s [Tick id now; CaptureEnd (nextJob s)] = Some (Ok s') ∧
        isCreatingVideo s' = false ∧ timers s' = timers s ∧
        captureInterval s' = captureInterval s ∧
        nextJob s' = S (nextJob s) ∧
        screenshotCount s' = S (screenshotCount s) ∧
        lastCaptureTime s' = now ∧
        dir s' = {[screenshotFileName now]} ∪ dir s ∧
        timer_stops s' = timer_stops s ∧ hand_offs s' = hand_offs s ∧
        encodes_started s' = encodes_started s.
Proof.
  intros Hflag Hid Hlt Htime.
  assert (captureScreenshot now s =
          run_capture (screenshotFileName now) now (set_lastCaptureTime now s))
    as Htick.
  { unfold captureScreenshot. rewrite Hflag.
    rewrite (proj2 (Z.ltb_ge _ _)) by lia. done. }
  eexists. split.
  - rewrite (run_step_Ok s _ (captureScreenshot now s)) by (by apply step_Tick).
    rewrite Htick. apply run_one. unfold step. simpl.
    rewrite lookup_insert_eq. simpl.
    rewrite captureScreenshot_end_below by exact Hlt. reflexivity.
  - simpl. split_and!; try done; tally.
Qed.

(** [k] such rounds, [SCREENSHOT_INTERVAL_MS] apart. *)
Lemma rounds_below k : ∀ a s id (t : Z),
  isCreatingVideo s = false → id ∈ timers s → nextJob s = a →
  screenshotCount s + k < TOTAL_CAPTURED_SS_COUNT →
  (lastCaptureTime s + SCREENSHOT_INTERVAL_MS ≤
     t + Z.of_nat a * SCREENSHOT_INTERVAL_MS)%Z →
  ∃ s', run s (flat_map
                 (λ i, [Tick id (t + Z.of_nat i * SCREENSHOT_INTERVAL_MS);
                        CaptureEnd i])
                 (seq a k)) = Some (Ok s') ∧
        isCreatingVideo s' = false ∧ timers s' = timers s ∧
        captureInterval s' = captureInterval s ∧
        nextJob s' = a + k ∧
        screenshotCount s' = screenshotCount s + k ∧
        (lastCaptureTime s' + SCREENSHOT_INTERVAL_MS ≤
           t + Z.of_nat (a + k) * SCREENSHOT_INTERVAL_MS)%Z ∧
        dir s' = dir s ∪
          list_to_set ((λ i, screenshotFileName
                               (t + Z.of_nat i * SCREENSHOT_INTERVAL_MS))
                         <$> seq a k) ∧
        timer_stops s' = timer_stops s ∧ hand_offs s' = hand_offs s ∧
        encodes_started s' = encodes_started s.
Proof.
  induction k as [| k IH]; intros a s id t Hflag Hid Hjob Hcount Htime.
  - exists s. simpl. rewrite !Nat.add_0_r.
    split_and!; try done. set_solver.
  - destruct (round_below s id (t + Z.of_nat a * SCREENSHOT_INTERVAL_MS)
                Hflag Hid ltac:(lia) Htime)
      as (s1 & Hrun1 & F1 & T1 & I1 & J1 & C1 & L1 & D1 & TS1 & H1 & E1).
    rewrite Hjob in Hrun1, J1.
    destruct (IH (S a) s1 id t)
      as (s' & Hrun & F2 & T2 & I2 & J2 & C2 & L2 & D2 & TS2 & H2 & E2).
    + exact F1.
    + by rewrite T1.
    + exact J1.
    + lia.
    + rewrite L1. lia.
    + exists s'. split.
      * cbn [seq flat_map].
        rewrite (run_app_Ok _ _ _ _ Hrun1). exact Hrun.
      * rewrite F2, T2, T1, I2, I1, J2, C2, C1, D2, D1, TS2, TS1, H2, H1, E2, E1.
        split_and!; [done | done | done | lia | lia | | | done | done | done].
        -- replace (a + S k) with (S a + k) by lia. exact L2.
        -- cbn [seq fmap list_fmap list_to_set]. set_solver.
Qed.

(** The round that brings the counter to [TOTAL_CAPTURED_SS_COUNT], when
    the directory then holds at least that many frames and the last one of
    the batch carries a date: [clearInterval(captureInterval)], the scan,
    the manifest and the start of the encode. *)
Lemma round_at_threshold s id now a h files name timestampPart lastImageTime :
  isCreatingVideo s = false → id ∈ timers s → nextJob s = a →
  captureInterval s = Some h →
  S (screenshotCount s) = TOTAL_CAPTURED_SS_COUNT →
  (lastCaptureTime s + SCREENSHOT_INTERVAL_MS ≤ now)%Z →
  jpg_sorted (elements ({[screenshotFileName now]} ∪ dir s)) = files →
  TOTAL_CAPTURED_SS_COUNT ≤ length files →
  last (take TOTAL_CAPTURED_SS_COUNT files) = Some name →
  match_screenshot name = Some timestampPart →
  Date_parse (restore_time_separators timestampPart) = Some lastImageTime →
  ∃ s', run s [Tick id now; CaptureEnd a] = Some (Ok s') ∧
        isCreatingVideo s' = true ∧ timers s' = timers s ∖ {[h]} ∧
        captureInterval s' = Some h ∧
        screenshotCount s' = TOTAL_CAPTURED_SS_COUNT ∧
        encodes s' =
          <[S a := {| ej_batchFiles := take TOTAL_CAPTURED_SS_COUNT files;
                      ej_videoFilePath :=
                        path_join dirname
                          ("video-" +:+ formatDate lastImageTime +:+ ".mp4") |}]>
            (encodes s) ∧
        timer_stops s' = S (timer_stops s) ∧ hand_offs s' = S (hand_offs s) ∧
        encodes_started s' = S (encodes_started s).
Proof.
  intros Hflag Hid Hjob Hh Hcount Htime Hscan Hlen Hlast Hmatch Hparse.
  assert (captureScreenshot now s =
          run_capture (screenshotFileName now) now (set_lastCaptureTime now s))
    as Htick.
  { unfold captureScreenshot. rewrite Hflag.
    rewrite (proj2 (Z.ltb_ge _ _)) by lia. done. }
  eexists. split.
  - rewrite (run_step_Ok s _ (captureScreenshot now s)) by (by apply step_Tick).
    rewrite Htick. apply run_one. unfold step. simpl.
    rewrite Hjob, lookup_insert_eq. simpl.
    unfold captureScreenshot_end. simpl.
    rewrite (proj2 (Nat.leb_le _ _)) by lia.
    unfold processRemainingImages. simpl. rewrite Hscan.
    rewrite (proj2 (Nat.leb_le _ _)) by done.
    unfold createVideoFromBatch. simpl. rewrite Hflag.
    rewrite (proj2 (Nat.ltb_ge _ _)) by done.
    rewrite Hlast, Hmatch, Hparse. reflexivity.
  - simpl. rewrite Hh, Hcount, ?Hjob. split_and!; try done; tally.
Qed.

Lemma seq_fmap_snoc {A} (f : nat → A) n :
  f <$> seq 0 (S n) = (f <$> seq 0 n) ++ [f n].
Proof. by rewrite seq_S, fmap_app. Qed.

Lemma scan_of_collected (x : string) (l : list string) (d : gset string) :
  d = ∅ →
  jpg_sorted (elements ({[x]} ∪ (d ∪ list_to_set l))) =
  jpg_sorted (elements (list_to_set (l ++ [x]) : gset string)).
Proof.
  intros ->. f_equal. f_equal. rewrite list_to_set_app_L. simpl. set_solver.
Qed.

End Rounds.

(** ** The concrete runs *)

#[local] Existing Instance UTC.runtime.

Section Concrete.

Import Scenario.
Local Open Scope nat_scope.

(** Closed facts about lists of names and events are decided by
    evaluation. *)
Lemma no_reset_by_eval (events : list Event) :
  forallb (λ e, negb (is_reset e)) events = true →
  Forall (λ e, is_reset e = false) events.
Proof.
  induction events as [| e events IH]; [done |]. simpl.
  intros [He Hrest]%andb_prop. constructor; [| by apply IH].
  by destruct (is_reset e).
Qed.

Lemma all_jpg_by_eval (files : list string) :
  forallb (λ f, JSString.endsWith f ".jpg") files = true →
  Forall (λ f, JSString.endsWith f ".jpg" = true) files.
Proof.
  induction files as [| f files IH]; [done |]. simpl.
  intros [Hf Hrest]%andb_prop. constructor; [done | by apply IH].
Qed.

Lemma Some_default o r : happens o = true → o = Some (default r o).
Proof. by destruct o. Qed.

(** *** The start on an empty directory *)

Lemma fresh_facts :
  main ∅ = Ok fresh ∧
  isCreatingVideo fresh = false ∧ screenshotCount fresh = 0 ∧
  timers fresh = {[0; 1]} ∧ captureInterval fresh = Some 1.
Proof.
  destruct (main_few_frames ∅) as (s & Hmain & _ & _ & Hflag & _ & _ & Hcount & Htimers & Hhandle).
  { rewrite elements_empty. vm_compute. lia. }
  assert (fresh = s) as -> by (unfold fresh; rewrite Hmain; reflexivity).
  exact (conj Hmain (conj Hflag (conj Hcount (conj Htimers Hhandle)))).
Qed.

Lemma fresh_reachable : reachable fresh.
Proof. exists ∅, fresh, []. split; [apply fresh_facts | reflexivity]. Qed.

(** *** The start on the backlog *)

Lemma backlog_increasing : StronglySorted name_lt backlog_frames.
Proof. apply increasing_StronglySorted. vm_compute; reflexivity. Qed.

Lemma backlog_jpg : Forall (λ f, JSString.endsWith f ".jpg" = true) backlog_frames.
Proof. apply all_jpg_by_eval. vm_compute; reflexivity. Qed.

Lemma backlog_scan : jpg_sorted (elements backlog) = backlog_frames.
Proof. apply jpg_sorted_list_to_set; [apply backlog_increasing | apply backlog_jpg]. Qed.

Lemma started_facts :
  main backlog = Ok started ∧
  encodes started = {[0 := first_job]} ∧
  isCreatingVideo started = true ∧
  dir started = {[listFileName]} ∪ backlog ∧
  timers started = {[0]}.
Proof.
  destruct (main_backlog backlog "screenshot-2024-01-02T04-03-55-678Z.jpg"
              "2024-01-02T04-03-55-678Z" 1704168235678%Z)
    as (s & Hmain & Henc & Hflag & _ & Hdir & _ & _ & Htimers & _).
  - rewrite backlog_scan. apply Nat.leb_le. vm_compute; reflexivity.
  - rewrite backlog_scan. vm_compute; reflexivity.
  - vm_compute; reflexivity.
  - vm_compute; reflexivity.
  - assert (started = s) as -> by (unfold started; rewrite Hmain; reflexivity).
    split; [exact Hmain |]. split; [| exact (conj Hflag (conj Hdir Htimers))].
    rewrite Henc, backlog_scan.
    apply (f_equal (λ job : EncodeJob, ({[0 := job]} : gmap nat EncodeJob))).
    vm_compute; reflexivity.
Qed.

Lemma started_reachable : reachable started.
Proof. exists backlog, started, []. split; [apply started_facts | reflexivity]. Qed.

Lemma started_first_job : encodes started !! 0 = Some first_job.
Proof.
  destruct started_facts as (_ & Henc & _). rewrite Henc. apply lookup_singleton_eq.
Qed.

Lemma first_grab_runs : run fresh first_grab = Some after_first_grab.
Proof. apply (Some_default (run fresh first_grab)). vm_compute; reflexivity. Qed.

Lemma round_runs : run fresh capture_round = Some round_result.
Proof.
  destruct fresh_facts as (_ & Hflag & Hzero & Htimers & _).
  destruct (rounds_run 360 0 fresh 0 t0) as [r Hr].
  - exact Hflag.
  - rewrite Htimers. set_solver.
  - vm_compute; reflexivity.
  - rewrite Hzero, TOTAL_CAPTURED_SS_COUNT_eq. reflexivity.
  - vm_compute. discriminate.
  - unfold round_result, round_outcome, capture_round. rewrite Hr. reflexivity.
Qed.

(** The round of 360 successful frame grabs from a fresh start hands off
    exactly once. *)
Lemma hand_off_exactly_once_witness :
  successes capture_round = TOTAL_CAPTURED_SS_COUNT ∧
  hand_offs (state_of round_result) = S (hand_offs fresh) ∧
  timer_stops (state_of round_result) = S (timer_stops fresh).
Proof.
  assert (successes capture_round = TOTAL_CAPTURED_SS_COUNT) as Hk
    by (vm_compute; reflexivity).
  split; [exact Hk |].
  destruct fresh_facts as (_ & _ & Hzero & _).
  assert (Forall (λ e, is_reset e = false) capture_round) as Hres
    by (apply no_reset_by_eval; vm_compute; reflexivity).
  destruct (hand_off_exactly_once fresh capture_round round_result
              fresh_reachable Hzero Hres round_runs) as (_ & Hat & _).
  destruct (Hat Hk) as (Hh & Ht & _). exact (conj Hh Ht).
Defined.

Lemma fresh_start :
  dir fresh = ∅ ∧ nextJob fresh = 0 ∧ lastCaptureTime fresh = 0%Z.
Proof.
  split; [| split; vm_compute; reflexivity].
  destruct (main_few_frames ∅) as (s & Hmain & Hdir & _).
  { rewrite elements_empty. vm_compute. lia. }
  unfold fresh. rewrite Hmain. exact Hdir.
Qed.

Lemma interval_1_cleared : ({[0; 1]} : gset nat) ∖ {[1]} = {[0]}.
Proof. set_solver. Qed.

Lemma round_frames_scan :
  jpg_sorted (elements (list_to_set (UTC.frames t0 360) : gset string)) =
  UTC.frames t0 360.
Proof.
  apply jpg_sorted_list_to_set.
  - apply increasing_StronglySorted. vm_compute; reflexivity.
  - apply all_jpg_by_eval. vm_compute; reflexivity.
Qed.

(** C1 fails on the code.  The program is started on an empty directory
    and 360 ticks of interval 0, ten seconds apart, each issue a frame
    grab that succeeds.  The 360th success calls [clearInterval] once, on
    the handle in [captureInterval], which is that of interval 1; it scans
    the directory once and starts one encode.  Interval 0, started by
    [resumeCapturing] during the start-up, is not stopped: it is the one
    active interval afterwards, and its callback runs at every tick. *)
Lemma C1_interval_0_survives_hand_off :
  successes capture_round = TOTAL_CAPTURED_SS_COUNT ∧
  timers fresh = {[0; 1]} ∧ captureInterval fresh = Some 1 ∧
  ∃ s, run fresh capture_round = Some (Ok s) ∧
       timer_stops s = S (timer_stops fresh) ∧
       hand_offs s = S (hand_offs fresh) ∧
       encodes_started s = S (encodes_started fresh) ∧
       isCreatingVideo s = true ∧
       captureInterval s = Some 1 ∧ timers s = {[0]} ∧
       ∀ now, step s (Tick 0 now) = Some (Ok s).
Proof.
  destruct fresh_facts as (_ & Hflag & Hzero & Htimers & Hhandle).
  destruct fresh_start as (Hdir & Hjob & Hlast).
  split; [vm_compute; reflexivity |].
  split; [exact Htimers |]. split; [exact Hhandle |].
  assert (0 ∈ timers fresh) as Hid
    by (rewrite Htimers; apply elem_of_union_l, elem_of_singleton; reflexivity).
  destruct (rounds_below 359 0 fresh 0 t0 Hflag Hid Hjob)
    as (s1 & Hrun1 & F1 & T1 & I1 & J1 & C1 & L1 & D1 & TS1 & H1 & E1).
  { rewrite Hzero, TOTAL_CAPTURED_SS_COUNT_eq. apply Nat.ltb_lt. reflexivity. }
  { rewrite Hlast. vm_compute. discriminate. }
  pose proof (seq_fmap_snoc
                (λ i, screenshotFileName (t0 + Z.of_nat i * SCREENSHOT_INTERVAL_MS))
                359) as Hnames.
  cbv beta in Hnames.
  destruct (round_at_threshold s1 0
              (t0 + Z.of_nat 359 * SCREENSHOT_INTERVAL_MS) 359 1
              (UTC.frames t0 360) "screenshot-2024-01-02T04-03-55-678Z.jpg"
              "2024-01-02T04-03-55-678Z" 1704168235678%Z)
    as (s2 & Hrun2 & F2 & T2 & I2 & C2 & _ & TS2 & H2 & E2).
  - exact F1.
  - rewrite T1. exact Hid.
  - exact J1.
  - rewrite I1. exact Hhandle.
  - rewrite C1, Hzero, TOTAL_CAPTURED_SS_COUNT_eq. reflexivity.
  - exact L1.
  - rewrite D1, (scan_of_collected _ _ _ Hdir), <- Hnames.
    exact round_frames_scan.
  - apply Nat.leb_le. vm_compute; reflexivity.
  - vm_compute; reflexivity.
  - vm_compute; reflexivity.
  - vm_compute; reflexivity.
  - exists s2. split.
    + unfold capture_round. rewrite seq_S, flat_map_app.
      rewrite (run_app_Ok _ _ _ _ Hrun1). exact Hrun2.
    + rewrite TS2, TS1, H2, H1, E2, E1.
      split; [reflexivity |]. split; [reflexivity |]. split; [reflexivity |].
      split; [exact F2 |]. split; [exact I2 |].
      assert (timers s2 = {[0]}) as Hleft
        by (rewrite T2, T1, Htimers; exact interval_1_cleared).
      split; [exact Hleft |].
      intros now.
      assert (0 ∈ timers s2) as Hid2
        by (rewrite Hleft; apply elem_of_singleton; reflexivity).
      rewrite (step_Tick s2 0 now Hid2).
      rewrite (captureScreenshot_busy now s2 F2). reflexivity.
Qed.

(** With the first encode of the backlog in flight, a tick changes
    nothing and exactly one encode is in flight. *)
Lemma C2_witness :
  isCreatingVideo started = true ∧ size (encodes started) ≤ 1 ∧
  step started (Tick 0 t0) = Some (Ok started).
Proof.
  destruct started_facts as (_ & _ & Hset & _ & Htimers).
  assert (0 ∈ timers started) as Hid by (rewrite Htimers; set_solver).
  destruct (C2_mutual_exclusion started started_reachable)
    as (Htick & Hone & _).
  split; [exact Hset |]. split; [exact Hone |]. exact (Htick 0 t0 Hset Hid).
Defined.

(** The first encode of the backlog ends: its 360 frames and the manifest
    go, 5 frames stay. *)
Lemma C3_witness :
  length (ej_batchFiles first_job) = TOTAL_CAPTURED_SS_COUNT ∧
  deletions (after_encode 0 first_job started) =
    deletions started + TOTAL_CAPTURED_SS_COUNT + 1 ∧
  length (jpg_sorted (elements (dir (after_encode 0 first_job started)))) =
    length (jpg_sorted (elements (dir started))) - TOTAL_CAPTURED_SS_COUNT.
Proof.
  destruct (C3_encode_success started 0 first_job started_reachable
              started_first_job)
    as (Hlen & _ & _ & _ & _ & _ & _ & Hdel & Hleft & _).
  exact (conj Hlen (conj Hdel Hleft)).
Defined.

(** The backlog given to [createVideoFromBatch]: the batch is its first
    360 names and the video is named after the minute of the 360th. *)
Lemma C4_witness :
  ∃ s', createVideoFromBatch backlog_frames (initial ∅) = Ok s' ∧
        encodes s' !! 0 = Some first_job.
Proof.
  destruct (C4_batch_selection backlog_frames (initial ∅)
              "screenshot-2024-01-02T04-03-55-678Z.jpg"
              "2024-01-02T04-03-55-678Z" 1704168235678%Z)
    as (s' & Hrun & Henc & _).
  - reflexivity.
  - apply backlog_increasing.
  - apply backlog_jpg.
  - apply Nat.leb_le. vm_compute; reflexivity.
  - vm_compute; reflexivity.
  - vm_compute; reflexivity.
  - vm_compute; reflexivity.
  - exists s'. split; [exact Hrun |]. rewrite Henc.
    change (nextJob (initial ∅)) with 0. rewrite lookup_insert_eq.
    apply (f_equal Some). vm_compute; reflexivity.
Defined.

(** A batch whose last name carries no date: nothing is deleted and
    capturing resumes. *)
Lemma C6_witness :
  ∃ s', createVideoFromBatch undated_frames (initial ∅) = Ok s' ∧
        deletions s' = deletions (initial ∅) ∧
        isCreatingVideo s' = false ∧
        timers s' = {[0]} ∪ timers (initial ∅).
Proof.
  destruct (C6_unparseable_timestamp undated_frames (initial ∅)
              "screenshot-not-a-date.jpg" "not-a-date")
    as (s' & Hrun & Hdel & _ & _ & _ & Hflag & _ & Htimers & _).
  - reflexivity.
  - apply Nat.leb_le. vm_compute; reflexivity.
  - vm_compute; reflexivity.
  - vm_compute; reflexivity.
  - vm_compute; reflexivity.
  - exists s'. exact (conj Hrun (conj Hdel (conj Hflag Htimers))).
Defined.

Lemma failed_grab_runs : run fresh failed_grab = Some (Ok after_failed_grab).
Proof. vm_compute; reflexivity. Qed.

Lemma after_failed_grab_timers : timers after_failed_grab = timers fresh.
Proof. vm_compute; reflexivity. Qed.

(** After a frame grab started at [t0] has failed, a tick five seconds
    later changes nothing. *)
Lemma C8_witness :
  lastCaptureTime after_failed_grab = last_issued fresh failed_grab 0 ∧
  step after_failed_grab (Tick 1 (t0 + 5000)) =
    Some (Ok (captureScreenshot (t0 + 5000) after_failed_grab)).
Proof.
  destruct fresh_facts as (Hmain & _ & _ & Htimers & _).
  destruct (C8_tick_gate ∅ fresh failed_grab after_failed_grab 1 (t0 + 5000)%Z)
    as (Hlast & Hstep & _).
  - exact Hmain.
  - exact failed_grab_runs.
  - rewrite after_failed_grab_timers, Htimers. set_solver.
  - exact (conj Hlast Hstep).
Defined.

(** The batch of the first encode of the backlog does not contain the
    manifest. *)
Lemma C10_witness :
  (listFileName ∉ ej_batchFiles first_job) ∧
  (listFileName ∉ jpg_sorted (elements (dir started))).
Proof.
  destruct (C10_manifest_is_no_frame started (dir started) started_reachable)
    as (_ & Hscan & _ & _ & Hjob).
  destruct (Hjob 0 first_job started_first_job) as (_ & Hbatch & _).
  exact (conj Hbatch Hscan).
Defined.

(** C8 fails as worded.  From a fresh start, a frame grab is started at
    [t0] and fails; no frame grab has ever succeeded and the flag is
    clear, yet the tick five seconds later is a no-op. *)
Lemma C8_counterexample :
  run fresh failed_grab = Some (Ok after_failed_grab) ∧
  ¬ tick_gate_as_specified fresh failed_grab after_failed_grab (t0 + 5000).
Proof.
  split; [exact failed_grab_runs |].
  intros [Hnoop _].
  destruct Hnoop as [Hflag | (t & Ht & _)].
  - vm_compute; reflexivity.
  - vm_compute in Hflag. discriminate Hflag.
  - vm_compute in Ht. discriminate Ht.
Qed.

(** C5 fails on the code.  After the start-up sequence on an empty
    directory two intervals are active: the one the recovery scan started
    through [resumeCapturing] and the one line 166 started; both tick, and
    [captureInterval] holds only the second. *)
Lemma C5_two_intervals_after_startup :
  main ∅ = Ok fresh ∧
  timers fresh = {[0; 1]} ∧ size (timers fresh) = 2 ∧
  captureInterval fresh = Some 1 ∧
  step fresh (Tick 0 t0) ≠ None ∧ step fresh (Tick 1 t0) ≠ None.
Proof.
  destruct fresh_facts as (Hmain & _ & _ & Htimers & Hhandle).
  split_and!.
  - exact Hmain.
  - exact Htimers.
  - rewrite Htimers, size_union, !size_singleton by set_solver. reflexivity.
  - exact Hhandle.
  - rewrite step_Tick by (rewrite Htimers; set_solver). discriminate.
  - rewrite step_Tick by (rewrite Htimers; set_solver). discriminate.
Qed.

(** C7 fails on the code.  The first encode of the backlog fails: the
    ['error'] callback returns with the flag clear and [filelist.txt]
    still in the directory. *)
Lemma C7_manifest_left_by_failed_encode :
  listFileName ∈ dir started ∧
  ∃ s', step started (EncodeError 0 "ffmpeg exited with code 1") = Some (Ok s') ∧
        isCreatingVideo s' = false ∧ encodes s' = ∅ ∧
        listFileName ∈ dir s'.
Proof.
  destruct (failed_encode_leaves_manifest started 0 first_job
              "ffmpeg exited with code 1" started_reachable started_first_job)
    as (Hlist & s' & Hstep & Hflag & Henc & Hin & _).
  exact (conj Hlist (ex_intro _ s' (conj Hstep (conj Hflag (conj Henc Hin))))).
Qed.

Lemma foreign_scan : jpg_sorted (elements foreign) = foreign_frames.
Proof.
  apply jpg_sorted_list_to_set.
  - apply increasing_StronglySorted. vm_compute; reflexivity.
  - apply all_jpg_by_eval. vm_compute; reflexivity.
Qed.

(** C9 fails on the code.  Started on a directory of 360 [.jpg] files
    whose names do not contain [screenshot-], the program throws in
    [createVideoFromBatch] (line 82, [null[1]]) before line 166 is
    reached. *)
Lemma C9_startup_throws_on_foreign_names :
  length (jpg_sorted (elements foreign)) = TOTAL_CAPTURED_SS_COUNT ∧
  match_screenshot "img1359.jpg" = None ∧
  is_Ok (main foreign) = false.
Proof.
  assert (match_screenshot "img1359.jpg" = None) as Hmatch
    by (vm_compute; reflexivity).
  split_and!.
  - rewrite foreign_scan, TOTAL_CAPTURED_SS_COUNT_eq. vm_compute; reflexivity.
  - exact Hmatch.
  - destruct (main_throws foreign "img1359.jpg") as (s & -> & _).
    + rewrite foreign_scan. apply Nat.leb_le. vm_compute; reflexivity.
    + rewrite foreign_scan. vm_compute; reflexivity.
    + exact Hmatch.
    + reflexivity.
Qed.

(** *** The further properties, on the same runs *)

(** After a fresh start interval 0 is active and two intervals are. *)
Lemma first_interval_never_cleared_witness :
  0 ∈ timers fresh ∧ size (timers fresh) ≤ 2.
Proof.
  destruct (first_interval_never_cleared fresh fresh_reachable)
    as (Hfirst & Htwo & _).
  exact (conj Hfirst Htwo).
Defined.

Lemma two_grabs_reachable : reachable after_two_grabs.
Proof.
  apply (reachable_run fresh two_grabs); [apply fresh_reachable |].
  vm_compute; reflexivity.
Qed.

Lemma after_two_grabs_captures :
  captures after_two_grabs !! 0 = Some first_frame ∧
  captures after_two_grabs !! 1 =
    Some {| cj_file := screenshotFileName (t0 + 10000); cj_now := t0 + 10000 |}.
Proof. split; vm_compute; reflexivity. Qed.

(** Two frame grabs in flight, issued by the two intervals: the second
    was issued ten seconds after the first. *)
Lemma frame_grabs_are_spaced_witness :
  (cj_now first_frame + SCREENSHOT_INTERVAL_MS ≤ t0 + 10000)%Z.
Proof.
  destruct (frame_grabs_are_spaced after_two_grabs two_grabs_reachable)
    as (_ & Hspaced).
  destruct after_two_grabs_captures as [Hfirst Hsecond].
  exact (Hspaced 0 1 _ _ Hfirst Hsecond (Nat.lt_0_succ 0)).
Defined.

(** The frame captured at [t0] is named
    [screenshot-2024-01-02T03-04-05-678Z.jpg], and lines 82 to 86 give
    [2024-01-02T03:04:05.678Z] back. *)
Lemma frame_timestamp_roundtrip_witness :
  ∃ timestampPart,
    match_screenshot (screenshotFileName t0) = Some timestampPart ∧
    restore_time_separators timestampPart = "2024-01-02T03:04:05.678Z".
Proof.
  destruct (frame_timestamp_roundtrip t0 "2024-01-02T03" "0" "4" "0" "5" "6" "7" "8")
    as (timestampPart & Hmatch & Hrestore); try (vm_compute; reflexivity).
  exists timestampPart. split; [exact Hmatch |].
  rewrite Hrestore. vm_compute; reflexivity.
Defined.

(** The video of a batch whose last frame was captured at
    2024-01-02T04:03:55.678Z is named after [2024-01-02-04-03]. *)
Lemma formatDate_shape_witness :
  formatDate 1704168235678 = "2024-01-02-04-03" ∧
  String.length (formatDate 1704168235678) = 16.
Proof.
  destruct (formatDate_shape 1704168235678) as [Hshape Hlength];
    [by vm_compute | by vm_compute | by vm_compute | by vm_compute |].
  split.
  - rewrite Hshape. vm_compute; reflexivity.
  - rewrite Hlength. vm_compute; reflexivity.
Defined.

(** The encode of [a.jpg], [b.jpg], [c.jpg] ends while [b.jpg] is gone:
    [a.jpg] is deleted and the callback throws. *)
Lemma encode_end_throws_on_missing_frame_witness :
  ∃ s', createVideoFromBatch_end lost_frame_job lost_frame_state = Throw s' ∧
        dir s' = dir lost_frame_state ∖ list_to_set ["a.jpg"] ∧
        isCreatingVideo s' = true.
Proof.
  destruct (encode_end_throws_on_missing_frame lost_frame_job lost_frame_state
              ["a.jpg"] "b.jpg" ["c.jpg"])
    as (s' & Hthrow & Hdir & _ & Hflag & _).
  - reflexivity.
  - apply NoDup_singleton.
  - intros g ->%list_elem_of_singleton.
    apply elem_of_union_l, elem_of_singleton. reflexivity.
  - intros [[Ha | [Hc | Hl]%elem_of_union]%elem_of_union _]%elem_of_difference;
      apply elem_of_singleton in Ha || apply elem_of_singleton in Hc
      || apply elem_of_singleton in Hl; discriminate.
  - exact (ex_intro _ s' (conj Hthrow (conj Hdir Hflag))).
Defined.

(** The first encode of the backlog fails: the directory and the counter
    are as before. *)
Lemma failed_encode_is_not_retried_witness :
  ∃ s', step started (EncodeError 0 "ffmpeg exited with code 1") = Some (Ok s') ∧
        dir s' = dir started ∧ screenshotCount s' = screenshotCount started.
Proof.
  destruct (failed_encode_is_not_retried started 0 first_job
              "ffmpeg exited with code 1" started_reachable started_first_job)
    as (s' & Hstep & Hdir & _ & Hcount & _).
  exact (ex_intro _ s' (conj Hstep (conj Hdir Hcount))).
Defined.

Lemma first_grab_no_reset : Forall (λ e, is_reset e = false) first_grab.
Proof. apply no_reset_by_eval. vm_compute; reflexivity. Qed.

(** A tick and its successful frame grab delete nothing. *)
Lemma only_encode_end_deletes_witness :
  dir fresh ⊆ dir (state_of after_first_grab) ∧
  deletions (state_of after_first_grab) = deletions fresh.
Proof.
  exact (only_encode_end_deletes fresh first_grab after_first_grab
           first_grab_no_reset first_grab_runs).
Defined.

(** No shortfall is reported in the run of one tick and its frame grab. *)
Lemma shortfall_is_never_reported_witness :
  occurrences is_shortfall_report (state_of after_first_grab) = 0.
Proof.
  exact (shortfall_is_never_reported ∅ fresh first_grab after_first_grab
           (proj1 fresh_facts) first_grab_runs).
Defined.

(** [createVideoFromBatch] called on one file. *)
Lemma shortfall_aborts_witness :
  ∃ s', createVideoFromBatch ["a.jpg"] (initial ∅) = Ok s' ∧
        occurrences is_shortfall_report s' = 1 ∧ dir s' = ∅.
Proof.
  destruct (shortfall_aborts ["a.jpg"] (initial ∅))
    as (s' & Hrun & Hreport & Hdir & _).
  - reflexivity.
  - rewrite TOTAL_CAPTURED_SS_COUNT_eq. simpl. lia.
  - exact (ex_intro _ s' (conj Hrun (conj Hreport Hdir))).
Defined.

(** The start on an empty directory. *)
Lemma startup_with_few_frames_witness :
  ∃ s, main ∅ = Ok s ∧ timers s = {[0; 1]} ∧ captureInterval s = Some 1.
Proof.
  destruct (startup_with_few_frames ∅)
    as (s & Hmain & _ & _ & Htimers & Hhandle & _).
  - rewrite elements_empty. vm_compute. lia.
  - exact (ex_intro _ s (conj Hmain (conj Htimers Hhandle))).
Defined.

(** The start on the backlog of 365 frames. *)
Lemma startup_with_backlog_witness :
  ∃ s, main backlog = Ok s ∧ isCreatingVideo s = true ∧ timers s = {[0]} ∧
       ∀ now, step s (Tick 0 now) = Some (Ok s).
Proof.
  destruct (startup_with_backlog backlog "screenshot-2024-01-02T04-03-55-678Z.jpg"
              "2024-01-02T04-03-55-678Z" 1704168235678%Z)
    as (s & Hmain & _ & _ & Hflag & _ & Htimers & _ & _ & Htick).
  - rewrite backlog_scan. apply Nat.leb_le. vm_compute; reflexivity.
  - rewrite backlog_scan. vm_compute; reflexivity.
  - vm_compute; reflexivity.
  - vm_compute; reflexivity.
  - exact (ex_intro _ s (conj Hmain (conj Hflag (conj Htimers Htick)))).
Defined.

(** The start on 360 files [img1000.jpg] to [img1359.jpg]. *)
Lemma startup_throws_on_unmatched_name_witness :
  ∃ s, main foreign = Throw s ∧ timers s = ∅ ∧ captureInterval s = None.
Proof.
  destruct (startup_throws_on_unmatched_name foreign "img1359.jpg")
    as (s & Hmain & _ & _ & _ & Htimers & Hhandle & _).
  - rewrite foreign_scan. apply Nat.leb_le. vm_compute; reflexivity.
  - rewrite foreign_scan. vm_compute; reflexivity.
  - vm_compute; reflexivity.
  - exact (ex_intro _ s (conj Hmain (conj Htimers Hhandle))).
Defined.

Lemma backlog_rest :
  jpg_sorted (elements
    (dir started ∖ (list_to_set (ej_batchFiles first_job) ∪ {[listFileName]})))
  = drop 360 backlog_frames.
Proof.
  destruct started_facts as (_ & _ & _ & Hdir & _).
  exact (scan_after_batch backlog_frames 360 started first_job
           backlog_increasing backlog_jpg Hdir eq_refl).
Qed.

(** The first encode of the backlog ends: five frames are left, so
    capturing is resumed with interval 1 and no encode is in flight. *)
Lemma encode_end_continues_witness :
  ∃ s', step started (EncodeEnd 0) = Some (Ok s') ∧
        encodes s' = ∅ ∧ isCreatingVideo s' = false ∧ screenshotCount s' = 0 ∧
        timers s' = {[0; nextTimer started]}.
Proof.
  destruct (encode_end_continues started 0 first_job started_reachable
              started_first_job) as (r & Hstep & Hfew & _).
  destruct Hfew as (s' & -> & Henc & Hflag & Hcount & _ & Htimers & _).
  - rewrite backlog_rest, TOTAL_CAPTURED_SS_COUNT_eq.
    apply Nat.ltb_lt. vm_compute; reflexivity.
  - exact (ex_intro _ s' (conj Hstep (conj Henc (conj Hflag (conj Hcount Htimers))))).
Defined.

(** In the time zone UTC the date 2024-01-02T03:04:05.678Z gives
    [2024-01-02_03_04]. *)
Lemma getTimestamp_shape_witness :
  getTimestamp UTC.toTimeString t0 = "2024-01-02" +:+ "_" +:+ "03" +:+ "_" +:+ "04".
Proof.
  apply (getTimestamp_shape UTC.toTimeString t0 "2024-01-02" "03:04:05.678Z"
           "03" "04" "05 GMT+0000 (Coordinated Universal Time)");
    vm_compute; reflexivity.
Defined.

Lemma ticked_reachable : reachable ticked.
Proof.
  apply (reachable_run fresh [Tick 0 t0]); [apply fresh_reachable |].
  vm_compute; reflexivity.
Qed.

Lemma ticked_capture : captures ticked !! 0 = Some first_frame.
Proof. vm_compute; reflexivity. Qed.

Lemma ticked_step : step ticked (CaptureEnd 0) = Some after_frame.
Proof. apply (Some_default (step ticked (CaptureEnd 0))). vm_compute; reflexivity. Qed.

(** The frame grabbed at [t0] is in the directory and in the scan once
    its grab has ended. *)
Lemma grabbed_frame_is_scanned_witness :
  cj_file first_frame ∈ dir (state_of after_frame) ∧
  cj_file first_frame ∈ jpg_sorted (elements (dir (state_of after_frame))).
Proof.
  destruct (grabbed_frame_is_scanned ticked 0 first_frame after_frame
              ticked_reachable ticked_capture ticked_step) as (_ & Hin & Hscan).
  exact (conj Hin Hscan).
Defined.

(** *** The start on 360 frames and 360 other files *)









Lemma Forall_by_eval {A} (p : A → bool) (l : list A) :
  forallb p l = true → Forall (λ x, p x = true) l.
Proof.
  induction l as [| x l IH]; [done |]. simpl.
  intros [Hx Hl]%andb_prop. constructor; [done | by apply IH].
Qed.

(** The manifest of three frames has their three lines. *)
Lemma manifest_has_one_line_per_frame_witness :
  JSString.split "010" (JSString.join newline (listFileLine <$> three_frames)) =
  listFileLine <$> three_frames.
Proof.
  apply manifest_has_one_line_per_frame.
  - intros Hnil. vm_compute in Hnil. discriminate Hnil.
  - apply (Forall_by_eval
             (λ f, JSString.forallb (λ x, negb (Ascii.eqb x "010")) (listFileLine f))).
    vm_compute; reflexivity.
Defined.

Lemma first_encode_resumes : ∃ s', run started [EncodeEnd 0] = Some (Ok s').
Proof.
  destruct (encode_end_resumes started 0 first_job started_reachable
              started_first_job) as [s' Hstep].
  - rewrite backlog_rest, TOTAL_CAPTURED_SS_COUNT_eq.
    apply Nat.ltb_lt. vm_compute; reflexivity.
  - exact (ex_intro _ s' (run_one _ _ _ Hstep)).
Qed.

(** The first encode of the backlog ends and its callback returns: 361
    deletions. *)
Lemma deletions_come_in_batches_witness :
  ∃ s', run started [EncodeEnd 0] = Some (Ok s') ∧
        deletions s' = (TOTAL_CAPTURED_SS_COUNT + 1) * encodes_ended [EncodeEnd 0].
Proof.
  destruct first_encode_resumes as [s' Hrun].
  destruct started_facts as (Hmain & _).
  destruct (deletions_come_in_batches backlog started [EncodeEnd 0] (Ok s')
              Hmain Hrun) as (_ & Hexact).
  exact (ex_intro _ s' (conj Hrun (Hexact s' eq_refl))).
Defined.

(** The first encode of the backlog ends and its callback returns: the
    scan of the start-up and the scan after the encode. *)
Lemma scans_are_accounted_witness :
  ∃ s', run started [EncodeEnd 0] = Some (Ok s') ∧
        encodes_started s' ≤ hand_offs s' ∧
        hand_offs s' = 1 + timer_stops s' + encodes_ended [EncodeEnd 0].
Proof.
  destruct first_encode_resumes as [s' Hrun].
  destruct started_facts as (Hmain & _).
  destruct (scans_are_accounted backlog started [EncodeEnd 0] (Ok s')
              Hmain Hrun) as (Hstarted & _ & Hexact).
  exact (ex_intro _ s' (conj Hrun (conj Hstarted (Hexact s' eq_refl)))).
Defined.

End Concrete.
